(** * Blackjack-Tracker: the playing-surface module (surface.py)

    A shallow embedding of [detect], [display], [timer], [not_found] and
    [get_surface], and the properties of the surface detector and of the
    acquisition loop that are established about them.

    Conventions of the embedding.
    - A Python [float] and a numpy [float64] is an IEEE 754 binary64 value,
      represented by [spec_float] with the operations of the Standard
      Library's [SpecFloat] at precision 53 (round to nearest even).
    - numpy integer arrays keep their element width: a value is a [Z] and the
      wrap-around of the fixed-width operation is written out ([wrap]).
    - Image arrays live in a heap of objects addressed by location, because
      OpenCV drawing primitives update their argument in place.
    - The OpenCV / imutils primitives are a parameter of the development
      (class [ImagePrimitives]); what the camera, the clock and the keyboard
      deliver in one loop iteration is an input record ([Tick]).
    - A Python exception is the [Raise] outcome of a computation. *)

From Stdlib Require Import ZArith Lia List Floats Permutation Sorted.
From stdpp Require Import base list strings pretty.

Set Warnings "-inexact-float".
#[local] Open Scope Z_scope.

(** ** Exceptions and the two computation types *)

Inductive exn : Type :=
  | ValueError
  | AttributeError
  | IndexError
  | OverflowError.

(** A pure computation that may raise. *)
Inductive result (A : Type) : Type :=
  | Ok (a : A)
  | Raise (e : exn).
Arguments Ok {A} a.
Arguments Raise {A} e.

Definition rbind {A B} (c : result A) (k : A -> result B) : result B :=
  match c with
  | Ok a => k a
  | Raise e => Raise e
  end.

Declare Scope result_scope.
Delimit Scope result_scope with result.
Notation "'do' x <- c ; k" := (rbind c (fun x => k))
  (at level 10, x pattern, c at level 100, k at level 200) : result_scope.

(** ** binary64 arithmetic *)

Abbreviation float := spec_float.

Module F64.
Definition prec : Z := 53.
Definition emax : Z := 1024.

(** Conversion of an integer (exact below 2^53, rounded above). *)
Definition of_Z (z : Z) : float := binary_normalize prec emax z 0 false.

Definition add : float -> float -> float := SFadd prec emax.
Definition sub : float -> float -> float := SFsub prec emax.
Definition mul : float -> float -> float := SFmul prec emax.
Definition div : float -> float -> float := SFdiv prec emax.
Definition sqrt : float -> float := SFsqrt prec emax.
Definition abs : float -> float := SFabs.
Definition ltb : float -> float -> bool := SFltb.
Definition leb : float -> float -> bool := SFleb.

(** [x ** 2] on a float64 scalar. *)
Definition square (x : float) : float := mul x x.

Definition is_nan (x : float) : bool :=
  match x with S754_nan => true | _ => false end.
End F64.

(** Rounding of a binary64 value to binary32 (numpy [dtype="float32"]). *)
Definition to_float32 (x : float) : float :=
  match x with
  | S754_finite s m e => binary_normalize 24 128 (cond_Zopp s (Zpos m)) e s
  | _ => x
  end.

(** Python [int(x)] on a float: truncation toward zero; infinities raise
    OverflowError and NaN raises ValueError. *)
Definition py_int (x : float) : result Z :=
  match x with
  | S754_zero _ => Ok 0
  | S754_finite s m e =>
      Ok (cond_Zopp s (if 0 <=? e then Zpos m * 2 ^ e else Zpos m / 2 ^ (- e)))
  | S754_infinity _ => Raise OverflowError
  | S754_nan => Raise ValueError
  end.

(** The float literals of the module. *)
Definition cutoff : float := Eval vm_compute in Prim2SF 0.03%float.
Definition image_resize_value : float := Eval vm_compute in Prim2SF 300.0%float.
Definition POLY_ACC_CONST : float := Eval vm_compute in Prim2SF 0.02%float.
Definition f_1_8 : float := Eval vm_compute in Prim2SF 1.8%float.

(** ** Fixed-width integers of numpy arrays *)

(** Two's-complement wrap-around to [w] bits. *)
Definition wrap (w : Z) (z : Z) : Z :=
  (z + 2 ^ (w - 1)) mod 2 ^ w - 2 ^ (w - 1).

(** A contour point [(x, y)]: one row of an int32 array. *)
Definition Point : Type := Z * Z.

(** A contour: an int32 array of shape (N, 1, 2), i.e. its N points. *)
Definition Contour : Type := list Point.

(** The coordinates OpenCV produces: pixel positions, non-negative int32. *)
Definition pixel (p : Point) : Prop :=
  0 <= fst p < 2 ^ 31 /\ 0 <= snd p < 2 ^ 31.

Definition psum (p : Point) : Z := fst p + snd p.
Definition pdiff (p : Point) : Z := snd p - fst p.

(** [np.sum(a, axis=1)] on an int32 array: the sum is accumulated in the
    platform integer, int64 (the module's use of strftime('%s') fixes a
    glibc platform). *)
Definition np_sum_axis1 (a : list Point) : list Z :=
  map (fun p => wrap 64 (fst p + snd p)) a.

(** [np.diff(a, axis=1)] on an (n, 2) int32 array: column 1 minus column 0
    of each row, in int32. *)
Definition np_diff_axis1 (a : list Point) : list Z :=
  map (fun p => wrap 32 (snd p - fst p)) a.

(** [np.argmin] / [np.argmax]: the index of the first occurrence of the
    extreme value; ValueError on an empty array. *)
Fixpoint arg_from (better : Z -> Z -> bool) (bi : nat) (bv : Z) (i : nat)
    (l : list Z) : nat :=
  match l with
  | [] => bi
  | v :: l' =>
      if better v bv then arg_from better i v (S i) l'
      else arg_from better bi bv (S i) l'
  end.

Definition np_argmin (l : list Z) : result nat :=
  match l with
  | [] => Raise ValueError
  | v :: l' => Ok (arg_from Z.ltb 0%nat v 1%nat l')
  end.

Definition np_argmax (l : list Z) : result nat :=
  match l with
  | [] => Raise ValueError
  | v :: l' => Ok (arg_from Z.gtb 0%nat v 1%nat l')
  end.

(** [a[i]] on the first axis. *)
Definition row {A} (a : list A) (i : nat) : result A :=
  match a !! i with
  | Some x => Ok x
  | None => Raise IndexError
  end.

(** [np.array_equal] on two points. *)
Definition array_equal (p q : Point) : bool :=
  (fst p =? fst q) && (snd p =? snd q).

(** The scan
    [for i in range(a.shape[0]): if np.array_equal(a[i], t): r = np.delete(a, i, 0); break]
    with [r] initialised to None: the array without the first row equal to
    [t], or None when no row is. *)
Fixpoint delete_first_equal (t : Point) (a : list Point) : option (list Point) :=
  match a with
  | [] => None
  | p :: a' =>
      if array_equal p t then Some a'
      else match delete_first_equal t a' with
           | Some r => Some (p :: r)
           | None => None
           end
  end.

(** ** Corner classification (detect, lines 92-116)

    The result is (top-left, top-right, bottom-right, bottom-left). When the
    second scan finds no row, [reduced_points] is still None and
    [np.diff(None, axis=1)] raises ValueError. The first scan cannot miss;
    its None case would raise AttributeError at [temp.shape]. *)
Definition Corners : Type := Point * Point * Point * Point.

Definition reshape_4_2 (c : Contour) : result (list Point) :=
  if (length c =? 4)%nat then Ok c else Raise ValueError.

Definition classify_corners (rect_points : list Point) : result Corners :=
  (let s := np_sum_axis1 rect_points in
   do imin <- np_argmin s;
   do top_left_point <- row rect_points imin;
   do imax <- np_argmax s;
   do bottom_right_point <- row rect_points imax;
   match delete_first_equal top_left_point rect_points with
   | None => Raise AttributeError
   | Some temp =>
       match delete_first_equal bottom_right_point temp with
       | None => Raise ValueError
       | Some reduced_points =>
           let diff := np_diff_axis1 reduced_points in
           do jmin <- np_argmin diff;
           do top_right_point <- row reduced_points jmin;
           do jmax <- np_argmax diff;
           do bottom_left_point <- row reduced_points jmax;
           Ok (top_left_point, top_right_point, bottom_right_point, bottom_left_point)
       end
   end)%result.

(** What an int32 array can hold. *)
Definition int32 (p : Point) : Prop :=
  - 2 ^ 31 <= fst p < 2 ^ 31 /\ - 2 ^ 31 <= snd p < 2 ^ 31.

(** The inputs on which the second scan finds no row: every point has the
    coordinate sum of the first one, and the first point does not occur
    again. *)
Definition stuck (pts : list Point) : Prop :=
  match pts with
  | [] => False
  | p0 :: others => Forall (fun p => psum p = psum p0) others /\ p0 ∉ others
  end.

(** The tie-break of the last step on the two rows [r1], [r2] left, in
    array order: the first occurrence of the least and of the greatest
    int32 difference. *)
Definition pick_top_right (r1 r2 : Point) : Point :=
  if wrap 32 (pdiff r2) <? wrap 32 (pdiff r1) then r2 else r1.

Definition pick_bottom_left (r1 r2 : Point) : Point :=
  if wrap 32 (pdiff r2) >? wrap 32 (pdiff r1) then r2 else r1.

(** ** The image primitives (OpenCV, imutils, numpy on images)

    [Pixels] is the content of an image array and [Matrix] a perspective
    matrix. Every primitive is given by its value; primitives that OpenCV
    applies in place are applied to the heap by the callers below. *)
Class ImageTypes : Type := {
  Pixels : Type;
  Matrix : Type
}.

Class ImagePrimitives `{ImageTypes} : Type := {
  (** [img.shape[0]], [img.shape[1]] *)
  shape : Pixels -> Z * Z;
  (** [imutils.resize(img, height=h)] *)
  imutils_resize : Pixels -> Z -> Pixels;
  (** [cv2.cvtColor(img, cv2.COLOR_BGR2GRAY)] *)
  cvtColor_BGR2GRAY : Pixels -> Pixels;
  (** [cv2.bilateralFilter(img, d, sigmaColor, sigmaSpace)] *)
  bilateralFilter : Pixels -> Z -> Z -> Z -> Pixels;
  (** [cv2.Canny(img, threshold1, threshold2)] *)
  Canny : Pixels -> Z -> Z -> Pixels;
  (** the contour list of
      [cv2.findContours(img, cv2.RETR_TREE, cv2.CHAIN_APPROX_SIMPLE)] *)
  findContours : Pixels -> list Contour;
  contourArea : Contour -> float;
  (** [cv2.arcLength(c, closed=True)] *)
  arcLength : Contour -> float;
  (** [cv2.approxPolyDP(c, epsilon, closed=True)] *)
  approxPolyDP : Contour -> float -> Contour;
  (** the image after
      [cv2.drawContours(img, contours, contourIdx, color, thickness)] *)
  drawContours : Pixels -> list Contour -> Z -> Z * Z * Z -> Z -> Pixels;
  (** [cv2.getPerspectiveTransform(src, dst)] on float32 point arrays *)
  getPerspectiveTransform : list (float * float) -> list (float * float) -> Matrix;
  (** [cv2.warpPerspective(img, M, (width, height))] *)
  warpPerspective : Pixels -> Matrix -> Z * Z -> Pixels;
  (** the image after
      [cv2.putText(img, text, org, font, fontScale, color, thickness, lineType)] *)
  putText : Pixels -> string -> Z * Z -> Z -> Z -> Z * Z * Z -> Z -> Z -> Pixels;
  (** [img.any()] *)
  any_nonzero : Pixels -> bool
}.

(** The one property of a primitive that a statement below relies on:
    [cv2.warpPerspective] returns an image of the requested size. *)
Class WarpSized {ty : ImageTypes} {cv : ImagePrimitives} : Prop :=
  warp_shape : forall src m w h, shape (warpPerspective src m (w, h)) = (h, w).

Definition FONT_HERSHEY_SIMPLEX : Z := 0.
Definition LINE_AA : Z := 16.

Section Surface.
Context {ty : ImageTypes} {cv : ImagePrimitives}.

(** ** The world: image heap and window system *)

Definition loc : Type := nat.

Inductive Event : Type :=
  (** entry into [display], with the contents of its arguments *)
  | DisplayCall (countdown contoured : Pixels) (transformed : option Pixels)
  | Imshow (winname : string) (mat : Pixels)
  | MoveWindow (winname : string) (x y : Z)
  | DestroyAllWindows.

Record World : Type := mkWorld {
  heap : list Pixels;
  screen : list Event
}.

Definition M (A : Type) : Type := World -> result (A * World).

Definition ret {A} (a : A) : M A := fun w => Ok (a, w).

Definition bind {A B} (c : M A) (k : A -> M B) : M B :=
  fun w =>
    match c w with
    | Ok (a, w') => k a w'
    | Raise e => Raise e
    end.

Definition lift {A} (r : result A) : M A :=
  fun w =>
    match r with
    | Ok a => Ok (a, w)
    | Raise e => Raise e
    end.

(** A new array object. *)
Definition alloc (p : Pixels) : M loc :=
  fun w => Ok (length (heap w), mkWorld (heap w ++ [p]) (screen w)).

(** The content of an array object. A location outside the heap is not a
    Python value; the model answers AttributeError there. *)
Definition read (l : loc) : M Pixels :=
  fun w =>
    match heap w !! l with
    | Some p => Ok (p, w)
    | None => Raise AttributeError
    end.

(** In-place update of an array object. *)
Definition write (l : loc) (p : Pixels) : M unit :=
  fun w => Ok (tt, mkWorld (<[l := p]> (heap w)) (screen w)).

Definition emit (e : Event) : M unit :=
  fun w => Ok (tt, mkWorld (heap w) (screen w ++ [e])).

(** A variable that holds an image array or None; an attribute access on
    None raises AttributeError. *)
Definition deref (v : option loc) : M loc :=
  match v with
  | Some l => ret l
  | None => lift (Raise AttributeError)
  end.

(** [deepcopy(x)] of an array. *)
Definition deepcopy (l : loc) : M loc :=
  bind (read l) alloc.

(** [imutils.resize(x, height=h)]: a new array. *)
Definition resize (l : loc) (h : Z) : M loc :=
  bind (read l) (fun p => alloc (imutils_resize p h)).

End Surface.

Declare Scope world_scope.
Delimit Scope world_scope with world.
Notation "'run' x <- c ; k" := (bind c (fun x => k))
  (at level 10, x pattern, c at level 100, k at level 200) : world_scope.

(** ** Ranking of the contours

    [sorted(xs, key=k, reverse=True)]: a stable sort into descending key
    order (rows with equal keys keep their input order), comparing keys
    with [<] only. *)
Fixpoint insert_desc {A} (key : A -> float) (x : A) (l : list A) : list A :=
  match l with
  | [] => [x]
  | y :: l' =>
      if F64.ltb (key x) (key y) then y :: insert_desc key x l'
      else x :: y :: l'
  end.

Definition sorted_reverse {A} (key : A -> float) (l : list A) : list A :=
  foldr (insert_desc key) [] l.

(** Descending key order: no element is smaller than a later one. *)
Definition descending {A} (key : A -> float) (l : list A) : Prop :=
  StronglySorted (fun a b => F64.ltb (key a) (key b) = false) l.

(** The order of binary64 numbers as a lexicographic order on integer
    triples (class and sign, exponent, mantissa), through which the
    comparison of [SpecFloat] is read. *)
Definition ord (x : float) : Z * Z * Z :=
  match x with
  | S754_infinity true => (-2, 0, 0)
  | S754_finite true m e => (-1, - e, Zneg m)
  | S754_zero _ => (0, 0, 0)
  | S754_nan => (0, 0, 0)
  | S754_finite false m e => (1, e, Zpos m)
  | S754_infinity false => (2, 0, 0)
  end.

Definition lex (a b : Z * Z * Z) : comparison :=
  match fst (fst a) ?= fst (fst b) with
  | Eq => match snd (fst a) ?= snd (fst b) with
          | Eq => snd a ?= snd b
          | c => c
          end
  | c => c
  end.

(** A number of magnitude below [2 ^ K]: a zero, or a finite value whose
    exponent is at most [K] and whose mantissa is below [2 ^ (K - e)].
    Infinities and NaN are not. *)
Definition within (K : Z) (x : float) : Prop :=
  match x with
  | S754_zero _ => True
  | S754_finite _ m e => e <= K /\ Z.pos m < 2 ^ (K - e)
  | _ => False
  end.

(** A zero or a positive finite value. *)
Definition nonneg (x : float) : Prop :=
  match x with
  | S754_zero _ => True
  | S754_finite false _ _ => True
  | _ => False
  end.

(** A point array times a Python float: a float64 array. *)
Definition np_multiply (p : Point) (ratio : float) : float * float :=
  (F64.mul (F64.of_Z (fst p)) ratio, F64.mul (F64.of_Z (snd p)) ratio).

(** [np.sqrt((a[0] - b[0]) ** 2 + (a[1] - b[1]) ** 2)] *)
Definition distance (a b : float * float) : float :=
  F64.sqrt (F64.add (F64.square (F64.sub (fst a) (fst b)))
                    (F64.square (F64.sub (snd a) (snd b)))).

(** [max(int(a), int(b))] *)
Definition max_int (a b : float) : result Z :=
  (do x <- py_int a; do y <- py_int b; Ok (Z.max x y))%result.

Definition float32_points (l : list (float * float)) : list (float * float) :=
  map (fun p => (to_float32 (fst p), to_float32 (snd p))) l.

Section Detect.
Context {ty : ImageTypes} {cv : ImagePrimitives}.

(** ** The detection result *)

Record PlayingSurface : Type := mkPlayingSurface {
  name : string;
  transform : loc;
  contour : Contour;
  img_cnt : loc;
  area : float;
  area_relative : float;
  perspective_matrix : Matrix;
  width : Z;
  height : Z;
  dealer_region : list Z;
  player_region : list Z
}.

(** Lines 68-69: the polygon approximation of a contour, with accuracy
    [POLY_ACC_CONST] times its perimeter. *)
Definition approximate (c : Contour) : Contour :=
  let perimeter := arcLength c in
  approxPolyDP c (F64.mul POLY_ACC_CONST perimeter).

(** The candidate loop (lines 65-81): the index and the polygon
    approximation of the first ranked contour that approximates to four
    points, or None. *)
Fixpoint find_surface_cnt (contours : list Contour) (contour_idx : Z)
    : option (Z * Contour) :=
  match contours with
  | [] => None
  | c :: rest =>
      let curr_cnt := approximate c in
      if (length curr_cnt =? 4)%nat then Some (contour_idx, curr_cnt)
      else find_surface_cnt rest (contour_idx + 1)
  end.

(** [cv2.drawContours(image, ...)]: drawn into the array [image] itself. *)
Definition draw_contours (image : loc) (contours : list Contour)
    (contourIdx : Z) (color : Z * Z * Z) (thickness : Z) : M unit :=
  (run cur <- read image;
   write image (drawContours cur contours contourIdx color thickness))%world.

(** Lines 47-53: the contours of the edge map of a working image. *)
Definition edge_contours (work : Pixels) : list Contour :=
  let im_gray := cvtColor_BGR2GRAY work in
  let im_blur := bilateralFilter im_gray 11 17 17 in
  let im_edge := Canny im_blur 30 200 in
  findContours im_edge.

(** Line 55: the five first contours in descending order of area. *)
Definition ranked_contours (work : Pixels) : list Contour :=
  take 5 (sorted_reverse contourArea (edge_contours work)).

(** Lines 92-160: from the accepted contour and the resize ratio to the
    perspective matrix and the output size. The size estimated from the
    corner distances (lines 127-139) is computed and then overwritten by
    the fixed size of lines 141-142. *)
Definition rectification (ratio : float) (surface_cnt : Contour)
    : result (Matrix * Z * Z) :=
  (do rect_points <- reshape_4_2 surface_cnt;
   do corners <- classify_corners rect_points;
   let '(tl, tr, br, bl) := corners in
   let top_left_point := np_multiply tl ratio in
   let top_right_point := np_multiply tr ratio in
   let bottom_right_point := np_multiply br ratio in
   let bottom_left_point := np_multiply bl ratio in
   let rect :=
     float32_points
       [top_left_point; top_right_point; bottom_right_point; bottom_left_point] in
   let widthA := distance bottom_right_point bottom_left_point in
   let widthB := distance top_right_point top_left_point in
   do width_estimate <- max_int widthA widthB;
   let heightA := distance top_right_point bottom_right_point in
   let heightB := distance top_left_point bottom_left_point in
   do height_estimate <- max_int heightA heightB;
   let height := 800 in
   do width <- py_int (F64.mul f_1_8 (F64.of_Z height));
   let dst :=
     float32_points
       [(F64.of_Z 0, F64.of_Z 0);
        (F64.of_Z (width - 1), F64.of_Z 0);
        (F64.of_Z (width - 1), F64.of_Z (height - 1));
        (F64.of_Z 0, F64.of_Z (height - 1))] in
   Ok (getPerspectiveTransform rect dst, width, height))%result.

(** Lines 196-197: [[0, int(width / 2)]] and
    [[int((width / 2) + 1), int(width)]], with the true division of
    Python 3 (the floor division of Python 2 gives the same integers). *)
Definition regions (width : Z) : result (list Z * list Z) :=
  (do half <- py_int (F64.div (F64.of_Z width) (F64.of_Z 2));
   do half1 <- py_int (F64.add (F64.div (F64.of_Z width) (F64.of_Z 2)) (F64.of_Z 1));
   Ok ([0; half], [half1; width]))%result.

(** [detect(image)] *)
Definition detect (image : option loc) : M (option PlayingSurface) :=
  (run image0 <- deref image;
   run img <- read image0;
   let ratio := F64.div (F64.of_Z (fst (shape img))) image_resize_value in
   run original_image <- deepcopy image0;
   run h <- lift (py_int image_resize_value);
   run image <- resize image0 h;
   run work <- read image;
   let contours := ranked_contours work in
   match find_surface_cnt contours 0 with
   | None => ret None
   | Some (contour_idx, surface_cnt) =>
       run _ <- draw_contours image contours contour_idx (255, 180, 0) 2;
       run plan <- lift (rectification ratio surface_cnt);
       let '(persp_mtx, width, height) := plan in
       run original <- read original_image;
       run transformed <- alloc (warpPerspective original persp_mtx (width, height));
       let transformed_area := contourArea surface_cnt in
       let original_image_area := fst (shape original) * snd (shape original) in
       let relative_size := F64.div transformed_area (F64.of_Z original_image_area) in
       if F64.ltb relative_size cutoff then ret None
       else
         run r <- lift (regions width);
         ret (Some {| name := "primary";
                      transform := transformed;
                      contour := surface_cnt;
                      img_cnt := image;
                      area := transformed_area;
                      area_relative := relative_size;
                      perspective_matrix := persp_mtx;
                      width := width;
                      height := height;
                      dealer_region := fst r;
                      player_region := snd r |})
   end)%world.

End Detect.

(** ** The clock reading

    [float(datetime.now().strftime('%s.%f')[9:-5])]. The text produced by
    strftime is an input; the slice and the conversion are the module's. *)

(** [s[9:-5]] *)
Definition slice_9_m5 (s : string) : string :=
  let n := String.length s in
  let start := Nat.min 9 n in
  let stop := (n - 5)%nat in
  String.substring start (stop - start) s.

Definition digit_of (a : Ascii.ascii) : option Z :=
  let n := Ascii.nat_of_ascii a in
  if ((48 <=? n) && (n <=? 57))%nat then Some (Z.of_nat n - 48) else None.

(** The leading decimal digits of [s]: their value, their number, the rest. *)
Fixpoint read_digits (s : string) (acc : Z) (n : nat) : Z * nat * string :=
  match s with
  | String a s' =>
      match digit_of a with
      | Some d => read_digits s' (10 * acc + d) (S n)
      | None => (acc, n, s)
      end
  | EmptyString => (acc, n, s)
  end.

(** [float(s)] for the texts a slice of strftime('%s.%f') can be: decimal
    digits with at most one point and at least one digit. Anything else is
    answered ValueError. The quotient of two integers below 2^53 is
    correctly rounded, as the conversion of the decimal text is. *)
Definition py_float (s : string) : result float :=
  let '(ip, ni, rest) := read_digits s 0 0 in
  match rest with
  | EmptyString => if (ni =? 0)%nat then Raise ValueError else Ok (F64.of_Z ip)
  | String a rest' =>
      if (Ascii.nat_of_ascii a =? 46)%nat then
        let '(fp, nf, rest'') := read_digits rest' 0 0 in
        match rest'' with
        | EmptyString =>
            if (ni + nf =? 0)%nat then Raise ValueError
            else Ok (F64.div (F64.of_Z (ip * 10 ^ Z.of_nat nf + fp))
                             (F64.of_Z (10 ^ Z.of_nat nf)))
        | String _ _ => Raise ValueError
        end
      else Raise ValueError
  end.

Definition clock_reading (stamp : string) : result float :=
  py_float (slice_9_m5 stamp).

(** [abs(test_time - curr_time) > 1] *)
Definition elapsed (test_time curr_time : float) : bool :=
  F64.ltb (F64.of_Z 1) (F64.abs (F64.sub test_time curr_time)).

(** [format(count, '02d')] *)
Definition format_02d (count : Z) : string :=
  if (0 <=? count) && (count <? 10) then String.append "0" (pretty count)
  else pretty count.

(** ** Vocabulary of the statements about the clock *)

(** The reading of [n] tenths of a second: the value of the text "d.d". *)
Definition tenths (n : Z) : float := F64.div (F64.of_Z n) (F64.of_Z 10).

Definition decimal_digit (d : Z) : Prop := 0 <= d <= 9.

Definition digit_char (d : Z) : Ascii.ascii :=
  Ascii.ascii_of_nat (Z.to_nat (48 + d)).

Fixpoint digits_text (ds : list Z) : string :=
  match ds with
  | [] => EmptyString
  | d :: ds' => String (digit_char d) (digits_text ds')
  end.

(** The text of strftime('%s.%f') for the digits of the epoch seconds and
    of the microseconds. *)
Definition strftime_text (secs micros : list Z) : string :=
  String.append (digits_text secs) (String.append "." (digits_text micros)).

(** The readings a second apart whose binary64 difference is above 1. *)
Definition rounds_over (a b : Z) : bool :=
  (Z.abs (a - b) =? 10)
  && bool_decide (Z.min a b ∈ [12; 17; 34; 39; 73; 78]).

Section Acquisition.
Context {ty : ImageTypes} {cv : ImagePrimitives}.

(** [timer(image, count)]: the countdown is written into [image] itself. *)
Definition timer (image : loc) (count : Z) : M loc :=
  (let text := format_02d count in
   let font_pos := (380, 70) in
   let shadow_offset := 2 in
   let font_pos2 := (fst font_pos + shadow_offset, snd font_pos + shadow_offset) in
   let font := FONT_HERSHEY_SIMPLEX in
   let font_scale := 2 in
   let font_thickness := 3 in
   let line_type := LINE_AA in
   let colour :=
     if (count <=? 10) && (count mod 2 =? 0) then (0, 0, 255)
     else if count <=? 3 then (0, 0, 255)
     else (255, 255, 255) in
   run p <- read image;
   run _ <- write image
     (putText p text font_pos2 font font_scale (0, 0, 0) font_thickness line_type);
   run p <- read image;
   run _ <- write image
     (putText p text font_pos font font_scale colour font_thickness line_type);
   ret image)%world.

(** [not_found(image)]: the overlay is written into [image] itself. *)
Definition not_found (image : loc) : M loc :=
  (let text := "Playing surface not found!"%string in
   run p0 <- read image;
   let font_pos := (10, fst (shape p0) - 20) in
   let shadow_offset := 1 in
   let font_pos2 := (fst font_pos + shadow_offset, snd font_pos + shadow_offset) in
   let font := FONT_HERSHEY_SIMPLEX in
   let font_scale := 1 in
   let font_thickness := 2 in
   let line_type := LINE_AA in
   let colour := (0, 0, 255) in
   run p <- read image;
   run _ <- write image
     (putText p text font_pos2 font font_scale (0, 0, 0) font_thickness line_type);
   run p <- read image;
   run _ <- write image
     (putText p text font_pos font font_scale colour font_thickness line_type);
   ret image)%world.

(** [display(countdown, contoured, transformed)]; [transformed = None] is
    the default argument, the empty array, whose [any()] is False. The
    call itself is recorded on the screen log before its windows. *)
Definition display (countdown contoured : loc) (transformed : option loc) : M unit :=
  (let x_offset := 50 in
   let y_offset := 50 in
   run c <- read countdown;
   run k <- read contoured;
   run t <- match transformed with
            | Some l => run p <- read l; ret (Some p)
            | None => ret None
            end;
   run _ <- emit (DisplayCall c k t);
   run _ <- emit (Imshow "Original" c);
   run _ <- emit (MoveWindow "Original" x_offset y_offset);
   run _ <- emit (Imshow "Contoured" k);
   run _ <- emit (MoveWindow "Contoured" (snd (shape c) + x_offset) y_offset);
   match t with
   | Some p =>
       if any_nonzero p then
         run _ <- emit (Imshow "Transformed" p);
         emit (MoveWindow "Transformed" (snd (shape c) * 2 + x_offset) y_offset)
       else ret tt
   | None => ret tt
   end)%world.

(** What one iteration of the loop receives from outside: the image of
    [cap.read()] (None when no frame was grabbed), the strftime text at
    line 277, the strftime text at line 279 (read only when the countdown
    is decremented) and the key of [cv2.waitKey]. *)
Record Tick : Type := mkTick {
  frame : option Pixels;
  stamp_test : string;
  stamp_reset : string;
  key : Z
}.

Record LoopState : Type := mkLoopState {
  count : Z;
  curr_time : float;
  valid_surface : option PlayingSurface
}.

Definition cap_read (t : Tick) : M (option loc) :=
  match frame t with
  | Some p => (run l <- alloc p; ret (Some l))%world
  | None => ret None
  end.

(** Lines 277-280: the countdown and the reference time after the clock
    test [count != 0 and abs(test_time - curr_time) > 1]. *)
Definition countdown (t : Tick) (st : LoopState) : result (Z * float) :=
  (do test_time <- clock_reading (stamp_test t);
   if negb (count st =? 0) && elapsed test_time (curr_time st) then
     do now <- clock_reading (stamp_reset t);
     Ok (count st - 1, now)
   else Ok (count st, curr_time st))%result.

(** Lines 272-297: what the loop shows for a frame and its detection. *)
Definition present (t : Tick) (st : LoopState) (image : option loc)
    (playing_surface : option PlayingSurface) : M LoopState :=
  (run image <- deref image;
   run resized <- resize image 300;
   run orig_disp <- deepcopy resized;
   run timer_disp <- deepcopy orig_disp;
   run cc <- lift (countdown t st);
   let '(count', curr_time') := cc in
   run timer_disp <- timer timer_disp count';
   match playing_surface with
   | Some ps =>
       run r1 <- resize (img_cnt ps) 300;
       run cnt_disp <- deepcopy r1;
       run r2 <- resize (transform ps) 300;
       run trans_disp <- deepcopy r2;
       run _ <- display timer_disp cnt_disp (Some trans_disp);
       ret (mkLoopState count' curr_time' (Some ps))
   | None =>
       run copy <- deepcopy orig_disp;
       run not_found_overlay <- not_found copy;
       match valid_surface st with
       | Some held =>
           run r <- resize (transform held) 300;
           run _ <- display timer_disp not_found_overlay (Some r);
           ret (mkLoopState count' curr_time' (Some held))
       | None =>
           run _ <- display timer_disp not_found_overlay None;
           ret (mkLoopState count' curr_time' None)
       end
   end)%world.

(** Lines 264-297: one pass through the loop body, up to the key poll. *)
Definition iteration (t : Tick) (st : LoopState) : M LoopState :=
  (run image <- cap_read t;
   run playing_surface <- detect image;
   present t st image playing_surface)%world.

(** ['a'] or ['A'] *)
Definition cancel_key (k : Z) : bool := (k =? 97) || (k =? 65).

(** The while loop over the ticks the outside world supplies. [Starved]
    is the model running out of ticks while the loop is still running. *)
Inductive LoopEnd : Type :=
  | Exited (st : LoopState)
  | Starved (st : LoopState).

Fixpoint while_loop (ticks : list Tick) (st : LoopState) : M LoopEnd :=
  if count st =? 0 then ret (Exited st)
  else
    match ticks with
    | [] => ret (Starved st)
    | t :: ticks' =>
        (run st' <- iteration t st;
         if cancel_key (key t) then
           run _ <- emit DestroyAllWindows;
           ret (Exited st')
         else while_loop ticks' st')%world
    end.

(** [get_surface(cap, count)]: either the value it returns, or the state
    of the loop still running when the supplied ticks are used up. *)
Inductive Outcome : Type :=
  | Returned (v : option PlayingSurface)
  | Running (st : LoopState).

Definition get_surface (stamp0 : string) (ticks : list Tick) (count : Z)
    : M Outcome :=
  (let count := count + 1 in
   run curr_time <- lift (clock_reading stamp0);
   run e <- while_loop ticks (mkLoopState count curr_time None);
   match e with
   | Exited st =>
       run _ <- emit DestroyAllWindows;
       ret (Returned (valid_surface st))
   | Starved st => ret (Running st)
   end)%world.

(** ** Vocabulary of the statements about the loop *)

(** The image [timer] leaves in its argument, and the one [not_found]
    leaves. *)
Definition timer_image (p : Pixels) (count : Z) : Pixels :=
  let colour :=
    if (count <=? 10) && (count mod 2 =? 0) then (0, 0, 255)
    else if count <=? 3 then (0, 0, 255)
    else (255, 255, 255) in
  putText
    (putText p (format_02d count) (382, 72) FONT_HERSHEY_SIMPLEX 2 (0, 0, 0) 3 LINE_AA)
    (format_02d count) (380, 70) FONT_HERSHEY_SIMPLEX 2 colour 3 LINE_AA.

Definition not_found_image (p : Pixels) : Pixels :=
  putText
    (putText p "Playing surface not found!" (11, fst (shape p) - 20 + 1)
       FONT_HERSHEY_SIMPLEX 1 (0, 0, 0) 2 LINE_AA)
    "Playing surface not found!" (10, fst (shape p) - 20)
    FONT_HERSHEY_SIMPLEX 1 (0, 0, 255) 2 LINE_AA.

(** The window calls of one [display]. *)
Definition windows (c k : Pixels) (t : option Pixels) : list Event :=
  [Imshow "Original" c; MoveWindow "Original" 50 50;
   Imshow "Contoured" k; MoveWindow "Contoured" (snd (shape c) + 50) 50]
  ++ match t with
     | Some p =>
         if any_nonzero p then
           [Imshow "Transformed" p;
            MoveWindow "Transformed" (snd (shape c) * 2 + 50) 50]
         else []
     | None => []
     end.

(** The rectified images handed to [display], call by call. *)
Definition shown (screen : list Event) : list (option Pixels) :=
  omap (fun e => match e with
                 | DisplayCall _ _ t => Some t
                 | _ => None
                 end) screen.

(** Detection on a frame with content [f] returns nothing / returns a
    surface whose rectified image is [T], wherever the frame is stored. *)
Definition detection_fails (f : Pixels) : Prop :=
  forall w l, heap w !! l = Some f ->
    exists w', detect (Some l) w = Ok (None, w').

Definition detection_yields (f T : Pixels) : Prop :=
  forall w l, heap w !! l = Some f ->
    exists ps w', detect (Some l) w = Ok (Some ps, w')
                  /\ heap w' !! transform ps = Some T.

(** A tick entered with reference time [curr] whose clock test fires,
    which resets the reference time to [now] and is not cancelled. *)
Definition beats (curr : float) (t : Tick) (now : float) : Prop :=
  exists test,
    clock_reading (stamp_test t) = Ok test
    /\ elapsed test curr = true
    /\ clock_reading (stamp_reset t) = Ok now
    /\ cancel_key (key t) = false.

(** A run of ticks each of which beats, grabs a frame and detects
    without raising. [steady_run curr h ticks es h']: entered with
    reference time [curr] and the rectified image [h] held, the ticks hand
    the rectified images [es] to [display] and leave [h'] held. *)
Inductive steady_run : float -> option Pixels -> list Tick ->
    list (option Pixels) -> option Pixels -> Prop :=
  | steady_nil curr h : steady_run curr h [] [] h
  | steady_miss curr h t ts f now es h' :
      frame t = Some f -> detection_fails f -> beats curr t now ->
      steady_run now h ts es h' ->
      steady_run curr h (t :: ts)
        (option_map (fun T => imutils_resize T 300) h :: es) h'
  | steady_hit curr h t ts f T now es h' :
      frame t = Some f -> detection_yields f T -> beats curr t now ->
      steady_run now (Some T) ts es h' ->
      steady_run curr h (t :: ts) (Some (imutils_resize T 300) :: es) h'.

(** The surface [v] on the heap [hp] has the rectified image [h]. *)
Definition holds (hp : list Pixels) (v : option PlayingSurface)
    (h : option Pixels) : Prop :=
  match v, h with
  | Some ps, Some T => hp !! transform ps = Some T
  | None, None => True
  | _, _ => False
  end.

End Acquisition.

Section Watching.
Context {ty : ImageTypes} {cv : ImagePrimitives}.

(** The countdown images handed to [display], call by call. *)
Definition originals (screen : list Event) : list Pixels :=
  omap (fun e => match e with
                 | DisplayCall c _ _ => Some c
                 | _ => None
                 end) screen.

(** The frames of [ticks] at height 300 with the counts [n], [n - 1], ...
    drawn on them by [timer]. *)
Fixpoint countdown_frames (n : Z) (ticks : list Tick) : list Pixels :=
  match ticks with
  | [] => []
  | t :: ticks' =>
      match frame t with
      | Some f => timer_image (imutils_resize f 300) n :: countdown_frames (n - 1) ticks'
      | None => countdown_frames (n - 1) ticks'
      end
  end.

(** The destination rectangle of lines 147-155 for the size 1440 x 800,
    a float32 array. *)
Definition dst_1440_800 : list (float * float) :=
  float32_points
    [(F64.of_Z 0, F64.of_Z 0); (F64.of_Z 1439, F64.of_Z 0);
     (F64.of_Z 1439, F64.of_Z 799); (F64.of_Z 0, F64.of_Z 799)].

End Watching.

(** ** A small interpretation of the primitives

    Used to run the model on concrete frames: an image is its size, the
    contours an edge detector finds in it and the marks drawn on it;
    polygon approximation keeps a contour as it is, the contour area is
    the shoelace area, and a perspective matrix is the pair of point
    lists it was computed from. *)
Module Sketch.

Record Img : Type := mkImg {
  rows : Z;
  cols : Z;
  scene : list Contour;
  marks : list string
}.

(** Twice the signed shoelace area of the closed polygon [c]. *)
Fixpoint shoelace (prev : Point) (c : list Point) : Z :=
  match c with
  | [] => 0
  | p :: c' => fst prev * snd p - fst p * snd prev + shoelace p c'
  end.

Definition area_of (c : Contour) : float :=
  match c with
  | [] => F64.of_Z 0
  | p0 :: _ =>
      F64.div (F64.of_Z (Z.abs (shoelace (List.last c p0) c))) (F64.of_Z 2)
  end.

Definition resized (p : Img) (h : Z) : Img :=
  mkImg h (cols p * h / rows p) (scene p) (marks p).

Definition marked (s : string) (p : Img) : Img :=
  mkImg (rows p) (cols p) (scene p) (marks p ++ [s]).

#[global] Instance types : ImageTypes := {|
  Pixels := Img;
  Matrix := list (float * float) * list (float * float)
|}.

#[global] Instance primitives : ImagePrimitives := {|
  shape := fun p => (rows p, cols p);
  imutils_resize := resized;
  cvtColor_BGR2GRAY := fun p => p;
  bilateralFilter := fun p _ _ _ => p;
  Canny := fun p _ _ => p;
  findContours := scene;
  contourArea := area_of;
  arcLength := fun c => F64.of_Z (Z.of_nat (length c));
  approxPolyDP := fun c _ => c;
  drawContours := fun p _ _ _ _ => marked "contour" p;
  getPerspectiveTransform := fun src dst => (src, dst);
  warpPerspective :=
    fun p _ dsize => mkImg (snd dsize) (fst dsize) (scene p) (marks p ++ ["warped"]);
  putText := fun p text _ _ _ _ _ _ => marked text p;
  any_nonzero := fun p => (0 <? rows p) && (0 <? cols p)
|}.

#[global] Instance warp_sized : WarpSized := fun _ _ _ _ => eq_refl.

(** A 600 x 800 frame showing a 190 x 140 quadrilateral (in working-copy
    coordinates), the same scene in a 3000 x 4000 frame, a frame without
    any contour, and a frame whose only contour lies on an anti-diagonal. *)
Definition quad : Contour := [(10, 10); (200, 10); (200, 150); (10, 150)].
Definition table_frame : Img := mkImg 600 800 [quad] [].
Definition large_frame : Img := mkImg 3000 4000 [quad] [].
Definition blank_frame : Img := mkImg 600 800 [] [].
Definition streak : Contour := [(0, 3); (1, 2); (2, 1); (3, 0)].
Definition streak_frame : Img := mkImg 600 800 [streak] [].

(** A 100 x 100 frame whose quadrilateral has area 300, three hundredths
    of the frame area, and one whose quadrilateral has area 295. *)
Definition boundary_frame : Img :=
  mkImg 100 100 [[(0, 0); (30, 0); (30, 10); (0, 10)]] [].
Definition below_frame : Img :=
  mkImg 100 100 [[(0, 0); (30, 0); (30, 10); (1, 10)]] [].

(** A frame with six contours: a triangle, larger than everything else,
    three quadrilaterals and two small triangles. *)
Definition big_triangle : Contour := [(0, 0); (200, 0); (0, 200)].
Definition quad_a : Contour := [(0, 0); (100, 0); (100, 100); (0, 100)].
Definition quad_b : Contour := [(0, 0); (120, 0); (120, 100); (0, 100)].
Definition quad_c : Contour := [(0, 0); (2, 0); (2, 2); (0, 2)].
Definition tri_d : Contour := [(0, 0); (50, 0); (0, 50)].
Definition tri_e : Contour := [(0, 0); (40, 0); (0, 40)].
Definition busy_frame : Img :=
  mkImg 300 400 [quad_c; quad_a; tri_e; big_triangle; quad_b; tri_d] [].

(** A frame whose only quadrilateral is the smallest of six contours. *)
Definition crowded_frame : Img :=
  mkImg 300 400 [quad_c; big_triangle; tri_d; tri_e; tri_d; tri_e] [].

(** A second table, and four ticks a second and a half apart that show
    nothing, the first table, nothing and the second table; no key is
    pressed ([cv2.waitKey] answers -1). *)
Definition quad2 : Contour := [(20, 20); (220, 20); (220, 160); (20, 160)].
Definition table_frame2 : Img := mkImg 600 800 [quad2] [].
Definition stamp0 : string := "1700000000.000000".
Definition tick1 : Tick :=
  mkTick (Some blank_frame) "1700000001.500000" "1700000001.500000" (-1).
Definition tick2 : Tick :=
  mkTick (Some table_frame) "1700000003.000000" "1700000003.000000" (-1).
Definition tick3 : Tick :=
  mkTick (Some blank_frame) "1700000004.500000" "1700000004.500000" (-1).
Definition tick4 : Tick :=
  mkTick (Some table_frame2) "1700000006.000000" "1700000006.000000" (-1).

(** The clock reading of a text whose seconds end in [tenths / 10]. *)
Definition reading (tenths : Z) : float := F64.div (F64.of_Z tenths) (F64.of_Z 10).

(** The rectified image of a frame in this interpretation. *)
Definition rectified (p : Img) : Img :=
  mkImg 800 1440 (scene p) (marks p ++ ["warped"]).

(** A surface held from an earlier detection of the first table, in a
    world whose only array is its rectified image. *)
Definition held_table : PlayingSurface :=
  {| name := "primary";
     transform := 0%nat;
     contour := quad;
     img_cnt := 0%nat;
     area := F64.of_Z 26600;
     area_relative := F64.div (F64.of_Z 26600) (F64.of_Z 480000);
     perspective_matrix := ([], []);
     width := 1440;
     height := 800;
     dealer_region := [0; 720];
     player_region := [721; 1440] |}.

Definition empty_world : World := mkWorld [] [].

(** The world that holds one image and an empty screen. *)
Definition holding (p : Img) : World := mkWorld [p] [].

(** A tick at which the key 'a' is pressed, and one at which no frame is
    grabbed. *)
Definition tick_cancel : Tick :=
  mkTick (Some table_frame) "1700000003.000000" "1700000003.000000" 97.
Definition tick_dark : Tick :=
  mkTick None "1700000003.000000" "1700000003.000000" (-1).

(** A frame whose only contour has a point twice. *)
Definition twin : Contour := [(5, 5); (5, 5); (7, 3); (4, 6)].
Definition twin_frame : Img := mkImg 600 800 [twin] [].

(** Two ticks read three and nine tenths of a second after [stamp0]. *)
Definition tick_soon : Tick :=
  mkTick (Some blank_frame) "1700000000.300000" "1700000000.300000" (-1).
Definition tick_soon2 : Tick :=
  mkTick (Some table_frame) "1700000000.900000" "1700000000.900000" (-1).

End Sketch.

(** * Properties *)

(** ** Evaluation on small inputs *)

Example classify_square :
  classify_corners [(0, 0); (10, 0); (10, 10); (0, 10)]
  = Ok ((0, 0), (10, 0), (10, 10), (0, 10)).
Proof. reflexivity. Qed.

Example classify_antidiagonal :
  classify_corners [(0, 3); (1, 2); (2, 1); (3, 0)] = Raise ValueError.
Proof. reflexivity. Qed.

Example classify_tie :
  classify_corners [(0, 0); (2, 3); (1, 2); (9, 9)]
  = Ok ((0, 0), (2, 3), (9, 9), (2, 3)).
Proof. reflexivity. Qed.

Example clock_reading_sample :
  clock_reading "1700000007.423456" = Ok (F64.div (F64.of_Z 74) (F64.of_Z 10))
  /\ format_02d 7 = "07" /\ format_02d 12 = "12" /\ format_02d (-1) = "-1".
Proof. repeat split; reflexivity. Qed.


(** ** Corner classification *)

(** No wrap-around on the coordinates an int32 array of pixel positions
    holds. *)
Lemma wrap_small (w z : Z) :
  0 < w -> - 2 ^ (w - 1) <= z < 2 ^ (w - 1) -> wrap w z = z.
Proof.
  intros Hw Hz. unfold wrap.
  assert (E : 2 ^ w = 2 * 2 ^ (w - 1)).
  { replace w with (Z.succ (w - 1)) at 1 by lia. rewrite Z.pow_succ_r by lia. reflexivity. }
  rewrite Z.mod_small by lia. lia.
Qed.

Lemma pixel_int32 (p : Point) : pixel p -> int32 p.
Proof. unfold pixel, int32. lia. Qed.

Lemma np_sum_int32 (a : list Point) :
  Forall int32 a -> np_sum_axis1 a = map psum a.
Proof.
  intros H. unfold np_sum_axis1. apply map_ext_Forall.
  eapply Forall_impl; [exact H|]. intros [x y] [Hx Hy]; simpl in *.
  unfold psum; simpl. apply wrap_small; lia.
Qed.

Lemma np_sum_pixel (a : list Point) :
  Forall pixel a -> np_sum_axis1 a = map psum a.
Proof.
  intros H. apply np_sum_int32. eapply Forall_impl; [exact H | exact pixel_int32].
Qed.

Lemma np_diff_pixel (a : list Point) :
  Forall pixel a -> np_diff_axis1 a = map pdiff a.
Proof.
  intros H. unfold np_diff_axis1. apply map_ext_Forall.
  eapply Forall_impl; [exact H|]. intros [x y] [Hx Hy]; simpl in *.
  unfold pdiff; simpl. apply wrap_small; lia.
Qed.

(** [arg_from] with [<] either keeps the running best, which is then a
    lower bound of the rest, or moves to the first strictly smaller value
    of the rest that is a lower bound of it. *)
Lemma arg_from_min (l : list Z) : forall (bi : nat) (bv : Z) (i : nat),
  (arg_from Z.ltb bi bv i l = bi /\ Forall (fun w => bv <= w) l)
  \/ (exists k v, arg_from Z.ltb bi bv i l = (i + k)%nat /\ l !! k = Some v /\ v < bv
        /\ Forall (fun w => v <= w) l
        /\ forall j w, (j < k)%nat -> l !! j = Some w -> v < w).
Proof.
  induction l as [|x l IH]; intros bi bv i; simpl.
  - left. split; [reflexivity | constructor].
  - destruct (Z.ltb_spec x bv) as [Hlt | Hge].
    + right. destruct (IH i x (S i)) as [[-> Hall] | (k & v & -> & Hk & Hv & Hall & Hfirst)].
      * exists 0%nat, x. repeat split; [f_equal; lia | assumption | | intros; lia].
        constructor; [lia | assumption].
      * exists (S k), v. repeat split; [lia | assumption | lia | |].
        -- constructor; [lia | assumption].
        -- intros [|j] w Hj Hw; simpl in Hw.
           ++ injection Hw as <-. assumption.
           ++ apply (Hfirst j); [lia | assumption].
    + destruct (IH bi bv (S i)) as [[-> Hall] | (k & v & -> & Hk & Hv & Hall & Hfirst)].
      * left. split; [reflexivity|]. constructor; assumption.
      * right. exists (S k), v. repeat split; [lia | assumption | assumption | |].
        -- constructor; [lia | assumption].
        -- intros [|j] w Hj Hw; simpl in Hw.
           ++ injection Hw as <-. lia.
           ++ apply (Hfirst j); [lia | assumption].
Qed.

(** [np.argmin] returns the first index of the least value. *)
Lemma np_argmin_spec (l : list Z) (i : nat) :
  np_argmin l = Ok i ->
  exists v, l !! i = Some v /\ Forall (fun w => v <= w) l
            /\ forall j w, (j < i)%nat -> l !! j = Some w -> v < w.
Proof.
  destruct l as [|x l]; simpl; [discriminate|]. intros [= <-].
  destruct (arg_from_min l 0 x 1) as [[-> Hall] | (k & v & -> & Hk & Hv & Hall & Hfirst)].
  - exists x. repeat split; [constructor; [lia | assumption] | intros; lia].
  - exists v. repeat split; [assumption | constructor; [lia | assumption] |].
    intros [|j] w Hj Hw; simpl in Hw.
    + injection Hw as <-. assumption.
    + apply (Hfirst j); [lia | assumption].
Qed.

Lemma arg_from_gtb_opp (l : list Z) : forall bi bv i,
  arg_from Z.gtb bi bv i l = arg_from Z.ltb bi (- bv) i (map Z.opp l).
Proof.
  induction l as [|x l IH]; intros bi bv i; simpl; [reflexivity|].
  replace (- x <? - bv) with (x >? bv).
  - destruct (x >? bv); apply IH.
  - rewrite Z.gtb_ltb. destruct (Z.ltb_spec bv x), (Z.ltb_spec (- x) (- bv)); lia || reflexivity.
Qed.

Lemma np_argmax_opp (l : list Z) : np_argmax l = np_argmin (map Z.opp l).
Proof. destruct l; simpl; [reflexivity|]. f_equal. apply arg_from_gtb_opp. Qed.

(** [np.argmax] returns the first index of the greatest value. *)
Lemma np_argmax_spec (l : list Z) (i : nat) :
  np_argmax l = Ok i ->
  exists v, l !! i = Some v /\ Forall (fun w => w <= v) l
            /\ forall j w, (j < i)%nat -> l !! j = Some w -> w < v.
Proof.
  rewrite np_argmax_opp. intros H.
  destruct (np_argmin_spec _ _ H) as (v & Hi & Hall & Hfirst).
  rewrite list_lookup_fmap in Hi.
  destruct (l !! i) as [u|] eqn:Hu; [|discriminate]. injection Hi as <-.
  exists u. repeat split.
  - rewrite Forall_fmap in Hall. eapply Forall_impl; [exact Hall|].
    intros w Hw; simpl in Hw. lia.
  - intros j w Hj Hw. specialize (Hfirst j (- w) Hj).
    rewrite list_lookup_fmap, Hw in Hfirst. specialize (Hfirst eq_refl). lia.
Qed.

Lemma np_argmin_ok (l : list Z) : l <> [] -> exists i, np_argmin l = Ok i.
Proof. destruct l; [congruence | intros _; eexists; reflexivity]. Qed.

Lemma np_argmax_ok (l : list Z) : l <> [] -> exists i, np_argmax l = Ok i.
Proof. destruct l; [congruence | intros _; eexists; reflexivity]. Qed.

Lemma array_equal_eq (p q : Point) : array_equal p q = true <-> p = q.
Proof.
  destruct p as [a b], q as [c d]; unfold array_equal; simpl.
  rewrite andb_true_iff, !Z.eqb_eq. split; [intros [-> ->]; reflexivity | intros [= -> ->]; auto].
Qed.

Lemma delete_first_equal_head (t : Point) (a : list Point) :
  delete_first_equal t (t :: a) = Some a.
Proof. simpl. rewrite (proj2 (array_equal_eq t t) eq_refl). reflexivity. Qed.

(** A successful scan removes one occurrence of its target. *)
Lemma delete_first_equal_perm (t : Point) (a r : list Point) :
  delete_first_equal t a = Some r -> a ≡ₚ t :: r.
Proof.
  revert r. induction a as [|p a IH]; intros r; simpl; [discriminate|].
  destruct (array_equal p t) eqn:E.
  - apply array_equal_eq in E as ->. intros [= ->]. reflexivity.
  - destruct (delete_first_equal t a) as [r'|]; [|discriminate].
    intros [= <-]. rewrite (IH r' eq_refl). apply Permutation_swap.
Qed.

(** The scan succeeds on a target that occurs. *)
Lemma delete_first_equal_elem (t : Point) (a : list Point) :
  t ∈ a -> exists r, delete_first_equal t a = Some r.
Proof.
  induction a as [|p a IH]; intros Hin; [inversion Hin|]. simpl.
  destruct (array_equal p t) eqn:E; [eauto|].
  apply elem_of_cons in Hin as [-> | Hin].
  - rewrite (proj2 (array_equal_eq p p) eq_refl) in E. discriminate.
  - destruct (IH Hin) as [r ->]. eauto.
Qed.

Lemma delete_first_equal_none (t : Point) (a : list Point) :
  delete_first_equal t a = None -> t ∉ a.
Proof.
  intros H Hin. destruct (delete_first_equal_elem t a Hin) as [r Hr]. congruence.
Qed.

Lemma row_lookup {A} (a : list A) (i : nat) (x : A) : a !! i = Some x -> row a i = Ok x.
Proof. unfold row. intros ->. reflexivity. Qed.

(** The row picked by argmin of the sums. *)
Lemma argmin_sum_row (pts : list Point) (i : nat) :
  np_argmin (map psum pts) = Ok i ->
  exists p, pts !! i = Some p /\ (forall q, q ∈ pts -> psum p <= psum q)
            /\ forall j q, (j < i)%nat -> pts !! j = Some q -> psum p < psum q.
Proof.
  intros H. destruct (np_argmin_spec _ _ H) as (v & Hi & Hall & Hfirst).
  rewrite list_lookup_fmap in Hi.
  destruct (pts !! i) as [p|]; [|discriminate]. injection Hi as <-.
  exists p. split; [reflexivity|]. split.
  - intros q Hq. rewrite Forall_fmap, Forall_forall in Hall. apply (Hall q Hq).
  - intros j q Hj Hq. apply (Hfirst j); [assumption|].
    rewrite list_lookup_fmap, Hq. reflexivity.
Qed.

Lemma argmax_sum_row (pts : list Point) (i : nat) :
  np_argmax (map psum pts) = Ok i ->
  exists p, pts !! i = Some p /\ (forall q, q ∈ pts -> psum q <= psum p)
            /\ forall j q, (j < i)%nat -> pts !! j = Some q -> psum q < psum p.
Proof.
  intros H. destruct (np_argmax_spec _ _ H) as (v & Hi & Hall & Hfirst).
  rewrite list_lookup_fmap in Hi.
  destruct (pts !! i) as [p|]; [|discriminate]. injection Hi as <-.
  exists p. split; [reflexivity|]. split.
  - intros q Hq. rewrite Forall_fmap, Forall_forall in Hall. apply (Hall q Hq).
  - intros j q Hj Hq. apply (Hfirst j); [assumption|].
    rewrite list_lookup_fmap, Hq. reflexivity.
Qed.

(** C1 (amended). However the four points are ordered in the contour,
    when one of them has the least [x + y], another the greatest, and the
    two others differ in [y - x], the point of least [x + y] is assigned
    top-left, the point of greatest [x + y] bottom-right, and of the two
    others the one with the smaller [y - x], that is the greater [x - y],
    is assigned top-right and the other one bottom-left. *)
Theorem classify_corners_roles (pts : list Point) (tl tr br bl : Point) :
  pts ≡ₚ [tl; tr; br; bl] ->
  Forall pixel pts ->
  psum tl < psum tr -> psum tl < psum bl ->
  psum tr < psum br -> psum bl < psum br ->
  pdiff tr < pdiff bl ->
  classify_corners pts = Ok (tl, tr, br, bl).
Proof.
  intros Hperm Hpix H1 H2 H3 H4 H5.
  assert (Hmem : forall q, q ∈ pts <-> q = tl \/ q = tr \/ q = br \/ q = bl).
  { intros q. rewrite Hperm. rewrite !elem_of_cons, elem_of_nil. tauto. }
  assert (Hne : map psum pts <> []).
  { intros E. apply (f_equal length) in E. rewrite length_map, Hperm in E. discriminate. }
  unfold classify_corners. rewrite (np_sum_pixel pts Hpix).
  destruct (np_argmin_ok _ Hne) as [imin Himin]. rewrite Himin. simpl.
  destruct (argmin_sum_row _ _ Himin) as (p & Hp & Hpmin & _).
  assert (p = tl) as ->.
  { assert (Hin : p ∈ pts) by (eapply list_elem_of_lookup_2; eauto).
    pose proof (Hpmin tl (proj2 (Hmem tl) (or_introl eq_refl))).
    apply Hmem in Hin as [-> | [-> | [-> | ->]]]; [reflexivity | lia ..]. }
  rewrite (row_lookup _ _ _ Hp). simpl.
  destruct (np_argmax_ok _ Hne) as [imax Himax]. rewrite Himax. simpl.
  destruct (argmax_sum_row _ _ Himax) as (q & Hq & Hqmax & _).
  assert (q = br) as ->.
  { assert (Hin : q ∈ pts) by (eapply list_elem_of_lookup_2; eauto).
    pose proof (Hqmax br (proj2 (Hmem br) (or_intror (or_intror (or_introl eq_refl))))).
    apply Hmem in Hin as [-> | [-> | [-> | ->]]]; [lia | lia | reflexivity | lia]. }
  rewrite (row_lookup _ _ _ Hq). simpl.
  destruct (delete_first_equal_elem tl pts) as [temp Htemp].
  { apply Hmem. auto. }
  rewrite Htemp.
  assert (Ht : temp ≡ₚ [tr; br; bl]).
  { apply (Permutation_cons_inv (a := tl)).
    rewrite <- (delete_first_equal_perm _ _ _ Htemp). exact Hperm. }
  destruct (delete_first_equal_elem br temp) as [reduced Hred].
  { rewrite Ht. rewrite !elem_of_cons. auto. }
  rewrite Hred.
  assert (Hr : reduced ≡ₚ [tr; bl]).
  { apply (Permutation_cons_inv (a := br)).
    rewrite <- (delete_first_equal_perm _ _ _ Hred), Ht. apply Permutation_swap. }
  assert (Hrpix : Forall pixel reduced).
  { rewrite Hr. rewrite Forall_forall in Hpix.
    repeat constructor; apply Hpix, Hmem; auto. }
  rewrite (np_diff_pixel _ Hrpix).
  symmetry in Hr. apply Permutation_length_2_inv in Hr as [-> | ->]; simpl.
  - destruct (Z.ltb_spec (pdiff bl) (pdiff tr)); [lia|].
    rewrite Z.gtb_ltb. destruct (Z.ltb_spec (pdiff tr) (pdiff bl)); [reflexivity | lia].
  - destruct (Z.ltb_spec (pdiff tr) (pdiff bl)); [|lia].
    rewrite Z.gtb_ltb. destruct (Z.ltb_spec (pdiff bl) (pdiff tr)); [lia | reflexivity].
Qed.

(** On four int32 points that are not all of one coordinate sum with the
    first point occurring once, the classification assigns all four
    roles. Top-left is the first point of least [x + y] and bottom-right
    the first point of greatest [x + y]; the two rows [r1], [r2] that the
    two scans leave, in array order, give top-right and bottom-left by
    the first-occurrence rule on the int32 difference [y - x]. *)
Lemma classify_corners_order (pts : list Point) :
  length pts = 4%nat -> Forall int32 pts -> ~ stuck pts ->
  exists tl tr br bl,
    classify_corners pts = Ok (tl, tr, br, bl)
    /\ (exists i, pts !! i = Some tl
          /\ (forall q, q ∈ pts -> psum tl <= psum q)
          /\ forall j q, (j < i)%nat -> pts !! j = Some q -> psum tl < psum q)
    /\ (exists i, pts !! i = Some br
          /\ (forall q, q ∈ pts -> psum q <= psum br)
          /\ forall j q, (j < i)%nat -> pts !! j = Some q -> psum q < psum br)
    /\ exists temp r1 r2,
          delete_first_equal tl pts = Some temp
          /\ delete_first_equal br temp = Some [r1; r2]
          /\ pts ≡ₚ [tl; br; r1; r2]
          /\ tr = pick_top_right r1 r2 /\ bl = pick_bottom_left r1 r2.
Proof.
  intros Hlen H32 Hns.
  assert (Hne : map psum pts <> []).
  { intros E. apply (f_equal length) in E. rewrite length_map, Hlen in E. discriminate. }
  unfold classify_corners. rewrite (np_sum_int32 pts H32).
  destruct (np_argmin_ok _ Hne) as [imin Himin]. rewrite Himin. simpl.
  destruct (argmin_sum_row _ _ Himin) as (p & Hp & Hpmin & Hpfirst).
  rewrite (row_lookup _ _ _ Hp). simpl.
  destruct (np_argmax_ok _ Hne) as [imax Himax]. rewrite Himax. simpl.
  destruct (argmax_sum_row _ _ Himax) as (q & Hq & Hqmax & Hqfirst).
  rewrite (row_lookup _ _ _ Hq). simpl.
  assert (Hpin : p ∈ pts) by (eapply list_elem_of_lookup_2; eauto).
  assert (Hqin : q ∈ pts) by (eapply list_elem_of_lookup_2; eauto).
  destruct (delete_first_equal_elem p pts Hpin) as [temp Htemp]. rewrite Htemp.
  pose proof (delete_first_equal_perm _ _ _ Htemp) as Hperm1.
  assert (Hqt : q ∈ temp).
  { destruct (decide (q = p)) as [-> | Hqp].
    - (* the extremes coincide: every sum is the same and the first row was taken *)
      assert (Hsame : forall x, x ∈ pts -> psum x = psum p).
      { intros x Hx. pose proof (Hpmin x Hx). pose proof (Hqmax x Hx). lia. }
      destruct pts as [|p0 others]; [discriminate|].
      assert (imin = 0%nat) as ->.
      { destruct imin as [|j]; [reflexivity|].
        pose proof (Hpfirst 0%nat p0 ltac:(lia) eq_refl).
        pose proof (Hsame p0 ltac:(left)). lia. }
      injection Hp as ->. rewrite delete_first_equal_head in Htemp.
      injection Htemp as <-.
      destruct (decide (p ∈ others)) as [Hin | Hout]; [assumption|].
      exfalso. apply Hns. split; [|assumption].
      apply Forall_forall. intros x Hx. apply Hsame. right. assumption.
    - rewrite Hperm1 in Hqin. apply elem_of_cons in Hqin as [? | ?]; [contradiction | assumption]. }
  destruct (delete_first_equal_elem q temp Hqt) as [reduced Hred]. rewrite Hred.
  pose proof (delete_first_equal_perm _ _ _ Hred) as Hperm2.
  assert (Hl : length reduced = 2%nat).
  { apply Permutation_length in Hperm1, Hperm2. simpl in *. lia. }
  destruct reduced as [|r1 [|r2 [|? ?]]]; try discriminate.
  exists p, (pick_top_right r1 r2), q, (pick_bottom_left r1 r2).
  split.
  - unfold pick_top_right, pick_bottom_left, pdiff. simpl.
    destruct (_ <? _); destruct (_ >? _); reflexivity.
  - split; [eauto|]. split; [eauto|]. exists temp, r1, r2.
    split; [exact Htemp|]. split; [exact Hred|]. split; [|split; reflexivity].
    rewrite Hperm1, Hperm2. reflexivity.
Qed.

(** The classification raises on exactly the inputs excluded above. *)
Lemma classify_corners_stuck (pts : list Point) :
  length pts = 4%nat -> Forall int32 pts -> stuck pts ->
  classify_corners pts = Raise ValueError.
Proof.
  intros Hlen H32 Hst.
  destruct pts as [|p0 others]; [contradiction|]. destruct Hst as [Hsame Hout].
  unfold classify_corners. rewrite (np_sum_int32 _ H32).
  assert (Hmin : np_argmin (map psum (p0 :: others)) = Ok 0%nat).
  { simpl. f_equal.
    destruct (arg_from_min (map psum others) 0 (psum p0) 1)
      as [[-> _] | (k & v & _ & Hk & Hv & _)]; [reflexivity|].
    rewrite list_lookup_fmap in Hk. destruct (others !! k) as [x|] eqn:Hx; [|discriminate].
    injection Hk as <-. rewrite Forall_forall in Hsame.
    pose proof (Hsame x (list_elem_of_lookup_2 _ _ _ Hx)). lia. }
  assert (Hmax : np_argmax (map psum (p0 :: others)) = Ok 0%nat).
  { rewrite np_argmax_opp. simpl. f_equal.
    destruct (arg_from_min (map Z.opp (map psum others)) 0 (- psum p0) 1)
      as [[-> _] | (k & v & _ & Hk & Hv & _)]; [reflexivity|].
    rewrite !list_lookup_fmap in Hk. destruct (others !! k) as [x|] eqn:Hx; [|discriminate].
    injection Hk as <-. rewrite Forall_forall in Hsame.
    pose proof (Hsame x (list_elem_of_lookup_2 _ _ _ Hx)). lia. }
  rewrite Hmin, Hmax. simpl. rewrite (proj2 (array_equal_eq p0 p0) eq_refl).
  destruct (delete_first_equal p0 others) as [r|] eqn:E; [|reflexivity].
  exfalso. apply Hout. rewrite (delete_first_equal_perm _ _ _ E). left.
Qed.

(** ** Order of binary64 numbers and the ranking *)

(** On numbers, the comparison of [SpecFloat] is the lexicographic
    comparison of the triples of [ord]. *)
Lemma SFcompare_lex (x y : float) :
  F64.is_nan x = false -> F64.is_nan y = false ->
  SFcompare x y = Some (lex (ord x) (ord y)).
Proof.
  destruct x as [sx | sx | | sx mx ex], y as [sy | sy | | sy my ey];
    try discriminate; intros _ _;
    try (destruct sx; reflexivity); try (destruct sy; reflexivity);
    try (destruct sx, sy; reflexivity).
  destruct sx, sy; try reflexivity. unfold lex; cbn -[Z.compare Z.opp].
  rewrite Z.compare_opp, (Z.compare_antisym ex ey).
  destruct (ex ?= ey); reflexivity.
Qed.

Lemma lex_lt (a b : Z * Z * Z) :
  lex a b = Lt <->
  fst (fst a) < fst (fst b)
  \/ (fst (fst a) = fst (fst b)
      /\ (snd (fst a) < snd (fst b) \/ (snd (fst a) = snd (fst b) /\ snd a < snd b))).
Proof.
  destruct a as [[a1 a2] a3], b as [[b1 b2] b3]; unfold lex; simpl.
  destruct (Z.compare_spec a1 b1); [destruct (Z.compare_spec a2 b2);
    [destruct (Z.compare_spec a3 b3)| |] | |];
    split; intros HH; try discriminate; try reflexivity; lia.
Qed.

Lemma ltb_lex (x y : float) :
  F64.is_nan x = false -> F64.is_nan y = false ->
  F64.ltb x y = true <-> lex (ord x) (ord y) = Lt.
Proof.
  intros Hx Hy. unfold F64.ltb, SFltb. rewrite (SFcompare_lex x y Hx Hy).
  destruct (lex _ _); split; congruence.
Qed.

Lemma leb_lex (x y : float) :
  F64.is_nan x = false -> F64.is_nan y = false ->
  F64.leb x y = true <-> lex (ord y) (ord x) <> Lt.
Proof.
  intros Hx Hy. unfold F64.leb, SFleb. rewrite (SFcompare_lex x y Hx Hy).
  destruct (lex (ord x) (ord y)) eqn:E.
  - split; [|reflexivity]. intros _ H. apply lex_lt in H.
    assert (E' : lex (ord x) (ord y) <> Lt) by congruence.
    destruct (ord x) as [[a1 a2] a3], (ord y) as [[b1 b2] b3]; unfold lex in E; simpl in *.
    destruct (Z.compare_spec a1 b1); try discriminate.
    destruct (Z.compare_spec a2 b2); try discriminate.
    destruct (Z.compare_spec a3 b3); try discriminate. lia.
  - split; [|reflexivity]. intros _ H. apply lex_lt in H. apply lex_lt in E. lia.
  - split; [discriminate|]. intros H. exfalso. apply H. apply lex_lt.
    destruct (ord x) as [[a1 a2] a3], (ord y) as [[b1 b2] b3]; unfold lex in E; simpl in *.
    destruct (Z.compare_spec a1 b1); try discriminate; try lia.
    destruct (Z.compare_spec a2 b2); try discriminate; try lia.
    destruct (Z.compare_spec a3 b3); try discriminate; lia.
Qed.

(** On numbers, [x < y] fails exactly when [y <= x] holds. *)
Lemma ltb_negb_leb (x y : float) :
  F64.is_nan x = false -> F64.is_nan y = false ->
  F64.ltb x y = negb (F64.leb y x).
Proof.
  intros Hx Hy.
  pose proof (ltb_lex x y Hx Hy) as Hlt. pose proof (leb_lex y x Hy Hx) as Hle.
  destruct (F64.ltb x y), (F64.leb y x); simpl; try reflexivity.
  - exfalso. apply (proj1 Hle eq_refl). apply Hlt. reflexivity.
  - destruct (lex (ord x) (ord y)) eqn:E.
    + assert (false = true) by (apply Hle; discriminate). discriminate.
    + assert (false = true) by (apply Hlt; reflexivity). discriminate.
    + assert (false = true) by (apply Hle; discriminate). discriminate.
Qed.

(** [<] on numbers is asymmetric, and its complement is transitive. *)
Lemma ltb_asym (x y : float) :
  F64.is_nan x = false -> F64.is_nan y = false ->
  F64.ltb x y = true -> F64.ltb y x = false.
Proof.
  intros Hx Hy H. apply (ltb_lex x y Hx Hy), lex_lt in H.
  destruct (F64.ltb y x) eqn:E; [|reflexivity].
  apply (ltb_lex y x Hy Hx), lex_lt in E. lia.
Qed.

Lemma not_ltb_trans (x y z : float) :
  F64.is_nan x = false -> F64.is_nan y = false -> F64.is_nan z = false ->
  F64.ltb x y = false -> F64.ltb y z = false -> F64.ltb x z = false.
Proof.
  intros Hx Hy Hz H1 H2.
  destruct (F64.ltb x z) eqn:E; [|reflexivity].
  apply (ltb_lex x z Hx Hz), lex_lt in E.
  assert (N1 : ~ lex (ord x) (ord y) = Lt).
  { intros C. apply (ltb_lex x y Hx Hy) in C. congruence. }
  assert (N2 : ~ lex (ord y) (ord z) = Lt).
  { intros C. apply (ltb_lex y z Hy Hz) in C. congruence. }
  rewrite lex_lt in N1, N2. lia.
Qed.

(** *** The ranking *)

Lemma insert_desc_perm {A} (key : A -> float) (x : A) (l : list A) :
  insert_desc key x l ≡ₚ x :: l.
Proof.
  induction l as [|y l IH]; simpl; [reflexivity|].
  destruct (F64.ltb (key x) (key y)); [|reflexivity].
  rewrite IH. apply Permutation_swap.
Qed.

Lemma sorted_reverse_perm {A} (key : A -> float) (l : list A) :
  sorted_reverse key l ≡ₚ l.
Proof.
  induction l as [|x l IH]; simpl; [reflexivity|].
  unfold sorted_reverse in *. simpl. rewrite insert_desc_perm, IH. reflexivity.
Qed.

(** Insertion keeps a list of numbers in descending order. *)
Lemma insert_desc_descending {A} (key : A -> float) (x : A) (l : list A) :
  F64.is_nan (key x) = false ->
  Forall (fun a => F64.is_nan (key a) = false) l ->
  descending key l -> descending key (insert_desc key x l).
Proof.
  intros Hx Hl Hs. induction Hs as [|y l Hs IH Hy]; simpl.
  - repeat constructor.
  - apply Forall_cons in Hl as [Hyn Hl].
    destruct (F64.ltb (key x) (key y)) eqn:E.
    + constructor; [apply IH; assumption|].
      rewrite insert_desc_perm. constructor; [|assumption].
      apply ltb_asym; assumption.
    + constructor; [constructor; assumption|].
      constructor; [assumption|].
      rewrite Forall_forall in Hy, Hl. apply Forall_forall. intros z Hz.
      apply (not_ltb_trans _ (key y)); auto.
Qed.

Lemma sorted_reverse_descending {A} (key : A -> float) (l : list A) :
  Forall (fun a => F64.is_nan (key a) = false) l ->
  descending key (sorted_reverse key l).
Proof.
  induction 1 as [|x l Hx Hl IH]; [constructor|].
  unfold sorted_reverse in *. simpl. apply insert_desc_descending; [assumption | | assumption].
  fold (sorted_reverse key l). rewrite sorted_reverse_perm. assumption.
Qed.

(** ** The detector, statement by statement *)

Lemma py_int_resize_value : py_int image_resize_value = Ok 300.
Proof. reflexivity. Qed.

Lemma fixed_width : py_int (F64.mul f_1_8 (F64.of_Z 800)) = Ok 1440.
Proof. vm_compute. reflexivity. Qed.

Lemma regions_1440 : regions 1440 = Ok ([0; 720], [721; 1440]).
Proof. vm_compute. reflexivity. Qed.

Section DetectFacts.
Context {ty : ImageTypes} {cv : ImagePrimitives}.

Lemma rectification_size (ratio : float) (c : Contour) (m : Matrix) (w h : Z) :
  rectification ratio c = Ok (m, w, h) -> w = 1440 /\ h = 800.
Proof.
  unfold rectification.
  destruct (reshape_4_2 c) as [pts|]; [|discriminate]. cbn [rbind].
  destruct (classify_corners pts) as [[[[tl tr] br] bl]|]; [|discriminate]. cbn [rbind].
  destruct (max_int _ _); [|discriminate]. cbn [rbind].
  destruct (max_int _ _); [|discriminate]. cbn [rbind].
  rewrite fixed_width. cbn [rbind]. intros [= _ <- <-]. split; reflexivity.
Qed.

(** *** Running the world monad *)

Lemma bind_ret {A B} (a : A) (k : A -> M B) (w : World) :
  bind (ret a) k w = k a w.
Proof. reflexivity. Qed.

Lemma bind_assoc {A B C} (c : M A) (f : A -> M B) (k : B -> M C) (w : World) :
  bind (bind c f) k w = bind c (fun x => bind (f x) k) w.
Proof. unfold bind. destruct (c w) as [[a w']|e]; reflexivity. Qed.

Lemma bind_read {B} (l : loc) (p : Pixels) (k : Pixels -> M B) (w : World) :
  heap w !! l = Some p -> bind (read l) k w = k p w.
Proof. intros H. unfold bind, read. rewrite H. reflexivity. Qed.

Lemma bind_alloc {B} (p : Pixels) (k : loc -> M B) (w : World) :
  bind (alloc p) k w = k (length (heap w)) (mkWorld (heap w ++ [p]) (screen w)).
Proof. reflexivity. Qed.

Lemma bind_write {B} (l : loc) (p : Pixels) (k : unit -> M B) (w : World) :
  bind (write l p) k w = k tt (mkWorld (<[l := p]> (heap w)) (screen w)).
Proof. reflexivity. Qed.

Lemma bind_emit {B} (e : Event) (k : unit -> M B) (w : World) :
  bind (emit e) k w = k tt (mkWorld (heap w) (screen w ++ [e])).
Proof. reflexivity. Qed.

Lemma bind_lift_ok {A B} (r : result A) (a : A) (k : A -> M B) (w : World) :
  r = Ok a -> bind (lift r) k w = k a w.
Proof. intros ->. reflexivity. Qed.

Lemma bind_lift_raise {A B} (r : result A) (e : exn) (k : A -> M B) (w : World) :
  r = Raise e -> bind (lift r) k w = Raise e.
Proof. intros ->. reflexivity. Qed.

Lemma heap_old (h ext : list Pixels) (q : Pixels) (l : loc) :
  h !! l = Some q -> (h ++ ext) !! l = Some q.
Proof. apply lookup_app_l_Some. Qed.

Lemma heap_new (h ext : list Pixels) (k : nat) :
  (h ++ ext) !! (length h + k)%nat = ext !! k.
Proof. rewrite lookup_app_r by lia. f_equal. lia. Qed.

(** [detect] on an image array, statement by statement. *)
Lemma detect_unfold (w : World) (l : loc) (img : Pixels) :
  heap w !! l = Some img ->
  detect (Some l) w =
    let ratio := F64.div (F64.of_Z (fst (shape img))) image_resize_value in
    let work := imutils_resize img 300 in
    let contours := ranked_contours work in
    match find_surface_cnt contours 0 with
    | None => Ok (None, mkWorld (heap w ++ [img; work]) (screen w))
    | Some (contour_idx, surface_cnt) =>
        match rectification ratio surface_cnt with
        | Raise e => Raise e
        | Ok (persp_mtx, width, height) =>
            let drawn := drawContours work contours contour_idx (255, 180, 0) 2 in
            let w' := mkWorld (heap w ++ [img; drawn;
                                 warpPerspective img persp_mtx (width, height)])
                              (screen w) in
            let relative_size :=
              F64.div (contourArea surface_cnt)
                      (F64.of_Z (fst (shape img) * snd (shape img))) in
            if F64.ltb relative_size cutoff then Ok (None, w')
            else
              match regions width with
              | Raise e => Raise e
              | Ok r =>
                  Ok (Some {| name := "primary";
                              transform := (length (heap w) + 2)%nat;
                              contour := surface_cnt;
                              img_cnt := (length (heap w) + 1)%nat;
                              area := contourArea surface_cnt;
                              area_relative := relative_size;
                              perspective_matrix := persp_mtx;
                              width := width;
                              height := height;
                              dealer_region := fst r;
                              player_region := snd r |}, w')
              end
        end
    end.
Proof.
  intros Hl. destruct w as [h scr]. simpl in Hl.
  unfold detect, deepcopy, resize, draw_contours.
  cbn [deref]. rewrite bind_ret.
  rewrite (bind_read l img) by exact Hl.
  rewrite bind_assoc, (bind_read l img) by exact Hl. rewrite bind_alloc.
  rewrite (bind_lift_ok _ 300) by reflexivity.
  cbn [heap screen].
  rewrite bind_assoc, (bind_read l img) by (apply heap_old; exact Hl).
  rewrite bind_alloc. cbn [heap screen].
  rewrite length_app, <- app_assoc. cbn [length app].
  rewrite (bind_read _ (imutils_resize img 300)) by (cbn [heap]; rewrite heap_new; reflexivity).
  destruct (find_surface_cnt _ 0) as [[contour_idx surface_cnt]|]; [|reflexivity].
  rewrite bind_assoc.
  rewrite (bind_read _ (imutils_resize img 300)) by (cbn [heap]; rewrite heap_new; reflexivity).
  rewrite bind_write. cbn [heap screen].
  rewrite insert_app_r. cbn [insert list_insert].
  destruct (rectification _ surface_cnt) as [[[persp_mtx width] height]|e] eqn:Hplan;
    [|rewrite (bind_lift_raise _ e) by reflexivity; reflexivity].
  rewrite (bind_lift_ok _ _ _ _ eq_refl).
  rewrite (bind_read _ img) by (cbn [heap]; rewrite <- (Nat.add_0_r (length h)), heap_new; reflexivity).
  rewrite bind_alloc. cbn [heap screen].
  rewrite length_app, <- app_assoc. cbn [length app].
  destruct (F64.ltb _ cutoff); [reflexivity|].
  destruct (regions width) as [r|e] eqn:Hr;
    [rewrite (bind_lift_ok _ _ _ _ eq_refl) | rewrite (bind_lift_raise _ e) by reflexivity];
    reflexivity.
Qed.

(** Every way in which [detect] returns, with the world it leaves. *)
Lemma detect_returns (w w' : World) (l : loc) (img : Pixels)
    (r : option PlayingSurface) :
  heap w !! l = Some img ->
  detect (Some l) w = Ok (r, w') ->
  let ratio := F64.div (F64.of_Z (fst (shape img))) image_resize_value in
  let work := imutils_resize img 300 in
  let contours := ranked_contours work in
  let relative_size c :=
    F64.div (contourArea c) (F64.of_Z (fst (shape img) * snd (shape img))) in
  (find_surface_cnt contours 0 = None /\ r = None
   /\ w' = mkWorld (heap w ++ [img; work]) (screen w))
  \/ (exists idx c m wd ht,
        find_surface_cnt contours 0 = Some (idx, c)
        /\ rectification ratio c = Ok (m, wd, ht)
        /\ w' = mkWorld (heap w ++ [img; drawContours work contours idx (255, 180, 0) 2;
                                    warpPerspective img m (wd, ht)]) (screen w)
        /\ ((F64.ltb (relative_size c) cutoff = true /\ r = None)
            \/ (F64.ltb (relative_size c) cutoff = false
                /\ exists rg, regions wd = Ok rg
                   /\ r = Some {| name := "primary";
                                  transform := (length (heap w) + 2)%nat;
                                  contour := c;
                                  img_cnt := (length (heap w) + 1)%nat;
                                  area := contourArea c;
                                  area_relative := relative_size c;
                                  perspective_matrix := m;
                                  width := wd;
                                  height := ht;
                                  dealer_region := fst rg;
                                  player_region := snd rg |}))).
Proof.
  intros Hl. rewrite (detect_unfold w l img Hl). cbv zeta.
  destruct (find_surface_cnt _ 0) as [[idx c]|] eqn:Hfind.
  - destruct (rectification _ c) as [[[m wd] ht]|e] eqn:Hplan; [|discriminate].
    destruct (F64.ltb _ cutoff) eqn:Hcut.
    + intros [= <- <-]. right. exists idx, c, m, wd, ht. repeat split; try reflexivity; try assumption.
      left. split; [assumption | reflexivity].
    + destruct (regions wd) as [rg|e] eqn:Hrg; [|discriminate].
      intros [= <- <-]. right. exists idx, c, m, wd, ht.
      repeat split; try reflexivity; try assumption.
      right. split; [assumption|]. exists rg. split; [assumption | reflexivity].
  - intros [= <- <-]. left. repeat split; reflexivity.
Qed.

(** What a returning [detect] does to the world: it adds a copy of the
    frame, the working copy and possibly the rectified image, and changes
    nothing else. *)
Lemma detect_extends (w w' : World) (l : loc) (img : Pixels)
    (r : option PlayingSurface) :
  heap w !! l = Some img ->
  detect (Some l) w = Ok (r, w') ->
  exists working rest,
    heap w' = heap w ++ img :: working :: rest
    /\ screen w' = screen w
    /\ (working = imutils_resize img 300
        \/ exists contours idx,
             working = drawContours (imutils_resize img 300) contours idx (255, 180, 0) 2)
    /\ (rest = [] \/ exists m dsize, rest = [warpPerspective img m dsize]).
Proof.
  intros Hl Hrun.
  destruct (detect_returns w w' l img r Hl Hrun)
    as [(_ & _ & ->) | (idx & c & m & wd & ht & _ & _ & -> & _)]; simpl.
  - exists (imutils_resize img 300), []. auto.
  - eexists _, [_]. repeat split; [right | right]; eauto.
Qed.

(** *** The candidate loop *)

Lemma find_surface_cnt_first (contours : list Contour) (i : nat) (c : Contour) :
  forall k : Z,
  contours !! i = Some c ->
  length (approximate c) = 4%nat ->
  (forall j c', (j < i)%nat -> contours !! j = Some c' ->
                length (approximate c') <> 4%nat) ->
  find_surface_cnt contours k = Some (k + Z.of_nat i, approximate c).
Proof.
  revert i. induction contours as [|c0 rest IH]; intros i k Hi H4 Hbefore.
  - discriminate.
  - destruct i as [|i]; simpl in Hi |- *.
    + injection Hi as ->. rewrite H4. simpl. do 2 f_equal. lia.
    + destruct (Nat.eqb_spec (length (approximate c0)) 4) as [E | _].
      * exfalso. apply (Hbefore 0%nat c0); [lia | reflexivity | exact E].
      * rewrite (IH i (k + 1) Hi H4).
        -- do 2 f_equal. lia.
        -- intros j c' Hj Hc'. apply (Hbefore (S j) c'); [lia | exact Hc'].
Qed.

Lemma find_surface_cnt_none (contours : list Contour) :
  forall k : Z,
  (forall c, c ∈ contours -> length (approximate c) <> 4%nat) ->
  find_surface_cnt contours k = None.
Proof.
  induction contours as [|c0 rest IH]; intros k Hall; simpl; [reflexivity|].
  destruct (Nat.eqb_spec (length (approximate c0)) 4) as [E | _].
  - exfalso. apply (Hall c0); [left | exact E].
  - apply IH. intros c Hc. apply Hall. right. exact Hc.
Qed.

Lemma find_surface_cnt_four (contours : list Contour) :
  forall (k idx : Z) (c : Contour),
  find_surface_cnt contours k = Some (idx, c) -> length c = 4%nat.
Proof.
  induction contours as [|c0 rest IH]; intros k idx c; simpl; [discriminate|].
  destruct (Nat.eqb_spec (length (approximate c0)) 4) as [E | _].
  - intros [= _ <-]. exact E.
  - apply IH.
Qed.

Lemma ranked_contours_sorted (work : Pixels) :
  Forall (fun c => F64.is_nan (contourArea c) = false) (edge_contours work) ->
  exists others,
    ranked_contours work ++ others ≡ₚ edge_contours work
    /\ length (ranked_contours work) = Nat.min 5 (length (edge_contours work))
    /\ descending contourArea (ranked_contours work ++ others).
Proof.
  intros Hnum. unfold ranked_contours.
  exists (drop 5 (sorted_reverse contourArea (edge_contours work))).
  rewrite take_drop. split; [apply sorted_reverse_perm|]. split.
  - rewrite length_take, (Permutation_length (sorted_reverse_perm _ _)). reflexivity.
  - apply sorted_reverse_descending. exact Hnum.
Qed.

End DetectFacts.

(** ** Magnitude of binary64 results and the steps after the classification *)

(** *** Magnitude of the results of binary64 operations *)

Lemma digits2_pos_lower (p : positive) : 2 ^ (Z.pos (digits2_pos p) - 1) <= Z.pos p.
Proof.
  induction p as [p IH | p IH |]; cbn [digits2_pos].
  - rewrite Pos2Z.inj_succ. replace (Z.succ (Z.pos (digits2_pos p)) - 1)
      with (Z.succ (Z.pos (digits2_pos p) - 1)) by lia.
    rewrite Z.pow_succ_r by lia. lia.
  - rewrite Pos2Z.inj_succ. replace (Z.succ (Z.pos (digits2_pos p)) - 1)
      with (Z.succ (Z.pos (digits2_pos p) - 1)) by lia.
    rewrite Z.pow_succ_r by lia. lia.
  - reflexivity.
Qed.

Lemma Zdigits2_le (m k : Z) : 0 <= m -> m < 2 ^ k -> 0 <= k -> Zdigits2 m <= k.
Proof.
  intros Hm Hlt Hk. destruct m as [|p|p]; cbn [Zdigits2]; [lia| |lia].
  pose proof (digits2_pos_lower p) as Hlow.
  destruct (Z.le_gt_cases (Z.pos (digits2_pos p)) k) as [H | H]; [exact H|].
  assert (2 ^ k <= 2 ^ (Z.pos (digits2_pos p) - 1)) by (apply Z.pow_le_mono_r; lia).
  lia.
Qed.

Lemma shr_1_half (mrs : shr_record) :
  0 <= shr_m mrs -> 0 <= shr_m (shr_1 mrs) /\ 2 * shr_m (shr_1 mrs) <= shr_m mrs.
Proof.
  destruct mrs as [m r s]. cbn [shr_m]. intros Hm.
  destruct m as [|[p|p|]|p]; cbn [shr_1 shr_m]; lia.
Qed.

Lemma iter_shr_1 (p : positive) :
  forall mrs, 0 <= shr_m mrs ->
  0 <= shr_m (SpecFloat.iter_pos shr_1 p mrs)
  /\ shr_m (SpecFloat.iter_pos shr_1 p mrs) * 2 ^ Z.pos p <= shr_m mrs.
Proof.
  induction p as [p IH | p IH |]; intros mrs Hm; cbn [SpecFloat.iter_pos].
  - destruct (shr_1_half mrs Hm) as [H0 H1].
    destruct (IH _ H0) as [H2 H3]. destruct (IH _ H2) as [H4 H5].
    split; [exact H4|].
    rewrite (Pos2Z.inj_xI p), Z.pow_add_r, Z.pow_mul_r, Z.pow_1_r by lia.
    assert (Hp : 0 < 2 ^ Z.pos p) by (apply Z.pow_pos_nonneg; lia).
    replace ((2 ^ 2) ^ Z.pos p) with (2 ^ Z.pos p * 2 ^ Z.pos p)
      by (rewrite <- Z.pow_mul_l; reflexivity).
    nia.
  - destruct (IH _ Hm) as [H2 H3]. destruct (IH _ H2) as [H4 H5].
    split; [exact H4|].
    rewrite (Pos2Z.inj_xO p), Z.pow_mul_r by lia.
    assert (Hp : 0 < 2 ^ Z.pos p) by (apply Z.pow_pos_nonneg; lia).
    replace ((2 ^ 2) ^ Z.pos p) with (2 ^ Z.pos p * 2 ^ Z.pos p)
      by (rewrite <- Z.pow_mul_l; reflexivity).
    nia.
  - destruct (shr_1_half mrs Hm) as [H0 H1]. split; [exact H0|].
    change (2 ^ 1) with 2. lia.
Qed.

Lemma shr_record_of_loc_m (m : Z) (l : location) : shr_m (shr_record_of_loc m l) = m.
Proof. destruct l as [|[| |]]; reflexivity. Qed.

Lemma shr_fexp_bound (m e K : Z) (l : location) :
  0 <= m -> e <= K -> m < 2 ^ (K - e) -> 0 <= K ->
  0 <= shr_m (fst (shr_fexp F64.prec F64.emax m e l))
  /\ snd (shr_fexp F64.prec F64.emax m e l) <= K
  /\ shr_m (fst (shr_fexp F64.prec F64.emax m e l))
     < 2 ^ (K - snd (shr_fexp F64.prec F64.emax m e l)).
Proof.
  intros Hm He Hlt HK. unfold shr_fexp, shr.
  pose proof (Zdigits2_le m (K - e) Hm Hlt ltac:(lia)) as Hd.
  assert (Hf : fexp F64.prec F64.emax (Zdigits2 m + e) <= K).
  { unfold fexp, emin, F64.prec, F64.emax. lia. }
  destruct (fexp F64.prec F64.emax (Zdigits2 m + e) - e) as [|n|n] eqn:Hn;
    cbn [fst snd]; rewrite ?shr_record_of_loc_m; try (split; [lia | split; [lia | exact Hlt]]).
  destruct (iter_shr_1 n (shr_record_of_loc m l)) as [H0 H1];
    [rewrite shr_record_of_loc_m; exact Hm|].
  rewrite shr_record_of_loc_m in H1.
  split; [exact H0|]. split; [lia|].
  assert (Hp : 0 < 2 ^ Z.pos n) by (apply Z.pow_pos_nonneg; lia).
  assert (Hsplit : 2 ^ (K - e) = 2 ^ (K - (e + Z.pos n)) * 2 ^ Z.pos n).
  { rewrite <- Z.pow_add_r by lia. f_equal. lia. }
  nia.
Qed.

Lemma round_nearest_even_bound (m : Z) (l : location) :
  m <= round_nearest_even m l <= m + 1.
Proof.
  unfold round_nearest_even. destruct l as [|[| |]]; try lia.
  destruct (Z.even m); lia.
Qed.

(** Rounding a value below [2 ^ K] gives a zero or a finite number below
    [2 ^ (K + 1)], of the sign asked for. *)
Lemma binary_round_aux_within (s : bool) (m e K : Z) (l : location) :
  0 <= m -> e <= K -> m < 2 ^ (K - e) -> 0 <= K -> K <= 970 ->
  binary_round_aux F64.prec F64.emax s m e l = S754_zero s
  \/ exists m' e',
       binary_round_aux F64.prec F64.emax s m e l = S754_finite s m' e'
       /\ e' <= K + 1 /\ Z.pos m' < 2 ^ (K + 1 - e').
Proof.
  intros Hm He Hlt HK Hmax. unfold binary_round_aux.
  destruct (shr_fexp_bound m e K l Hm He Hlt HK) as (H0 & H1 & H2).
  destruct (shr_fexp F64.prec F64.emax m e l) as [mrs' e'] eqn:E1. cbn [fst snd] in *.
  pose proof (round_nearest_even_bound (shr_m mrs') (loc_of_shr_record mrs')) as Hr.
  set (r := round_nearest_even (shr_m mrs') (loc_of_shr_record mrs')) in *.
  assert (Hr2 : r < 2 ^ (K + 1 - e')).
  { replace (K + 1 - e') with (Z.succ (K - e')) by lia.
    rewrite Z.pow_succ_r by lia. lia. }
  destruct (shr_fexp_bound r e' (K + 1) loc_Exact ltac:(lia) ltac:(lia) Hr2 ltac:(lia))
    as (H3 & H4 & H5).
  destruct (shr_fexp F64.prec F64.emax r e' loc_Exact) as [mrs'' e''] eqn:E2.
  cbn [fst snd] in *.
  destruct (shr_m mrs'') as [|p|p]; [left; reflexivity | | lia].
  right. exists p, e''.
  assert (Hle : (e'' <=? F64.emax - F64.prec) = true)
    by (apply Z.leb_le; unfold F64.emax, F64.prec; lia).
  rewrite Hle. auto.
Qed.

Lemma within_mono (K K' : Z) (x : float) : K <= K' -> within K x -> within K' x.
Proof.
  destruct x as [| | |s m e]; cbn [within]; try tauto. intros H [He Hm]. split; [lia|].
  eapply Z.lt_le_trans; [exact Hm|]. apply Z.pow_le_mono_r; lia.
Qed.

Lemma round_within (s : bool) (m e K : Z) (l : location) :
  0 <= m -> e <= K -> m < 2 ^ (K - e) -> 0 <= K -> K <= 970 ->
  within (K + 1) (binary_round_aux F64.prec F64.emax s m e l)
  /\ (s = false -> nonneg (binary_round_aux F64.prec F64.emax s m e l)).
Proof.
  intros Hm He Hlt HK Hmax.
  destruct (binary_round_aux_within s m e K l Hm He Hlt HK Hmax)
    as [-> | (m' & e' & -> & H1 & H2)]; cbn [within nonneg].
  - split; [exact I | intros _; exact I].
  - split; [auto | intros ->; exact I].
Qed.

Lemma iter_xO (m d : positive) : Z.pos (Pos.iter xO m d) = Z.pos m * 2 ^ Z.pos d.
Proof.
  induction d as [|d IH] using Pos.peano_ind.
  - cbn [Pos.iter]. rewrite Pos2Z.inj_xO. change (2 ^ 1) with 2. lia.
  - rewrite Pos.iter_succ, Pos2Z.inj_xO, IH, Pos2Z.inj_succ, Z.pow_succ_r by lia. lia.
Qed.

Lemma shl_align_value (m : positive) (e e0 : Z) :
  snd (shl_align m e e0) = Z.min e e0
  /\ Z.pos (fst (shl_align m e e0)) = Z.pos m * 2 ^ (e - Z.min e e0).
Proof.
  unfold shl_align. destruct (e0 - e) as [|d|d] eqn:Hd; cbn [fst snd].
  - replace (Z.min e e0) with e by lia. rewrite Z.sub_diag. cbn. lia.
  - replace (Z.min e e0) with e by lia. rewrite Z.sub_diag. cbn. lia.
  - replace (Z.min e e0) with e0 by lia. split; [reflexivity|].
    rewrite iter_xO. f_equal. f_equal. lia.
Qed.

Lemma pow2_split (a b : Z) : 0 <= a -> 0 <= b -> 2 ^ (a + b) = 2 ^ a * 2 ^ b.
Proof. intros. apply Z.pow_add_r; assumption. Qed.

Lemma binary_round_within (s : bool) (m : positive) (e K : Z) :
  e <= K -> Z.pos m < 2 ^ (K - e) -> 0 <= K -> K <= 970 ->
  within (K + 1) (binary_round F64.prec F64.emax s m e)
  /\ (s = false -> nonneg (binary_round F64.prec F64.emax s m e)).
Proof.
  intros He Hlt HK Hmax. unfold binary_round.
  destruct (shl_align_value m e (fexp F64.prec F64.emax (Z.pos (digits2_pos m) + e)))
    as [Hs Hf].
  destruct (shl_align m e _) as [mz ez]. cbn [fst snd] in Hs, Hf.
  apply round_within; try lia.
  rewrite Hf, Hs.
  assert (Hp : 0 < 2 ^ (e - Z.min e (fexp F64.prec F64.emax (Z.pos (digits2_pos m) + e))))
    by (apply Z.pow_pos_nonneg; lia).
  replace (K - Z.min e (fexp F64.prec F64.emax (Z.pos (digits2_pos m) + e)))
    with ((K - e) + (e - Z.min e (fexp F64.prec F64.emax (Z.pos (digits2_pos m) + e))))
    by lia.
  assert (0 < Z.pos m) by lia.
  assert (0 <= K - e).
  { destruct (Z.le_gt_cases 0 (K - e)) as [H' | H']; [exact H'|].
    rewrite Z.pow_neg_r in Hlt by lia. lia. }
  rewrite pow2_split by lia. nia.
Qed.

Lemma binary_normalize_within (z e K : Z) :
  e <= K -> Z.abs z < 2 ^ (K - e) -> 0 <= K -> K <= 970 ->
  within (K + 1) (binary_normalize F64.prec F64.emax z e false)
  /\ (0 <= z -> nonneg (binary_normalize F64.prec F64.emax z e false)).
Proof.
  intros He Hlt HK Hmax. destruct z as [|p|p]; cbn [binary_normalize].
  - split; [exact I | intros _; exact I].
  - destruct (binary_round_within false p e K He ltac:(lia) HK Hmax) as [H1 H2]. auto.
  - destruct (binary_round_within true p e K He ltac:(lia) HK Hmax) as [H1 H2].
    split; [exact H1 | lia].
Qed.

Lemma of_Z_within (z K : Z) :
  Z.abs z < 2 ^ K -> 0 <= K -> K <= 970 -> within (K + 1) (F64.of_Z z).
Proof.
  intros Hz HK Hmax. unfold F64.of_Z.
  apply binary_normalize_within; try lia. rewrite Z.sub_0_r. exact Hz.
Qed.

Lemma within_pos (K e : Z) (m : positive) : Z.pos m < 2 ^ (K - e) -> 0 < K - e.
Proof.
  intros H. destruct (Z.lt_ge_cases 0 (K - e)) as [H' | H']; [exact H'|].
  assert (2 ^ (K - e) <= 1).
  { destruct (Z.eq_dec (K - e) 0) as [-> | Hn]; [cbn; lia|].
    rewrite Z.pow_neg_r by lia. lia. }
  lia.
Qed.

Lemma mul_within (Kx Ky : Z) (x y : float) :
  within Kx x -> within Ky y -> 0 <= Kx -> 0 <= Ky -> Kx + Ky <= 970 ->
  within (Kx + Ky + 1) (F64.mul x y).
Proof.
  intros Hx Hy HKx HKy Hmax.
  destruct x as [sx| | |sx mx ex], y as [sy| | |sy my ey]; cbn [within] in *;
    try contradiction; try exact I.
  destruct Hx as [Hex Hmx], Hy as [Hey Hmy].
  pose proof (within_pos _ _ _ Hmx). pose proof (within_pos _ _ _ Hmy).
  unfold F64.mul, SFmul.
  apply round_within; try lia.
  rewrite Pos2Z.inj_mul.
  replace (Kx + Ky - (ex + ey)) with ((Kx - ex) + (Ky - ey)) by lia.
  rewrite pow2_split by lia. nia.
Qed.

Lemma square_nonneg (x : float) (K : Z) :
  within K x -> 0 <= K -> K + K <= 970 ->
  within (K + K + 1) (F64.square x) /\ nonneg (F64.square x).
Proof.
  intros Hx HK Hmax. split; [apply mul_within; assumption|].
  unfold F64.square, F64.mul.
  destruct x as [sx| | |sx mx ex]; cbn [within] in Hx; try contradiction.
  - cbn [SFmul nonneg]. exact I.
  - destruct Hx as [Hex Hmx]. pose proof (within_pos _ _ _ Hmx).
    unfold SFmul.
    apply (round_within (xorb sx sx) (Z.pos (mx * mx)) (ex + ex) (K + K)); try lia.
    + rewrite Pos2Z.inj_mul.
      replace (K + K - (ex + ex)) with ((K - ex) + (K - ex)) by lia.
      rewrite pow2_split by lia. nia.
    + destruct sx; reflexivity.
Qed.

Lemma aligned_bound (m : positive) (e ez K : Z) :
  e <= K -> Z.pos m < 2 ^ (K - e) -> ez <= e ->
  Z.pos (fst (shl_align m e ez)) < 2 ^ (K - ez).
Proof.
  intros He Hm Hz. destruct (shl_align_value m e ez) as [_ Hf]. rewrite Hf.
  replace (Z.min e ez) with ez by lia.
  pose proof (within_pos _ _ _ Hm).
  replace (K - ez) with ((K - e) + (e - ez)) by lia. rewrite pow2_split by lia.
  assert (0 < 2 ^ (e - ez)) by (apply Z.pow_pos_nonneg; lia). nia.
Qed.

Lemma pow2_double (a : Z) : 0 <= a -> 2 ^ (a + 1) = 2 * 2 ^ a.
Proof. intros. rewrite pow2_split by lia. change (2 ^ 1) with 2. lia. Qed.

Lemma add_within (K : Z) (x y : float) :
  within K x -> within K y -> 0 <= K -> K <= 968 ->
  within (K + 2) (F64.add x y)
  /\ (nonneg x -> nonneg y -> nonneg (F64.add x y)).
Proof.
  intros Hx Hy HK Hmax.
  destruct x as [sx| | |sx mx ex], y as [sy| | |sy my ey]; cbn [within] in *;
    try contradiction; unfold F64.add; cbn [SFadd].
  - split; [destruct sx, sy; exact I | destruct sx, sy; intros; exact I].
  - split; [|tauto]. cbn [within]. destruct Hy as [H1 H2]. split; [lia|].
    eapply Z.lt_le_trans; [exact H2|]. apply Z.pow_le_mono_r; lia.
  - split; [|tauto]. cbn [within]. destruct Hx as [H1 H2]. split; [lia|].
    eapply Z.lt_le_trans; [exact H2|]. apply Z.pow_le_mono_r; lia.
  - destruct Hx as [Hex Hmx], Hy as [Hey Hmy].
    pose proof (aligned_bound mx ex (Z.min ex ey) K Hex Hmx ltac:(lia)) as Ha.
    pose proof (aligned_bound my ey (Z.min ex ey) K Hey Hmy ltac:(lia)) as Hb.
    pose proof (within_pos _ _ _ Ha).
    set (a := fst (shl_align mx ex (Z.min ex ey))) in *.
    set (b := fst (shl_align my ey (Z.min ex ey))) in *.
    assert (0 < Z.pos a) by apply Pos2Z.is_pos.
    assert (0 < Z.pos b) by apply Pos2Z.is_pos.
    replace (K + 2) with ((K + 1) + 1) by lia.
    assert (Hsum : forall a b, Z.abs a < 2 ^ (K - Z.min ex ey) ->
                      Z.abs b < 2 ^ (K - Z.min ex ey) ->
                      Z.abs (a + b) < 2 ^ (K + 1 - Z.min ex ey)).
    { intros a' b' Ha' Hb'.
      replace (K + 1 - Z.min ex ey) with ((K - Z.min ex ey) + 1) by lia.
      rewrite pow2_double by lia. lia. }
    split.
    + apply binary_normalize_within; try lia.
      apply Hsum; destruct sx, sy; unfold SpecFloat.cond_Zopp; lia.
    + intros Nx Ny. destruct sx, sy; cbn [nonneg] in Nx, Ny; try contradiction.
      apply (binary_normalize_within _ _ (K + 1)); try lia.
      * apply Hsum; unfold SpecFloat.cond_Zopp; lia.
      * unfold SpecFloat.cond_Zopp. lia.
Qed.

Lemma sub_within (K : Z) (x y : float) :
  within K x -> within K y -> 0 <= K -> K <= 968 -> within (K + 2) (F64.sub x y).
Proof.
  intros Hx Hy HK Hmax.
  destruct x as [sx| | |sx mx ex], y as [sy| | |sy my ey]; cbn [within] in *;
    try contradiction; unfold F64.sub; cbn [SFsub].
  - destruct sx, sy; exact I.
  - cbn [within]. destruct Hy as [H1 H2]. split; [lia|].
    eapply Z.lt_le_trans; [exact H2|]. apply Z.pow_le_mono_r; lia.
  - cbn [within]. destruct Hx as [H1 H2]. split; [lia|].
    eapply Z.lt_le_trans; [exact H2|]. apply Z.pow_le_mono_r; lia.
  - destruct Hx as [Hex Hmx], Hy as [Hey Hmy].
    pose proof (aligned_bound mx ex (Z.min ex ey) K Hex Hmx ltac:(lia)) as Ha.
    pose proof (aligned_bound my ey (Z.min ex ey) K Hey Hmy ltac:(lia)) as Hb.
    pose proof (within_pos _ _ _ Ha).
    set (a := fst (shl_align mx ex (Z.min ex ey))) in *.
    set (b := fst (shl_align my ey (Z.min ex ey))) in *.
    assert (0 < Z.pos a) by apply Pos2Z.is_pos.
    assert (0 < Z.pos b) by apply Pos2Z.is_pos.
    replace (K + 2) with ((K + 1) + 1) by lia.
    apply binary_normalize_within; try lia.
    replace (K + 1 - Z.min ex ey) with ((K - Z.min ex ey) + 1) by lia.
    rewrite pow2_double by lia.
    destruct sx, sy; unfold SpecFloat.cond_Zopp; lia.
Qed.

Lemma sqrt_within (K : Z) (x : float) :
  within K x -> nonneg x -> 0 <= K -> K <= 970 -> within (K + 1) (F64.sqrt x).
Proof.
  intros Hx Nx HK Hmax.
  destruct x as [sx| | |sx m e]; cbn [within nonneg] in *; try contradiction.
  - exact I.
  - destruct sx; [contradiction|]. destruct Hx as [He Hm].
    pose proof (within_pos _ _ _ Hm) as Hpos.
    unfold F64.sqrt, SFsqrt, SFsqrt_core_binary.
    set (e' := Z.min (fexp F64.prec F64.emax (Z.div2 (Zdigits2 (Z.pos m) + e + 1)))
                     (Z.div2 e)).
    assert (Hhalf : 2 * Z.div2 e <= e).
    { rewrite (Z.div2_odd e) at 2. destruct (Z.odd e); cbn [Z.b2z]; lia. }
    assert (He' : 2 * e' <= e) by (unfold e'; lia).
    assert (HeK : e' <= K) by lia.
    set (m' := match e - 2 * e' with
               | 0 => Z.pos m
               | Z.pos _ => Z.shiftl (Z.pos m) (e - 2 * e')
               | Z.neg _ => 0
               end).
    assert (Hm' : m' = Z.pos m * 2 ^ (e - 2 * e')).
    { unfold m'. destruct (e - 2 * e') as [|p|p] eqn:Hs; [cbn; lia | | lia].
      apply Z.shiftl_mul_pow2. lia. }
    assert (Hm0 : 0 <= m').
    { rewrite Hm'. apply Z.mul_nonneg_nonneg; [lia|]. apply Z.pow_nonneg. lia. }
    pose proof (Z.sqrtrem_spec m' Hm0) as Hspec.
    destruct (Z.sqrtrem m') as [q r]. destruct Hspec as [Hq Hr].
    apply round_within; try lia.
    assert (HAB : 2 ^ (K - e) * 2 ^ (e - 2 * e') = 2 ^ (K - 2 * e'))
      by (rewrite <- pow2_split by lia; f_equal; lia).
    assert (HCC : 2 ^ (K - e') * 2 ^ (K - e') = 2 ^ (2 * K - 2 * e'))
      by (rewrite <- pow2_split by lia; f_equal; lia).
    assert (Hle : 2 ^ (K - 2 * e') <= 2 ^ (2 * K - 2 * e'))
      by (apply Z.pow_le_mono_r; lia).
    assert (HB : 0 < 2 ^ (e - 2 * e')) by (apply Z.pow_pos_nonneg; lia).
    assert (Hlt : m' < 2 ^ (K - e') * 2 ^ (K - e')) by (rewrite Hm'; nia).
    assert (0 < 2 ^ (K - e')) by (apply Z.pow_pos_nonneg; lia).
    nia.
Qed.

Lemma div_within (K L : Z) (x : float) (sy : bool) (my : positive) (ey : Z) :
  within K x -> - L <= ey -> 0 <= K -> 0 <= L -> K + L <= 970 ->
  within (K + L + 1) (F64.div x (S754_finite sy my ey)).
Proof.
  intros Hx Hey HK HL Hmax.
  destruct x as [sx| | |sx mx ex]; cbn [within] in Hx; try contradiction.
  - exact I.
  - destruct Hx as [Hex Hmx]. pose proof (within_pos _ _ _ Hmx) as Hpos.
    unfold F64.div, SFdiv, SFdiv_core_binary.
    set (e' := Z.min (fexp F64.prec F64.emax
                        (Zdigits2 (Z.pos mx) + ex - (Zdigits2 (Z.pos my) + ey)))
                     (ex - ey)).
    assert (He' : e' <= ex - ey) by (unfold e'; lia).
    set (m' := match ex - ey - e' with
               | 0 => Z.pos mx
               | Z.pos _ => Z.shiftl (Z.pos mx) (ex - ey - e')
               | Z.neg _ => 0
               end).
    assert (Hm' : m' = Z.pos mx * 2 ^ (ex - ey - e')).
    { unfold m'. destruct (ex - ey - e') as [|p|p] eqn:Hs; [cbn; lia | | lia].
      apply Z.shiftl_mul_pow2. lia. }
    assert (Hp : 0 < 2 ^ (ex - ey - e')) by (apply Z.pow_pos_nonneg; lia).
    assert (Hm0 : 0 <= m') by (rewrite Hm'; nia).
    pose proof (Z_div_mod m' (Z.pos my) ltac:(lia)) as Hspec.
    destruct (Z.div_eucl m' (Z.pos my)) as [q r]. destruct Hspec as [Hq Hr].
    assert (Hq0 : 0 <= q) by nia.
    assert (Hqm : q <= m') by nia.
    apply round_within; try lia.
    assert (Hle : 2 ^ ((K - ex) + (ex - ey - e')) <= 2 ^ (K + L - e'))
      by (apply Z.pow_le_mono_r; lia).
    rewrite pow2_split in Hle by lia. nia.
Qed.

Lemma py_int_within (K : Z) (x : float) : within K x -> exists z, py_int x = Ok z.
Proof. destruct x; cbn [within py_int]; try contradiction; eauto. Qed.

(** *** The size estimate of lines 127-139 does not raise *)

Lemma ratio_within (rows : Z) :
  0 <= rows < 2 ^ 62 -> within 108 (F64.div (F64.of_Z rows) image_resize_value).
Proof.
  intros Hr.
  assert (H : within 63 (F64.of_Z rows)) by (apply (of_Z_within rows 62); lia).
  unfold image_resize_value. apply (div_within 63 44); [exact H | lia ..].
Qed.

Lemma np_multiply_within (p : Point) (ratio : float) :
  int32 p -> within 108 ratio ->
  within 142 (fst (np_multiply p ratio)) /\ within 142 (snd (np_multiply p ratio)).
Proof.
  intros [Hx Hy] Hr. unfold np_multiply. cbn [fst snd].
  split; apply (mul_within 33 108); try lia; try assumption;
    apply (of_Z_within _ 32); lia.
Qed.

Lemma distance_int (a b : float * float) :
  within 142 (fst a) -> within 142 (snd a) ->
  within 142 (fst b) -> within 142 (snd b) ->
  exists z, py_int (distance a b) = Ok z.
Proof.
  intros Ha1 Ha2 Hb1 Hb2. unfold distance.
  pose proof (sub_within 142 _ _ Ha1 Hb1 ltac:(lia) ltac:(lia)) as H1.
  pose proof (sub_within 142 _ _ Ha2 Hb2 ltac:(lia) ltac:(lia)) as H2.
  destruct (square_nonneg _ 144 H1 ltac:(lia) ltac:(lia)) as [S1 N1].
  destruct (square_nonneg _ 144 H2 ltac:(lia) ltac:(lia)) as [S2 N2].
  destruct (add_within 289 _ _ S1 S2 ltac:(lia) ltac:(lia)) as [A NA].
  apply (py_int_within 292).
  apply (sqrt_within 291); try lia; auto.
Qed.

Lemma max_int_ok (a b : float) :
  (exists x, py_int a = Ok x) -> (exists y, py_int b = Ok y) ->
  exists z, max_int a b = Ok z.
Proof. intros [x Hx] [y Hy]. unfold max_int. rewrite Hx, Hy. cbn [rbind]. eauto. Qed.

Section Proceeds.
Context {ty : ImageTypes} {cv : ImagePrimitives}.

(** With corners that an int32 array can hold and a ratio below [2 ^ 108],
    the steps after the classification complete. *)
Lemma rectification_completes (ratio : float) (pts : list Point)
    (tl tr br bl : Point) :
  length pts = 4%nat ->
  classify_corners pts = Ok (tl, tr, br, bl) ->
  int32 tl -> int32 tr -> int32 br -> int32 bl ->
  within 108 ratio ->
  rectification ratio pts
  = Ok (getPerspectiveTransform
          (float32_points [np_multiply tl ratio; np_multiply tr ratio;
                           np_multiply br ratio; np_multiply bl ratio])
          dst_1440_800, 1440, 800).
Proof.
  intros Hlen Hcl Htl Htr Hbr Hbl Hr.
  destruct (np_multiply_within tl ratio Htl Hr) as [Tl1 Tl2].
  destruct (np_multiply_within tr ratio Htr Hr) as [Tr1 Tr2].
  destruct (np_multiply_within br ratio Hbr Hr) as [Br1 Br2].
  destruct (np_multiply_within bl ratio Hbl Hr) as [Bl1 Bl2].
  unfold rectification, reshape_4_2. rewrite Hlen. cbn [Nat.eqb rbind].
  rewrite Hcl. cbn [rbind].
  destruct (max_int_ok _ _ (distance_int _ _ Br1 Br2 Bl1 Bl2)
              (distance_int _ _ Tr1 Tr2 Tl1 Tl2)) as [we ->].
  cbn [rbind].
  destruct (max_int_ok _ _ (distance_int _ _ Tr1 Tr2 Br1 Br2)
              (distance_int _ _ Tl1 Tl2 Bl1 Bl2)) as [he ->].
  cbn [rbind]. rewrite fixed_width. cbn [rbind]. reflexivity.
Qed.

End Proceeds.

Lemma pick_top_right_either (r1 r2 : Point) :
  pick_top_right r1 r2 = r1 \/ pick_top_right r1 r2 = r2.
Proof. unfold pick_top_right. destruct (_ <? _); auto. Qed.

Lemma pick_bottom_left_either (r1 r2 : Point) :
  pick_bottom_left r1 r2 = r1 \/ pick_bottom_left r1 r2 = r2.
Proof. unfold pick_bottom_left. destruct (_ >? _); auto. Qed.

(** C8 (amended). On four int32 points that are not all of one coordinate
    sum with the first point occurring once, the classification assigns
    all four roles without raising, duplicates and collinear points
    included. Ties go to the first match: top-left is the first point of
    least [x + y], bottom-right the first point of greatest [x + y]; the
    first row equal to top-left and then the first row equal to
    bottom-right are removed, and of the two rows [r1], [r2] left, in
    array order, top-right is the first of least and bottom-left the
    first of greatest int32 difference [y - x]. And [detect] proceeds
    rather than crashing: on a frame of fewer than [2 ^ 62] rows whose
    accepted outline these points are, the call returns. *)
Theorem classify_corners_completes {ty : ImageTypes} {cv : ImagePrimitives}
    (pts : list Point) :
  length pts = 4%nat -> Forall int32 pts -> ~ stuck pts ->
  exists tl tr br bl,
    classify_corners pts = Ok (tl, tr, br, bl)
    /\ (exists i, pts !! i = Some tl
          /\ (forall q, q ∈ pts -> psum tl <= psum q)
          /\ forall j q, (j < i)%nat -> pts !! j = Some q -> psum tl < psum q)
    /\ (exists i, pts !! i = Some br
          /\ (forall q, q ∈ pts -> psum q <= psum br)
          /\ forall j q, (j < i)%nat -> pts !! j = Some q -> psum q < psum br)
    /\ (exists temp r1 r2,
          delete_first_equal tl pts = Some temp
          /\ delete_first_equal br temp = Some [r1; r2]
          /\ pts ≡ₚ [tl; br; r1; r2]
          /\ tr = pick_top_right r1 r2 /\ bl = pick_bottom_left r1 r2)
    /\ forall (w : World) (l : loc) (img : Pixels) (idx : Z),
         heap w !! l = Some img ->
         0 <= fst (shape img) < 2 ^ 62 ->
         find_surface_cnt (ranked_contours (imutils_resize img 300)) 0
         = Some (idx, pts) ->
         exists r w', detect (Some l) w = Ok (r, w').
Proof.
  intros Hlen H32 Hns.
  destruct (classify_corners_order pts Hlen H32 Hns)
    as (tl & tr & br & bl & Hcl & Htl & Hbr & temp & r1 & r2 & Ht & Hred & Hperm & Htr & Hbl).
  exists tl, tr, br, bl.
  split; [exact Hcl|]. split; [exact Htl|]. split; [exact Hbr|].
  split; [exists temp, r1, r2; auto|].
  intros w l img idx Hl Hrows Hfind.
  assert (Hall : Forall int32 [tl; br; r1; r2]) by (rewrite <- Hperm; exact H32).
  inversion Hall as [|? ? I1 Hall1]; subst.
  inversion Hall1 as [|? ? I2 Hall2]; subst.
  inversion Hall2 as [|? ? I3 Hall3]; subst.
  inversion Hall3 as [|? ? I4 _]; subst.
  assert (I5 : int32 (pick_top_right r1 r2))
    by (destruct (pick_top_right_either r1 r2) as [-> | ->]; assumption).
  assert (I6 : int32 (pick_bottom_left r1 r2))
    by (destruct (pick_bottom_left_either r1 r2) as [-> | ->]; assumption).
  pose proof (rectification_completes _ pts _ _ _ _ Hlen Hcl I1 I5 I2 I6
                (ratio_within _ Hrows)) as Hplan.
  rewrite (detect_unfold w l img Hl). cbv zeta. rewrite Hfind, Hplan, regions_1440.
  destruct (F64.ltb _ cutoff); eexists _, _; reflexivity.
Qed.

(** ** The detector: what it returns *)

(** C10. [detect] never changes the caller's frame: every array that
    exists before the call, the frame among them, has the same content
    after it, and nothing is shown. What the call adds to the heap is a deep
    copy of the frame, still equal to the frame, then the resized working
    copy, the only array the contour is drawn on, and last the rectified
    image when one was computed, warped from the full-resolution copy. *)
Theorem detect_leaves_frame {ty : ImageTypes} {cv : ImagePrimitives} (w w' : World) (l : loc)
    (img : Pixels) (r : option PlayingSurface) :
  heap w !! l = Some img ->
  detect (Some l) w = Ok (r, w') ->
  heap w' !! l = Some img
  /\ (forall l' p, heap w !! l' = Some p -> heap w' !! l' = Some p)
  /\ screen w' = screen w
  /\ exists working rest,
       heap w' = heap w ++ img :: working :: rest
       /\ (working = imutils_resize img 300
           \/ exists contours idx,
                working = drawContours (imutils_resize img 300) contours idx (255, 180, 0) 2)
       /\ (rest = [] \/ exists m dsize, rest = [warpPerspective img m dsize]).
Proof.
  intros Hl Hrun.
  destruct (detect_extends w w' l img r Hl Hrun)
    as (working & rest & Hheap & Hscr & Hwork & Hrest).
  assert (Hold : forall l' p, heap w !! l' = Some p -> heap w' !! l' = Some p).
  { intros l' p Hp. rewrite Hheap. apply heap_old. exact Hp. }
  split; [apply Hold; exact Hl|]. split; [exact Hold|]. split; [exact Hscr|].
  exists working, rest. auto.
Qed.

Lemma detect_leaves_frame_witness :
  exists r w',
    detect (Some 0%nat) (Sketch.holding Sketch.table_frame) = Ok (r, w')
    /\ heap w' !! 0%nat = Some Sketch.table_frame.
Proof.
  eexists _, _. split; [vm_compute; reflexivity|].
  refine (proj1 (detect_leaves_frame (Sketch.holding Sketch.table_frame) _ 0%nat
                   Sketch.table_frame _ _ _)).
  - reflexivity.
  - vm_compute. reflexivity.
Defined.

(** C5. A surface that [detect] returns has height 800 and width 1440,
    and its rectified image has exactly this size, whatever the source
    quadrilateral. *)
Theorem detect_fixed_size {ty : ImageTypes} {cv : ImagePrimitives} `{!WarpSized} (w w' : World)
    (l : loc) (img : Pixels) (ps : PlayingSurface) :
  heap w !! l = Some img ->
  detect (Some l) w = Ok (Some ps, w') ->
  height ps = 800 /\ width ps = 1440
  /\ exists rectified,
       heap w' !! transform ps = Some rectified /\ shape rectified = (800, 1440).
Proof.
  intros Hl Hrun.
  destruct (detect_returns w w' l img (Some ps) Hl Hrun)
    as [(_ & [=] & _) | (idx & c & m & wd & ht & _ & Hplan & -> & Hacc)].
  destruct Hacc as [[_ [=]] | (_ & rg & _ & [= ->])]. simpl.
  destruct (rectification_size _ _ _ _ _ Hplan) as [-> ->].
  split; [reflexivity|]. split; [reflexivity|].
  exists (warpPerspective img m (1440, 800)). split.
  - rewrite heap_new. reflexivity.
  - apply warp_shape.
Qed.

Lemma detect_fixed_size_witness :
  exists ps w',
    detect (Some 0%nat) (Sketch.holding Sketch.table_frame) = Ok (Some ps, w')
    /\ height ps = 800 /\ width ps = 1440.
Proof.
  eexists _, _. split; [vm_compute; reflexivity|].
  refine (let H := detect_fixed_size (Sketch.holding Sketch.table_frame) _ 0%nat
                     Sketch.table_frame _ _ _ in
          conj (proj1 H) (proj1 (proj2 H))).
  - reflexivity.
  - vm_compute. reflexivity.
Defined.

(** C9. A surface that [detect] returns has dealer region [0, 720] and
    player region [721, 1440]: the column intervals [0, width/2] and
    [width/2 + 1, width] of the width 1440. *)
Theorem detect_regions {ty : ImageTypes} {cv : ImagePrimitives} (w w' : World) (l : loc)
    (img : Pixels) (ps : PlayingSurface) :
  heap w !! l = Some img ->
  detect (Some l) w = Ok (Some ps, w') ->
  dealer_region ps = [0; width ps / 2]
  /\ player_region ps = [width ps / 2 + 1; width ps]
  /\ dealer_region ps = [0; 720]
  /\ player_region ps = [721; 1440].
Proof.
  intros Hl Hrun.
  destruct (detect_returns w w' l img (Some ps) Hl Hrun)
    as [(_ & [=] & _) | (idx & c & m & wd & ht & _ & Hplan & -> & Hacc)].
  destruct Hacc as [[_ [=]] | (_ & rg & Hrg & [= ->])]. simpl.
  destruct (rectification_size _ _ _ _ _ Hplan) as [-> ->].
  rewrite regions_1440 in Hrg. injection Hrg as <-. simpl.
  repeat split; reflexivity.
Qed.

Lemma detect_regions_witness :
  exists ps w',
    detect (Some 0%nat) (Sketch.holding Sketch.table_frame) = Ok (Some ps, w')
    /\ dealer_region ps = [0; 720] /\ player_region ps = [721; 1440].
Proof.
  eexists _, _. split; [vm_compute; reflexivity|].
  refine (proj2 (proj2 (detect_regions (Sketch.holding Sketch.table_frame) _ 0%nat
                          Sketch.table_frame _ _ _))).
  - reflexivity.
  - vm_compute. reflexivity.
Defined.

(** C7. The relative area of a returned surface is the area of the
    accepted contour, a contour of the working copy of height 300 and
    measured in its pixels, divided by the pixel count (rows times
    columns) of the frame as it was passed in. *)
Theorem detect_relative_area {ty : ImageTypes} {cv : ImagePrimitives} (w w' : World) (l : loc)
    (img : Pixels) (ps : PlayingSurface) :
  heap w !! l = Some img ->
  detect (Some l) w = Ok (Some ps, w') ->
  (exists idx,
     find_surface_cnt (ranked_contours (imutils_resize img 300)) 0
     = Some (idx, contour ps))
  /\ area ps = contourArea (contour ps)
  /\ area_relative ps
     = F64.div (contourArea (contour ps))
               (F64.of_Z (fst (shape img) * snd (shape img))).
Proof.
  intros Hl Hrun.
  destruct (detect_returns w w' l img (Some ps) Hl Hrun)
    as [(_ & [=] & _) | (idx & c & m & wd & ht & Hfind & _ & _ & Hacc)].
  destruct Hacc as [[_ [=]] | (_ & rg & _ & [= ->])]. simpl.
  split; [exists idx; exact Hfind|]. split; reflexivity.
Qed.

Lemma detect_relative_area_witness :
  exists ps w',
    detect (Some 0%nat) (Sketch.holding Sketch.table_frame) = Ok (Some ps, w')
    /\ area_relative ps = F64.div (F64.of_Z 26600) (F64.of_Z (600 * 800)).
Proof.
  eexists _, _. split; [vm_compute; reflexivity|].
  refine (proj2 (proj2 (detect_relative_area (Sketch.holding Sketch.table_frame) _ 0%nat
                          Sketch.table_frame _ _ _))).
  - reflexivity.
  - vm_compute. reflexivity.
Defined.

Lemma leb_true_number (x y : float) :
  F64.leb x y = true -> F64.is_nan x = false /\ F64.is_nan y = false.
Proof. destruct x, y; try discriminate; split; reflexivity. Qed.

(** C3. Once a candidate is accepted and rectified, [detect] returns
    nothing when its relative area is below the cutoff 0.03 and returns a
    surface when the cutoff is less than or equal to the relative area;
    on numbers these are the only two cases, and a relative area equal
    to the cutoff is accepted. *)
Theorem detect_area_cutoff {ty : ImageTypes} {cv : ImagePrimitives} (w : World) (l : loc)
    (img : Pixels) (idx : Z) (c : Contour) (m : Matrix) (wd ht : Z) :
  heap w !! l = Some img ->
  find_surface_cnt (ranked_contours (imutils_resize img 300)) 0 = Some (idx, c) ->
  rectification (F64.div (F64.of_Z (fst (shape img))) image_resize_value) c
  = Ok (m, wd, ht) ->
  let relative_size :=
    F64.div (contourArea c) (F64.of_Z (fst (shape img) * snd (shape img))) in
  (F64.ltb relative_size cutoff = true ->
     exists w', detect (Some l) w = Ok (None, w'))
  /\ (F64.leb cutoff relative_size = true ->
        exists ps w', detect (Some l) w = Ok (Some ps, w')
                      /\ area_relative ps = relative_size)
  /\ (F64.is_nan relative_size = false ->
        F64.ltb relative_size cutoff = negb (F64.leb cutoff relative_size))
  /\ F64.leb cutoff cutoff = true.
Proof.
  intros Hl Hfind Hplan relative_size.
  destruct (rectification_size _ _ _ _ _ Hplan) as [-> ->].
  pose proof (detect_unfold w l img Hl) as Hrun. cbv zeta in Hrun.
  rewrite Hfind, Hplan, regions_1440 in Hrun. fold relative_size in Hrun.
  split; [|split; [|split]].
  - intros Hlt. rewrite Hlt in Hrun. eauto.
  - intros Hle. destruct (leb_true_number _ _ Hle) as [_ Hnum].
    rewrite (ltb_negb_leb relative_size cutoff Hnum eq_refl), Hle in Hrun.
    simpl in Hrun. eexists _, _. split; [exact Hrun | reflexivity].
  - intros Hnum. apply ltb_negb_leb; [exact Hnum | reflexivity].
  - reflexivity.
Qed.

Lemma detect_area_cutoff_witness :
  exists ps w',
    detect (Some 0%nat) (Sketch.holding Sketch.boundary_frame) = Ok (Some ps, w')
    /\ area_relative ps = cutoff.
Proof.
  refine (proj1 (proj2 (detect_area_cutoff (Sketch.holding Sketch.boundary_frame) 0%nat
                          Sketch.boundary_frame 0
                          [(0, 0); (30, 0); (30, 10); (0, 10)]
                          _ 1440 800 _ _ _)) _).
  - reflexivity.
  - vm_compute. reflexivity.
  - vm_compute. reflexivity.
  - vm_compute. reflexivity.
Defined.

Example detect_below_cutoff :
  exists w', detect (Some 0%nat) (Sketch.holding Sketch.below_frame) = Ok (None, w').
Proof. eexists. vm_compute. reflexivity. Qed.

(** C4. [detect] ranks the contours of the edge map by area and keeps the
    five first: when the areas are numbers, the ranked list followed by
    the contours left out is a rearrangement of the contours found, in
    descending order of area, and holds five contours or all of them. The
    first ranked contour whose approximation (accuracy 0.02 times its
    perimeter) has four vertices is the accepted outline: the search
    stops at it, it is the contour drawn on the working copy and the
    contour of a surface returned. When no ranked contour approximates to
    four vertices, [detect] returns nothing. *)
Theorem detect_candidate_selection {ty : ImageTypes} {cv : ImagePrimitives} (w : World) (l : loc)
    (img : Pixels) :
  heap w !! l = Some img ->
  let work := imutils_resize img 300 in
  let found := edge_contours work in
  let ranked := ranked_contours work in
  (Forall (fun c => F64.is_nan (contourArea c) = false) found ->
     exists others,
       ranked ++ others ≡ₚ found
       /\ length ranked = Nat.min 5 (length found)
       /\ descending contourArea (ranked ++ others))
  /\ (forall i c,
        ranked !! i = Some c ->
        length (approximate c) = 4%nat ->
        (forall j c', (j < i)%nat -> ranked !! j = Some c' ->
                      length (approximate c') <> 4%nat) ->
        find_surface_cnt ranked 0 = Some (Z.of_nat i, approximate c)
        /\ forall ps w',
             detect (Some l) w = Ok (Some ps, w') ->
             contour ps = approximate c
             /\ heap w' !! img_cnt ps
                = Some (drawContours work ranked (Z.of_nat i) (255, 180, 0) 2))
  /\ ((forall c, c ∈ ranked -> length (approximate c) <> 4%nat) ->
        detect (Some l) w = Ok (None, mkWorld (heap w ++ [img; work]) (screen w))).
Proof.
  intros Hl work found ranked. split; [|split].
  - apply ranked_contours_sorted.
  - intros i c Hi H4 Hbefore.
    pose proof (find_surface_cnt_first ranked i c 0 Hi H4 Hbefore) as Hfind.
    rewrite Z.add_0_l in Hfind. split; [exact Hfind|].
    intros ps w' Hrun.
    destruct (detect_returns w w' l img (Some ps) Hl Hrun)
      as [(_ & [=] & _) | (idx & c0 & m & wd & ht & Hfind' & _ & -> & Hacc)].
    fold work in Hfind'. fold ranked in Hfind'. rewrite Hfind in Hfind'.
    injection Hfind' as <- <-.
    destruct Hacc as [[_ [=]] | (_ & rg & _ & [= ->])]. simpl.
    split; [reflexivity|]. rewrite heap_new. reflexivity.
  - intros Hnone. rewrite (detect_unfold w l img Hl). cbv zeta.
    fold work. fold ranked. rewrite (find_surface_cnt_none ranked 0 Hnone). reflexivity.
Qed.

Lemma detect_candidate_selection_witness :
  exists w', detect (Some 0%nat) (Sketch.holding Sketch.crowded_frame) = Ok (None, w').
Proof.
  eexists.
  refine (proj2 (proj2 (detect_candidate_selection (Sketch.holding Sketch.crowded_frame)
                          0%nat Sketch.crowded_frame _)) _).
  - reflexivity.
  - intros c Hc. vm_compute in Hc.
    repeat (apply elem_of_cons in Hc as [-> | Hc]; [vm_compute; lia|]).
    inversion Hc.
Defined.

Example detect_busy_frame :
  ranked_contours (imutils_resize Sketch.busy_frame 300)
  = [Sketch.big_triangle; Sketch.quad_b; Sketch.quad_a; Sketch.tri_d; Sketch.tri_e]
  /\ exists ps w',
       detect (Some 0%nat) (Sketch.holding Sketch.busy_frame) = Ok (Some ps, w')
       /\ contour ps = Sketch.quad_b.
Proof. split; [vm_compute; reflexivity|]. eexists _, _. vm_compute. split; reflexivity. Qed.

(** ** The acquisition loop, step by step *)

Section LoopFacts.
Context {ty : ImageTypes} {cv : ImagePrimitives}.

Lemma heap_new0 (h ext : list Pixels) : (h ++ ext) !! length h = ext !! 0%nat.
Proof. rewrite lookup_app_r by lia. f_equal. lia. Qed.

Ltac heap_norm :=
  cbn [heap screen]; rewrite <- ?app_assoc; cbn [app];
  rewrite ?length_app; cbn [length].

Ltac heap_lookup :=
  cbn [heap];
  first [ eassumption
        | apply heap_old; eassumption
        | rewrite heap_new0; reflexivity
        | rewrite heap_new; reflexivity ].

Lemma bind_deepcopy {B} (l : loc) (p : Pixels) (k : loc -> M B) (w : World) :
  heap w !! l = Some p ->
  bind (deepcopy l) k w = k (length (heap w)) (mkWorld (heap w ++ [p]) (screen w)).
Proof. intros H. unfold deepcopy. rewrite bind_assoc, (bind_read l p) by exact H. reflexivity. Qed.

Lemma bind_resize {B} (l : loc) (p : Pixels) (h : Z) (k : loc -> M B) (w : World) :
  heap w !! l = Some p ->
  bind (resize l h) k w
  = k (length (heap w)) (mkWorld (heap w ++ [imutils_resize p h]) (screen w)).
Proof. intros H. unfold resize. rewrite bind_assoc, (bind_read l p) by exact H. reflexivity. Qed.

Lemma bind_timer {B} (l : loc) (p : Pixels) (c : Z) (k : loc -> M B) (w : World) :
  heap w !! l = Some p ->
  bind (timer l c) k w = k l (mkWorld (<[l := timer_image p c]> (heap w)) (screen w)).
Proof.
  intros H. assert (Hlt : (l < length (heap w))%nat) by (eapply lookup_lt_Some; eauto).
  unfold timer. cbv zeta.
  rewrite bind_assoc, (bind_read l p) by exact H.
  rewrite bind_assoc, bind_write. cbn [heap screen].
  rewrite bind_assoc, (bind_read l _) by (cbn [heap]; apply list_lookup_insert_eq; exact Hlt).
  rewrite bind_assoc, bind_write. cbn [heap screen].
  rewrite bind_ret, list_insert_insert_eq. reflexivity.
Qed.

Lemma bind_not_found {B} (l : loc) (p : Pixels) (k : loc -> M B) (w : World) :
  heap w !! l = Some p ->
  bind (not_found l) k w = k l (mkWorld (<[l := not_found_image p]> (heap w)) (screen w)).
Proof.
  intros H. assert (Hlt : (l < length (heap w))%nat) by (eapply lookup_lt_Some; eauto).
  unfold not_found. cbv zeta.
  rewrite bind_assoc, (bind_read l p) by exact H.
  rewrite bind_assoc, (bind_read l p) by exact H.
  rewrite bind_assoc, bind_write. cbn [heap screen].
  rewrite bind_assoc, (bind_read l _) by (cbn [heap]; apply list_lookup_insert_eq; exact Hlt).
  rewrite bind_assoc, bind_write. cbn [heap screen].
  rewrite bind_ret, list_insert_insert_eq. reflexivity.
Qed.

Lemma bind_display {B} (lc lk : loc) (lt : option loc) (c q : Pixels)
    (t : option Pixels) (k : unit -> M B) (w : World) :
  heap w !! lc = Some c -> heap w !! lk = Some q ->
  match lt, t with
  | Some l, Some p => heap w !! l = Some p
  | None, None => True
  | _, _ => False
  end ->
  bind (display lc lk lt) k w
  = k tt (mkWorld (heap w) (screen w ++ DisplayCall c q t :: windows c q t)).
Proof.
  intros Hc Hk Ht. unfold display. cbv zeta.
  rewrite bind_assoc, (bind_read lc c) by exact Hc.
  rewrite bind_assoc, (bind_read lk q) by exact Hk.
  assert (Hread : forall B' (k' : option Pixels -> M B'),
            bind match lt with
                 | Some l => bind (read l) (fun p => ret (Some p))
                 | None => ret None
                 end k' w = k' t w).
  { intros B' k'. destruct lt as [l|], t as [p|]; try contradiction.
    - rewrite bind_assoc, (bind_read l p) by exact Ht. reflexivity.
    - reflexivity. }
  rewrite bind_assoc, Hread. unfold windows.
  destruct t as [p|]; [destruct (any_nonzero p)|];
    repeat first [rewrite bind_assoc | rewrite bind_emit | rewrite bind_ret];
    cbn [heap screen];
    try (unfold bind, emit, ret; cbn [heap screen]);
    rewrite <- ?app_assoc; cbn [app]; reflexivity.
Qed.


(** *** One presentation (lines 272-297), case by case *)

Lemma present_miss_none (t : Tick) (st : LoopState) (w : World) (l : loc)
    (f : Pixels) (c' : Z) (ct' : float) :
  heap w !! l = Some f ->
  valid_surface st = None ->
  countdown t st = Ok (c', ct') ->
  let small := imutils_resize f 300 in
  present t st (Some l) None w
  = Ok (mkLoopState c' ct' None,
        mkWorld (heap w ++ [small; small; timer_image small c'; not_found_image small])
                (screen w
                 ++ DisplayCall (timer_image small c') (not_found_image small) None
                    :: windows (timer_image small c') (not_found_image small) None)).
Proof.
  intros Hl Hv Hc small. destruct w as [h scr]. cbn [heap screen] in *.
  unfold present. cbn [deref]. rewrite bind_ret.
  rewrite (bind_resize l f) by heap_lookup. heap_norm.
  rewrite (bind_deepcopy _ small) by heap_lookup. heap_norm.
  rewrite (bind_deepcopy _ small) by heap_lookup. heap_norm.
  rewrite (bind_lift_ok _ _ _ _ Hc).
  rewrite (bind_timer _ small) by heap_lookup. heap_norm.
  rewrite insert_app_r. cbn [insert list_insert].
  rewrite (bind_deepcopy _ small) by heap_lookup. heap_norm.
  rewrite (bind_not_found _ small) by heap_lookup. heap_norm.
  rewrite insert_app_r. cbn [insert list_insert].
  rewrite Hv.
  rewrite (bind_display _ _ None (timer_image small c') (not_found_image small) None)
    by (try heap_lookup; exact I).
  reflexivity.
Qed.

Lemma present_miss_held (t : Tick) (st : LoopState) (w : World) (l : loc)
    (f T : Pixels) (held : PlayingSurface) (c' : Z) (ct' : float) :
  heap w !! l = Some f ->
  valid_surface st = Some held ->
  heap w !! transform held = Some T ->
  countdown t st = Ok (c', ct') ->
  let small := imutils_resize f 300 in
  present t st (Some l) None w
  = Ok (mkLoopState c' ct' (Some held),
        mkWorld (heap w ++ [small; small; timer_image small c'; not_found_image small;
                            imutils_resize T 300])
                (screen w
                 ++ DisplayCall (timer_image small c') (not_found_image small)
                      (Some (imutils_resize T 300))
                    :: windows (timer_image small c') (not_found_image small)
                         (Some (imutils_resize T 300)))).
Proof.
  intros Hl Hv HT Hc small. destruct w as [h scr]. cbn [heap screen] in *.
  unfold present. cbn [deref]. rewrite bind_ret.
  rewrite (bind_resize l f) by heap_lookup. heap_norm.
  rewrite (bind_deepcopy _ small) by heap_lookup. heap_norm.
  rewrite (bind_deepcopy _ small) by heap_lookup. heap_norm.
  rewrite (bind_lift_ok _ _ _ _ Hc).
  rewrite (bind_timer _ small) by heap_lookup. heap_norm.
  rewrite insert_app_r. cbn [insert list_insert].
  rewrite (bind_deepcopy _ small) by heap_lookup. heap_norm.
  rewrite (bind_not_found _ small) by heap_lookup. heap_norm.
  rewrite insert_app_r. cbn [insert list_insert].
  rewrite Hv.
  rewrite (bind_resize _ T) by heap_lookup. heap_norm.
  rewrite (bind_display _ _ (Some _) (timer_image small c') (not_found_image small)
             (Some (imutils_resize T 300)))
    by heap_lookup.
  reflexivity.
Qed.

Lemma present_hit (t : Tick) (st : LoopState) (w : World) (l : loc)
    (f K T : Pixels) (ps : PlayingSurface) (c' : Z) (ct' : float) :
  heap w !! l = Some f ->
  heap w !! img_cnt ps = Some K ->
  heap w !! transform ps = Some T ->
  countdown t st = Ok (c', ct') ->
  let small := imutils_resize f 300 in
  present t st (Some l) (Some ps) w
  = Ok (mkLoopState c' ct' (Some ps),
        mkWorld (heap w ++ [small; small; timer_image small c';
                            imutils_resize K 300; imutils_resize K 300;
                            imutils_resize T 300; imutils_resize T 300])
                (screen w
                 ++ DisplayCall (timer_image small c') (imutils_resize K 300)
                      (Some (imutils_resize T 300))
                    :: windows (timer_image small c') (imutils_resize K 300)
                         (Some (imutils_resize T 300)))).
Proof.
  intros Hl HK HT Hc small. destruct w as [h scr]. cbn [heap screen] in *.
  unfold present. cbn [deref]. rewrite bind_ret.
  rewrite (bind_resize l f) by heap_lookup. heap_norm.
  rewrite (bind_deepcopy _ small) by heap_lookup. heap_norm.
  rewrite (bind_deepcopy _ small) by heap_lookup. heap_norm.
  rewrite (bind_lift_ok _ _ _ _ Hc).
  rewrite (bind_timer _ small) by heap_lookup. heap_norm.
  rewrite insert_app_r. cbn [insert list_insert].
  rewrite (bind_resize _ K) by heap_lookup. heap_norm.
  rewrite (bind_deepcopy _ (imutils_resize K 300)) by heap_lookup. heap_norm.
  rewrite (bind_resize _ T) by heap_lookup. heap_norm.
  rewrite (bind_deepcopy _ (imutils_resize T 300)) by heap_lookup. heap_norm.
  rewrite (bind_display _ _ (Some _) (timer_image small c') (imutils_resize K 300)
             (Some (imutils_resize T 300)))
    by heap_lookup.
  reflexivity.
Qed.


(** *** One iteration *)

Lemma shown_app (a b : list Event) : shown (a ++ b) = shown a ++ shown b.
Proof. unfold shown. apply omap_app. Qed.

Lemma shown_display (scr : list Event) (c k : Pixels) (t : option Pixels) :
  shown (scr ++ DisplayCall c k t :: windows c k t) = shown scr ++ [t].
Proof.
  rewrite shown_app. f_equal. unfold windows, shown.
  destruct t as [p|]; [destruct (any_nonzero p)|]; reflexivity.
Qed.

Lemma beats_countdown (t : Tick) (st : LoopState) (now : float) :
  beats (curr_time st) t now -> count st <> 0 ->
  countdown t st = Ok (count st - 1, now).
Proof.
  intros (test & Htest & Hel & Hnow & _) Hc. unfold countdown.
  rewrite Htest. cbn [rbind]. rewrite Hel.
  destruct (Z.eqb_spec (count st) 0) as [E | _]; [contradiction|]. cbn [negb andb].
  rewrite Hnow. reflexivity.
Qed.

Lemma iteration_miss (t : Tick) (st : LoopState) (w : World) (f : Pixels)
    (h : option Pixels) (c' : Z) (ct' : float) :
  frame t = Some f -> detection_fails f ->
  countdown t st = Ok (c', ct') ->
  holds (heap w) (valid_surface st) h ->
  let small := imutils_resize f 300 in
  let shows := option_map (fun T => imutils_resize T 300) h in
  exists ext,
    iteration t st w
    = Ok (mkLoopState c' ct' (valid_surface st),
          mkWorld (heap w ++ ext)
                  (screen w
                   ++ DisplayCall (timer_image small c') (not_found_image small) shows
                      :: windows (timer_image small c') (not_found_image small) shows)).
Proof.
  intros Hf Hfail Hc Hh small shows.
  unfold iteration, cap_read. rewrite Hf.
  rewrite bind_assoc, bind_alloc, bind_ret.
  set (w0 := mkWorld (heap w ++ [f]) (screen w)).
  assert (Hl : heap w0 !! length (heap w) = Some f) by (unfold w0; heap_lookup).
  destruct (Hfail w0 _ Hl) as [w1 Hdet].
  destruct (detect_extends w0 w1 _ f None Hl Hdet)
    as (working & rest & Hheap & Hscr & _).
  assert (Hold : forall l' p, heap w0 !! l' = Some p -> heap w1 !! l' = Some p).
  { intros l' p Hp. rewrite Hheap. apply heap_old. exact Hp. }
  pose proof (Hold _ _ Hl) as Hl1.
  unfold bind at 1. rewrite Hdet.
  destruct (valid_surface st) as [held|] eqn:Hv, h as [T|]; try contradiction;
    cbn [holds] in Hh; cbn [option_map] in shows.
  - assert (HT : heap w1 !! transform held = Some T).
    { apply Hold. unfold w0. heap_lookup. }
    rewrite (present_miss_held t st w1 _ f T held c' ct' Hl1 Hv HT Hc).
    rewrite Hheap, Hscr. unfold w0. cbn [heap screen]. rewrite <- !app_assoc.
    eexists. reflexivity.
  - rewrite (present_miss_none t st w1 _ f c' ct' Hl1 Hv Hc).
    rewrite Hheap, Hscr. unfold w0. cbn [heap screen]. rewrite <- !app_assoc.
    eexists. reflexivity.
Qed.

Lemma iteration_hit (t : Tick) (st : LoopState) (w : World) (f T : Pixels)
    (c' : Z) (ct' : float) :
  frame t = Some f -> detection_yields f T ->
  countdown t st = Ok (c', ct') ->
  let small := imutils_resize f 300 in
  exists ext ps K,
    iteration t st w
    = Ok (mkLoopState c' ct' (Some ps),
          mkWorld (heap w ++ ext)
                  (screen w
                   ++ DisplayCall (timer_image small c') (imutils_resize K 300)
                        (Some (imutils_resize T 300))
                      :: windows (timer_image small c') (imutils_resize K 300)
                           (Some (imutils_resize T 300))))
    /\ (heap w ++ ext) !! transform ps = Some T.
Proof.
  intros Hf Hyield Hc small.
  unfold iteration, cap_read. rewrite Hf.
  rewrite bind_assoc, bind_alloc, bind_ret.
  set (w0 := mkWorld (heap w ++ [f]) (screen w)).
  assert (Hl : heap w0 !! length (heap w) = Some f) by (unfold w0; heap_lookup).
  destruct (Hyield w0 _ Hl) as (ps & w1 & Hdet & HT).
  destruct (detect_extends w0 w1 _ f (Some ps) Hl Hdet)
    as (working & rest & Hheap & Hscr & _).
  assert (Hold : forall l' p, heap w0 !! l' = Some p -> heap w1 !! l' = Some p).
  { intros l' p Hp. rewrite Hheap. apply heap_old. exact Hp. }
  pose proof (Hold _ _ Hl) as Hl1.
  assert (HK : exists K, heap w1 !! img_cnt ps = Some K).
  { destruct (detect_returns w0 w1 _ f (Some ps) Hl Hdet)
      as [(_ & [=] & _) | (idx & c & m & wd & ht & _ & _ & -> & Hacc)].
    destruct Hacc as [[_ [=]] | (_ & rg & _ & [= ->])]. cbn [img_cnt heap].
    rewrite heap_new. eexists. reflexivity. }
  destruct HK as [K HK].
  unfold bind at 1. rewrite Hdet.
  rewrite (present_hit t st w1 _ f K T ps c' ct' Hl1 HK HT Hc).
  rewrite Hscr. unfold w0. cbn [heap screen].
  assert (Hh : heap w1 = heap w ++ f :: f :: working :: rest).
  { rewrite Hheap. unfold w0. cbn [heap]. rewrite <- app_assoc. reflexivity. }
  rewrite Hh. rewrite <- !app_assoc.
  eexists _, ps, K. split; [reflexivity|].
  rewrite app_assoc. apply heap_old. rewrite <- Hh. exact HT.
Qed.


(** Sufficient conditions, on the frame alone, for the two verdicts. *)
Lemma detection_fails_no_candidate (f : Pixels) :
  find_surface_cnt (ranked_contours (imutils_resize f 300)) 0 = None ->
  detection_fails f.
Proof.
  intros Hfind w l Hl. rewrite (detect_unfold w l f Hl). cbv zeta.
  rewrite Hfind. eexists. reflexivity.
Qed.

Lemma detection_yields_accepted (f : Pixels) (idx : Z) (c : Contour) (m : Matrix) :
  find_surface_cnt (ranked_contours (imutils_resize f 300)) 0 = Some (idx, c) ->
  rectification (F64.div (F64.of_Z (fst (shape f))) image_resize_value) c
  = Ok (m, 1440, 800) ->
  F64.ltb (F64.div (contourArea c) (F64.of_Z (fst (shape f) * snd (shape f)))) cutoff
  = false ->
  detection_yields f (warpPerspective f m (1440, 800)).
Proof.
  intros Hfind Hplan Hcut w l Hl. rewrite (detect_unfold w l f Hl). cbv zeta.
  rewrite Hfind, Hplan, Hcut, regions_1440.
  eexists _, _. split; [reflexivity|]. cbn [transform heap].
  rewrite heap_new. reflexivity.
Qed.

(** *** The loop over a steady run *)

Lemma holds_extend (hp ext : list Pixels) (v : option PlayingSurface)
    (h : option Pixels) :
  holds hp v h -> holds (hp ++ ext) v h.
Proof.
  destruct v as [ps|], h as [T|]; cbn [holds]; try tauto. apply heap_old.
Qed.

Lemma while_loop_steady (ticks : list Tick) (es : list (option Pixels))
    (h h' : option Pixels) (curr : float) :
  steady_run curr h ticks es h' ->
  forall (st : LoopState) (w : World),
  curr_time st = curr ->
  Z.of_nat (length ticks) <= count st ->
  holds (heap w) (valid_surface st) h ->
  exists st' ext scr',
    (forall more,
       while_loop (ticks ++ more) st w
       = while_loop more st' (mkWorld (heap w ++ ext) scr'))
    /\ count st' = count st - Z.of_nat (length ticks)
    /\ holds (heap w ++ ext) (valid_surface st') h'
    /\ shown scr' = shown (screen w) ++ es.
Proof.
  induction 1 as [curr h | curr h t ts f now es h' Hf Hfail Hbeat Hrun IH
                        | curr h t ts f T now es h' Hf Hyield Hbeat Hrun IH];
    intros st w Hcurr Hcount Hh.
  - exists st, [], (screen w). repeat split.
    + intros more. rewrite app_nil_r. destruct w; reflexivity.
    + cbn [length]. lia.
    + rewrite app_nil_r. exact Hh.
    + rewrite app_nil_r. reflexivity.
  - cbn [length] in Hcount. subst curr.
    assert (Hne : count st <> 0) by lia.
    pose proof (beats_countdown t st now Hbeat Hne) as Hcd.
    destruct (iteration_miss t st w f h _ _ Hf Hfail Hcd Hh) as [ext Hit].
    cbv zeta in Hit.
    match type of Hit with _ = Ok (?sx, ?wx) => set (st1 := sx) in *; set (w1 := wx) in * end.
    destruct (IH st1 w1 eq_refl) as (st' & ext' & scr' & Hloop & Hc' & Hh' & Hshown).
    { unfold st1. cbn [count]. lia. }
    { unfold st1, w1. cbn [valid_surface heap]. apply holds_extend. exact Hh. }
    exists st', (ext ++ ext'), scr'. repeat split.
    + intros more. cbn [app while_loop].
      destruct (Z.eqb_spec (count st) 0) as [E | _]; [contradiction|].
      unfold bind at 1. rewrite Hit.
      destruct Hbeat as (_ & _ & _ & _ & ->).
      rewrite Hloop. unfold w1. cbn [heap]. rewrite app_assoc. reflexivity.
    + rewrite Hc'. unfold st1. cbn [count length]. lia.
    + rewrite app_assoc. exact Hh'.
    + rewrite Hshown. unfold w1. cbn [screen]. rewrite shown_display.
      rewrite <- app_assoc. reflexivity.
  - cbn [length] in Hcount. subst curr.
    assert (Hne : count st <> 0) by lia.
    pose proof (beats_countdown t st now Hbeat Hne) as Hcd.
    destruct (iteration_hit t st w f T _ _ Hf Hyield Hcd) as (ext & ps & K & Hit & HT).
    cbv zeta in Hit.
    match type of Hit with _ = Ok (?sx, ?wx) => set (st1 := sx) in *; set (w1 := wx) in * end.
    destruct (IH st1 w1 eq_refl) as (st' & ext' & scr' & Hloop & Hc' & Hh' & Hshown).
    { unfold st1. cbn [count]. lia. }
    { unfold st1, w1. cbn [valid_surface heap holds]. exact HT. }
    exists st', (ext ++ ext'), scr'. repeat split.
    + intros more. cbn [app while_loop].
      destruct (Z.eqb_spec (count st) 0) as [E | _]; [contradiction|].
      unfold bind at 1. rewrite Hit.
      destruct Hbeat as (_ & _ & _ & _ & ->).
      rewrite Hloop. unfold w1. cbn [heap]. rewrite app_assoc. reflexivity.
    + rewrite Hc'. unfold st1. cbn [count length]. lia.
    + rewrite app_assoc. exact Hh'.
    + rewrite Hshown. unfold w1. cbn [screen]. rewrite shown_display.
      rewrite <- app_assoc. reflexivity.
Qed.

Lemma steady_run_take (k : nat) (ticks : list Tick) (es : list (option Pixels))
    (h h' : option Pixels) (curr : float) :
  steady_run curr h ticks es h' ->
  exists es' h'', steady_run curr h (take k ticks) es' h''.
Proof.
  intros Hrun. revert k.
  induction Hrun as [curr h | curr h t ts f now es h' Hf Hfail Hbeat Hrun IH
                            | curr h t ts f T now es h' Hf Hyield Hbeat Hrun IH];
    intros k.
  - rewrite take_nil. eexists _, _. constructor.
  - destruct k as [|k]; cbn [take].
    + eexists _, _. constructor.
    + destruct (IH k) as (es' & h'' & Hk). eexists _, _.
      eapply steady_miss; eauto.
  - destruct k as [|k]; cbn [take].
    + eexists _, _. constructor.
    + destruct (IH k) as (es' & h'' & Hk). eexists _, _.
      eapply steady_hit; eauto.
Qed.

Lemma while_loop_done (more : list Tick) (st : LoopState) (w : World) :
  count st = 0 -> while_loop more st w = Ok (Exited st, w).
Proof. intros H. destruct more; cbn [while_loop]; rewrite H; reflexivity. Qed.

Lemma while_loop_starved (st : LoopState) (w : World) :
  count st <> 0 -> while_loop [] st w = Ok (Starved st, w).
Proof.
  intros H. cbn [while_loop].
  destruct (Z.eqb_spec (count st) 0); [contradiction | reflexivity].
Qed.


Lemma shown_destroy (scr : list Event) : shown (scr ++ [DestroyAllWindows]) = shown scr.
Proof. rewrite shown_app. cbn. apply app_nil_r. Qed.

(** [get_surface] over a steady run of as many ticks as the countdown
    holds. *)
Lemma get_surface_steady (stamp : string) (curr0 : float) (ticks more : list Tick)
    (es : list (option Pixels)) (h : option Pixels) (n : Z) (w : World) :
  clock_reading stamp = Ok curr0 ->
  steady_run curr0 None ticks es h ->
  Z.of_nat (length ticks) = n + 1 ->
  exists v ext scr',
    get_surface stamp (ticks ++ more) n w
    = Ok (Returned v, mkWorld (heap w ++ ext) scr')
    /\ holds (heap w ++ ext) v h
    /\ shown scr' = shown (screen w) ++ es.
Proof.
  intros Hclock Hrun Hlen. unfold get_surface. cbv zeta.
  rewrite (bind_lift_ok _ _ _ _ Hclock).
  destruct (while_loop_steady ticks es None h curr0 Hrun
              (mkLoopState (n + 1) curr0 None) w eq_refl)
    as (st' & ext & scr' & Hloop & Hc & Hh & Hshown).
  { cbn [count]. lia. }
  { exact I. }
  cbn [count] in Hc.
  unfold bind at 1. rewrite Hloop, while_loop_done by lia.
  cbn [bind emit ret heap screen].
  exists (valid_surface st'), ext, (scr' ++ [DestroyAllWindows]).
  split; [reflexivity|]. split; [exact Hh|].
  rewrite shown_destroy. exact Hshown.
Qed.

(** [get_surface] over a steady run shorter than the countdown. *)
Lemma get_surface_running (stamp : string) (curr0 : float) (ticks : list Tick)
    (es : list (option Pixels)) (h : option Pixels) (n : Z) (w : World) :
  clock_reading stamp = Ok curr0 ->
  steady_run curr0 None ticks es h ->
  Z.of_nat (length ticks) < n + 1 ->
  exists st w',
    get_surface stamp ticks n w = Ok (Running st, w')
    /\ count st = n + 1 - Z.of_nat (length ticks).
Proof.
  intros Hclock Hrun Hlen. unfold get_surface. cbv zeta.
  rewrite (bind_lift_ok _ _ _ _ Hclock).
  destruct (while_loop_steady ticks es None h curr0 Hrun
              (mkLoopState (n + 1) curr0 None) w eq_refl)
    as (st' & ext & scr' & Hloop & Hc & Hh & Hshown).
  { cbn [count]. lia. }
  { exact I. }
  cbn [count] in Hc.
  pose proof (Hloop []) as Hloop0. rewrite app_nil_r in Hloop0.
  unfold bind at 1. rewrite Hloop0, while_loop_starved by lia.
  eexists _, _. split; [reflexivity | exact Hc].
Qed.

End LoopFacts.

(** ** The acquisition loop: countdown and display *)

(** C2 (amended). The countdown starts at [requestedCount + 1]. Over a
    steady run (at every tick the clock test fires, no cancel key is
    pressed, a frame is grabbed and detection does not raise) of
    [requestedCount + 1] ticks, [get_surface] returns after exactly these
    ticks, whatever ticks would follow, with one decrement per tick: cut to
    its first [k <= requestedCount] ticks the loop is still running with
    the countdown at [requestedCount + 1 - k]. The value returned is the
    surface held last: its rectified image is the one of the last tick
    whose detection succeeded, and it is None when no detection did. *)
Theorem get_surface_countdown {ty : ImageTypes} {cv : ImagePrimitives} (n : nat) (stamp : string)
    (curr0 : float) (ticks : list Tick) (es : list (option Pixels))
    (h : option Pixels) (w : World) :
  clock_reading stamp = Ok curr0 ->
  steady_run curr0 None ticks es h ->
  length ticks = S n ->
  (forall more,
     exists v ext scr',
       get_surface stamp (ticks ++ more) (Z.of_nat n) w
       = Ok (Returned v, mkWorld (heap w ++ ext) scr')
       /\ holds (heap w ++ ext) v h)
  /\ (forall k, (k <= n)%nat ->
        exists st w',
          get_surface stamp (take k ticks) (Z.of_nat n) w = Ok (Running st, w')
          /\ count st = Z.of_nat n + 1 - Z.of_nat k).
Proof.
  intros Hclock Hrun Hlen. split.
  - intros more.
    destruct (get_surface_steady stamp curr0 ticks more es h (Z.of_nat n) w Hclock Hrun)
      as (v & ext & scr' & Hget & Hh & _); [lia|].
    exists v, ext, scr'. split; assumption.
  - intros k Hk.
    destruct (steady_run_take k ticks es None h curr0 Hrun) as (es' & h'' & Hrun').
    assert (Hlk : length (take k ticks) = k) by (rewrite length_take; lia).
    destruct (get_surface_running stamp curr0 (take k ticks) es' h'' (Z.of_nat n) w
                Hclock Hrun') as (st & w' & Hget & Hc); [lia|].
    exists st, w'. split; [exact Hget | lia].
Qed.

(** C6. A tick whose detection fails while a surface is held keeps that
    surface, leaves every array that existed untouched, and hands to
    [display] the countdown frame, the frame with the "not found" overlay
    and the resized rectified image of the held surface. Over four steady
    ticks whose detections are fail, success with rectified image [T1],
    fail, success with rectified image [T2], started with countdown 3, the
    rectified images handed to [display] are none, [T1], [T1], [T2]
    (resized to height 300), and the surface returned is the second. *)
Theorem held_surface_reemitted {ty : ImageTypes} {cv : ImagePrimitives} :
  (forall (t : Tick) (st : LoopState) (w : World) (f T : Pixels)
          (held : PlayingSurface) (c' : Z) (ct' : float),
     frame t = Some f -> detection_fails f ->
     valid_surface st = Some held ->
     heap w !! transform held = Some T ->
     countdown t st = Ok (c', ct') ->
     let small := imutils_resize f 300 in
     exists ext,
       iteration t st w
       = Ok (mkLoopState c' ct' (Some held),
             mkWorld (heap w ++ ext)
               (screen w
                ++ DisplayCall (timer_image small c') (not_found_image small)
                     (Some (imutils_resize T 300))
                   :: windows (timer_image small c') (not_found_image small)
                        (Some (imutils_resize T 300)))))
  /\ (forall (stamp : string) (t1 t2 t3 t4 : Tick) (f1 f2 f3 f4 T1 T2 : Pixels)
             (c0 c1 c2 c3 c4 : float) (w : World),
        clock_reading stamp = Ok c0 ->
        beats c0 t1 c1 -> beats c1 t2 c2 -> beats c2 t3 c3 -> beats c3 t4 c4 ->
        frame t1 = Some f1 -> frame t2 = Some f2 ->
        frame t3 = Some f3 -> frame t4 = Some f4 ->
        detection_fails f1 -> detection_yields f2 T1 ->
        detection_fails f3 -> detection_yields f4 T2 ->
        exists ps w',
          get_surface stamp [t1; t2; t3; t4] 3 w = Ok (Returned (Some ps), w')
          /\ heap w' !! transform ps = Some T2
          /\ shown (screen w')
             = shown (screen w)
               ++ [None; Some (imutils_resize T1 300);
                   Some (imutils_resize T1 300); Some (imutils_resize T2 300)]).
Proof.
  split.
  - intros t st w f T held c' ct' Hf Hfail Hv HT Hc small.
    assert (Hh : holds (heap w) (valid_surface st) (Some T)) by (rewrite Hv; exact HT).
    destruct (iteration_miss t st w f (Some T) c' ct' Hf Hfail Hc Hh) as [ext Hit].
    cbv zeta in Hit. rewrite Hv in Hit. exists ext. exact Hit.
  - intros stamp t1 t2 t3 t4 f1 f2 f3 f4 T1 T2 c0 c1 c2 c3 c4 w
           Hclock B1 B2 B3 B4 F1 F2 F3 F4 D1 D2 D3 D4.
    assert (Hrun : steady_run c0 None [t1; t2; t3; t4]
                     [None; Some (imutils_resize T1 300);
                      Some (imutils_resize T1 300); Some (imutils_resize T2 300)]
                     (Some T2)).
    { apply (steady_miss c0 None t1 _ f1 c1 _ _ F1 D1 B1).
      apply (steady_hit c1 None t2 _ f2 T1 c2 _ _ F2 D2 B2).
      apply (steady_miss c2 (Some T1) t3 _ f3 c3 _ _ F3 D3 B3).
      apply (steady_hit c3 (Some T1) t4 _ f4 T2 c4 _ _ F4 D4 B4).
      constructor. }
    destruct (get_surface_steady stamp c0 [t1; t2; t3; t4] [] _ _ 3 w Hclock Hrun eq_refl)
      as (v & ext & scr' & Hget & Hh & Hshown).
    destruct v as [ps|]; [|contradiction]. cbn [holds] in Hh.
    exists ps, (mkWorld (heap w ++ ext) scr').
    split; [exact Hget|]. split; [exact Hh | exact Hshown].
Qed.

(** ** Concrete runs *)

(** *** The small interpretation at work *)

Lemma blank_frame_fails : detection_fails (ty := Sketch.types) Sketch.blank_frame.
Proof. apply detection_fails_no_candidate. vm_compute. reflexivity. Qed.

Lemma table_frame_yields :
  detection_yields (ty := Sketch.types) Sketch.table_frame
    (Sketch.rectified Sketch.table_frame).
Proof.
  assert (Hplan : exists m,
            rectification
              (F64.div (F64.of_Z (fst (shape Sketch.table_frame))) image_resize_value)
              Sketch.quad = Ok (m, 1440, 800))
    by (eexists; vm_compute; reflexivity).
  destruct Hplan as [m Hplan].
  refine (detection_yields_accepted (ty := Sketch.types) Sketch.table_frame 0 Sketch.quad m
            _ Hplan _); vm_compute; reflexivity.
Qed.

Lemma table_frame2_yields :
  detection_yields (ty := Sketch.types) Sketch.table_frame2
    (Sketch.rectified Sketch.table_frame2).
Proof.
  assert (Hplan : exists m,
            rectification
              (F64.div (F64.of_Z (fst (shape Sketch.table_frame2))) image_resize_value)
              Sketch.quad2 = Ok (m, 1440, 800))
    by (eexists; vm_compute; reflexivity).
  destruct Hplan as [m Hplan].
  refine (detection_yields_accepted (ty := Sketch.types) Sketch.table_frame2 0 Sketch.quad2 m
            _ Hplan _); vm_compute; reflexivity.
Qed.

Lemma stamp0_reading : clock_reading Sketch.stamp0 = Ok (F64.of_Z 0).
Proof. vm_compute. reflexivity. Qed.

Lemma tick1_beats : beats (F64.of_Z 0) Sketch.tick1 (Sketch.reading 15).
Proof. exists (Sketch.reading 15). repeat split; vm_compute; reflexivity. Qed.

Lemma tick2_beats : beats (Sketch.reading 15) Sketch.tick2 (F64.of_Z 3).
Proof. exists (F64.of_Z 3). repeat split; vm_compute; reflexivity. Qed.

Lemma tick3_beats : beats (F64.of_Z 3) Sketch.tick3 (Sketch.reading 45).
Proof. exists (Sketch.reading 45). repeat split; vm_compute; reflexivity. Qed.

Lemma tick4_beats : beats (Sketch.reading 45) Sketch.tick4 (F64.of_Z 6).
Proof. exists (F64.of_Z 6). repeat split; vm_compute; reflexivity. Qed.

(** Ten seconds later the reading is the same, and one second later it
    differs by exactly 1: in neither case does the clock test fire. *)
Example clock_test_misses :
  clock_reading "1700000010.000000" = clock_reading "1700000000.000000"
  /\ elapsed (F64.of_Z 0) (F64.of_Z 0) = false
  /\ clock_reading "1700000001.000000" = Ok (F64.of_Z 1)
  /\ elapsed (F64.of_Z 1) (F64.of_Z 0) = false.
Proof. repeat split; vm_compute; reflexivity. Qed.

Lemma classify_corners_roles_witness :
  classify_corners [(20, 3); (1, 2); (22, 15); (2, 13)]
  = Ok ((1, 2), (20, 3), (22, 15), (2, 13)).
Proof.
  apply classify_corners_roles.
  - apply perm_swap.
  - repeat constructor; simpl; lia.
  - reflexivity.
  - reflexivity.
  - reflexivity.
  - reflexivity.
  - reflexivity.
Defined.

(** C1 as stated fails: for the four distinct points below, in which no
    two sums and no two differences coincide, the corner assigned
    top-right is the one of the remaining two with the greater [x - y]. *)
Lemma top_right_has_not_min_x_minus_y :
  classify_corners [(1, 2); (20, 3); (22, 15); (2, 13)]
  = Ok ((1, 2), (20, 3), (22, 15), (2, 13))
  /\ NoDup [(1, 2); (20, 3); (22, 15); (2, 13) : Point]
  /\ NoDup (map psum [(1, 2); (20, 3); (22, 15); (2, 13)])
  /\ NoDup (map pdiff [(1, 2); (20, 3); (22, 15); (2, 13)])
  /\ ~ (fst (20, 3) - snd (20, 3) <= fst (2, 13) - snd (2, 13)).
Proof.
  split; [reflexivity|].
  split; [compute_done|].
  split; [compute_done|].
  split; [compute_done|].
  simpl. lia.
Qed.

Lemma classify_corners_completes_witness :
  (exists tl tr br bl,
     classify_corners [(5, 5); (5, 5); (7, 3); (4, 6)] = Ok (tl, tr, br, bl))
  /\ exists r w',
       detect (ty := Sketch.types) (Some 0%nat) (Sketch.holding Sketch.twin_frame)
       = Ok (r, w').
Proof.
  destruct (classify_corners_completes (ty := Sketch.types) Sketch.twin)
    as (tl & tr & br & bl & H & _ & _ & _ & Hdetect).
  - reflexivity.
  - repeat constructor; simpl; lia.
  - intros [_ Hout]. apply Hout. left.
  - split; [exists tl, tr, br, bl; exact H|].
    apply (Hdetect (Sketch.holding Sketch.twin_frame) 0%nat Sketch.twin_frame 0).
    + reflexivity.
    + cbn. lia.
    + vm_compute. reflexivity.
Defined.

(** C8 as stated fails: four collinear points of equal coordinate sum make
    the classification, and [detect] with it, raise ValueError. *)
Lemma classify_corners_raises :
  length Sketch.streak = 4%nat
  /\ classify_corners Sketch.streak = Raise ValueError
  /\ detect (Some 0%nat) (Sketch.holding Sketch.streak_frame) = Raise ValueError.
Proof. repeat split; vm_compute; reflexivity. Qed.

Lemma sketch_steady_two :
  steady_run (F64.of_Z 0) None [Sketch.tick1; Sketch.tick2]
    [None; Some (imutils_resize (Sketch.rectified Sketch.table_frame) 300)]
    (Some (Sketch.rectified Sketch.table_frame)).
Proof.
  apply (steady_miss _ None Sketch.tick1 _ Sketch.blank_frame (Sketch.reading 15) _ _
           eq_refl blank_frame_fails tick1_beats).
  apply (steady_hit _ None Sketch.tick2 _ Sketch.table_frame _ (F64.of_Z 3) _ _
           eq_refl table_frame_yields tick2_beats).
  constructor.
Defined.

Lemma get_surface_countdown_witness :
  exists v ext scr',
    get_surface Sketch.stamp0 [Sketch.tick1; Sketch.tick2] 1 Sketch.empty_world
    = Ok (Returned v, mkWorld ext scr')
    /\ holds ext v (Some (Sketch.rectified Sketch.table_frame)).
Proof.
  exact (proj1 (get_surface_countdown 1 Sketch.stamp0 (F64.of_Z 0)
                  [Sketch.tick1; Sketch.tick2] _ _ Sketch.empty_world
                  stamp0_reading sketch_steady_two eq_refl) []).
Defined.

(** C2 as stated fails: started with requested count 1 and ticks a second
    and a half apart, the loop is still running after the first tick and
    its one decrement, with the countdown at 1; it returns after the
    second. *)
Lemma get_surface_takes_one_more_decrement :
  (exists st w',
     get_surface Sketch.stamp0 [Sketch.tick1] 1 Sketch.empty_world
     = Ok (Running st, w')
     /\ count st = 1)
  /\ (exists v w',
        get_surface Sketch.stamp0 [Sketch.tick1; Sketch.tick2] 1 Sketch.empty_world
        = Ok (Returned v, w'))
  /\ elapsed (Sketch.reading 15) (F64.of_Z 0) = true
  /\ elapsed (F64.of_Z 3) (Sketch.reading 15) = true.
Proof.
  split; [eexists _, _; vm_compute; split; reflexivity|].
  split; [eexists _, _; vm_compute; reflexivity|].
  split; vm_compute; reflexivity.
Qed.

Lemma held_surface_reemitted_witness :
  (exists ps w',
     get_surface Sketch.stamp0 [Sketch.tick1; Sketch.tick2; Sketch.tick3; Sketch.tick4] 3
       Sketch.empty_world
     = Ok (Returned (Some ps), w')
     /\ heap w' !! transform ps = Some (Sketch.rectified Sketch.table_frame2)
     /\ shown (screen w')
        = [None;
           Some (imutils_resize (Sketch.rectified Sketch.table_frame) 300);
           Some (imutils_resize (Sketch.rectified Sketch.table_frame) 300);
           Some (imutils_resize (Sketch.rectified Sketch.table_frame2) 300)])
  /\ (exists w',
        iteration Sketch.tick3
          (mkLoopState 2 (F64.of_Z 3) (Some Sketch.held_table))
          (Sketch.holding (Sketch.rectified Sketch.table_frame))
        = Ok (mkLoopState 1 (Sketch.reading 45) (Some Sketch.held_table), w')
        /\ shown (screen w')
           = [Some (imutils_resize (Sketch.rectified Sketch.table_frame) 300)]).
Proof.
  split.
  - exact (proj2 held_surface_reemitted Sketch.stamp0
             Sketch.tick1 Sketch.tick2 Sketch.tick3 Sketch.tick4
             Sketch.blank_frame Sketch.table_frame Sketch.blank_frame Sketch.table_frame2
             (Sketch.rectified Sketch.table_frame) (Sketch.rectified Sketch.table_frame2)
             _ _ _ _ _ Sketch.empty_world
             stamp0_reading tick1_beats tick2_beats tick3_beats tick4_beats
             eq_refl eq_refl eq_refl eq_refl
             blank_frame_fails table_frame_yields blank_frame_fails table_frame2_yields).
  - destruct (proj1 held_surface_reemitted Sketch.tick3
                (mkLoopState 2 (F64.of_Z 3) (Some Sketch.held_table))
                (Sketch.holding (Sketch.rectified Sketch.table_frame))
                Sketch.blank_frame (Sketch.rectified Sketch.table_frame)
                Sketch.held_table 1 (Sketch.reading 45)
                eq_refl blank_frame_fails eq_refl eq_refl) as [ext Hit].
    + vm_compute. reflexivity.
    + eexists. split; [exact Hit|]. cbn [screen Sketch.holding].
      rewrite shown_display. reflexivity.
Defined.

(** ** The clock, the countdown text and the stability of the ranking *)

(** *** The clock *)

Lemma digit_of_char (d : Z) : decimal_digit d -> digit_of (digit_char d) = Some d.
Proof.
  unfold decimal_digit. intros H.
  assert (E : d = 0 \/ d = 1 \/ d = 2 \/ d = 3 \/ d = 4 \/ d = 5 \/ d = 6 \/ d = 7
              \/ d = 8 \/ d = 9) by lia.
  repeat (destruct E as [-> | E]; [reflexivity|]). subst d. reflexivity.
Qed.

(** The text ["d.f"] read by [float]. *)
Lemma py_float_tenths (c f : Ascii.ascii) (d e : Z) :
  digit_of c = Some d -> digit_of f = Some e ->
  py_float (String c (String.append "." (String f EmptyString)))
  = Ok (tenths (10 * d + e)).
Proof.
  intros Hc Hf. unfold py_float.
  change (String.append "." (String f EmptyString))
    with (String (Ascii.ascii_of_nat 46) (String f EmptyString)).
  cbn [read_digits]. rewrite Hc.
  change (digit_of (Ascii.ascii_of_nat 46)) with (@None Z). cbv iota beta.
  change (Ascii.nat_of_ascii (Ascii.ascii_of_nat 46) =? 46)%nat with true. cbv iota.
  cbn [read_digits]. rewrite Hf. cbn [read_digits]. cbv iota beta.
  change (1 + 1 =? 0)%nat with false. cbv iota.
  unfold tenths. do 3 f_equal. change (10 ^ Z.of_nat 1) with 10. lia.
Qed.

(** X1. For the text of strftime('%s.%f') with ten digits of seconds and
    six of microseconds, the clock reading is [d.f] for the last digit [d]
    of the seconds and the first digit [f] of the microseconds: the time
    modulo ten seconds, cut to tenths. *)
Theorem clock_reading_tenths (secs micros : list Z) :
  length secs = 10%nat -> length micros = 6%nat ->
  Forall decimal_digit secs -> Forall decimal_digit micros ->
  exists d f,
    secs !! 9%nat = Some d /\ micros !! 0%nat = Some f
    /\ clock_reading (strftime_text secs micros) = Ok (tenths (10 * d + f)).
Proof.
  intros Hs Hm Ds Dm.
  do 10 (destruct secs as [|? secs]; [discriminate|]).
  destruct secs; [|discriminate].
  do 6 (destruct micros as [|? micros]; [discriminate|]).
  destruct micros; [|discriminate].
  match goal with
  | |- context [strftime_text [_; _; _; _; _; _; _; _; _; ?d] (?f :: _)] =>
      exists d, f; split; [reflexivity|]; split; [reflexivity|];
      assert (Hd : decimal_digit d)
        by (rewrite Forall_forall in Ds; apply Ds; repeat constructor);
      assert (Hf : decimal_digit f)
        by (rewrite Forall_forall in Dm; apply Dm; repeat constructor);
      apply digit_of_char in Hd; apply digit_of_char in Hf;
      exact (py_float_tenths _ _ _ _ Hd Hf)
  end.
Qed.

Lemma clock_reading_tenths_witness :
  clock_reading "1700000007.423456" = Ok (tenths 74).
Proof.
  destruct (clock_reading_tenths [1; 7; 0; 0; 0; 0; 0; 0; 0; 7] [4; 2; 3; 4; 5; 6])
    as (d & f & [= <-] & [= <-] & H).
  - reflexivity.
  - reflexivity.
  - repeat constructor; unfold decimal_digit; lia.
  - repeat constructor; unfold decimal_digit; lia.
  - exact H.
Defined.

Lemma clock_test_table :
  forallb (fun a =>
    forallb (fun b =>
      Bool.eqb (elapsed (tenths a) (tenths b))
               ((10 <? Z.abs (a - b)) || rounds_over a b))
      (seqZ 0 100))
    (seqZ 0 100) = true.
Proof. vm_compute. reflexivity. Qed.

(** X2. On two clock readings, given in tenths of a second from 0.0 to
    9.9, the test [abs(test_time - curr_time) > 1] holds exactly when they
    differ by more than ten tenths, or by exactly ten tenths on the six
    pairs whose binary64 difference is rounded above 1. *)
Theorem clock_test_tenths (a b : Z) :
  0 <= a < 100 -> 0 <= b < 100 ->
  elapsed (tenths a) (tenths b) = (10 <? Z.abs (a - b)) || rounds_over a b.
Proof.
  intros Ha Hb. pose proof clock_test_table as T.
  rewrite forallb_forall in T.
  assert (Ia : In a (seqZ 0 100)) by (apply list_elem_of_In, elem_of_seqZ; lia).
  assert (Ib : In b (seqZ 0 100)) by (apply list_elem_of_In, elem_of_seqZ; lia).
  pose proof (T a Ia) as Tb. cbv beta in Tb. rewrite forallb_forall in Tb.
  apply Bool.eqb_prop. exact (Tb b Ib).
Qed.

Lemma clock_test_tenths_witness :
  elapsed (tenths 22) (tenths 12) = true
  /\ elapsed (tenths 23) (tenths 13) = false
  /\ elapsed (tenths 1) (tenths 99) = true.
Proof.
  split; [|split].
  - rewrite (clock_test_tenths 22 12) by lia. reflexivity.
  - rewrite (clock_test_tenths 23 13) by lia. reflexivity.
  - rewrite (clock_test_tenths 1 99) by lia. reflexivity.
Defined.

(** *** The countdown text *)

Lemma format_02d_table :
  forallb (fun c => String.eqb (format_02d c) (digits_text [c / 10; c mod 10]))
    (seqZ 0 100) = true.
Proof. vm_compute. reflexivity. Qed.

(** X3. For a count from 0 to 99 the text [format(count, '02d')] drawn by
    [timer] is made of the two decimal digits of the count, the tens
    first: a count below 10 gets a leading zero. *)
Theorem format_02d_two_digits (count : Z) :
  0 <= count < 100 -> format_02d count = digits_text [count / 10; count mod 10].
Proof.
  intros H. pose proof format_02d_table as T. rewrite forallb_forall in T.
  apply String.eqb_eq, T, list_elem_of_In, elem_of_seqZ. lia.
Qed.

Lemma format_02d_two_digits_witness : format_02d 7 = "07".
Proof. apply (format_02d_two_digits 7). lia. Defined.

(** *** Stability of the ranking *)

Lemma lex_eq (a b : Z * Z * Z) : lex a b = Eq -> a = b.
Proof.
  destruct a as [[a1 a2] a3], b as [[b1 b2] b3]; unfold lex; simpl.
  destruct (Z.compare_spec a1 b1); try discriminate.
  destruct (Z.compare_spec a2 b2); try discriminate.
  destruct (Z.compare_spec a3 b3); try discriminate. congruence.
Qed.

Lemma lex_refl (a : Z * Z * Z) : lex a a = Eq.
Proof. destruct a as [[a1 a2] a3]; unfold lex; simpl. rewrite !Z.compare_refl. reflexivity. Qed.

Lemma eqb_number (x k : float) :
  SFeqb x k = true ->
  F64.is_nan x = false /\ F64.is_nan k = false /\ ord x = ord k.
Proof.
  intros H.
  assert (Hx : F64.is_nan x = false) by (destruct x; try reflexivity; discriminate).
  assert (Hk : F64.is_nan k = false)
    by (destruct x, k; try reflexivity; discriminate).
  split; [exact Hx|]. split; [exact Hk|].
  unfold SFeqb in H. rewrite (SFcompare_lex x k Hx Hk) in H.
  apply lex_eq. destruct (lex (ord x) (ord k)); [reflexivity | discriminate ..].
Qed.

Lemma eqb_not_ltb (x y k : float) :
  SFeqb x k = true -> SFeqb y k = true -> F64.ltb x y = false.
Proof.
  intros Hx Hy.
  destruct (eqb_number x k Hx) as (Nx & _ & Ex).
  destruct (eqb_number y k Hy) as (Ny & _ & Ey).
  unfold F64.ltb, SFltb. rewrite (SFcompare_lex x y Nx Ny), Ex, Ey, lex_refl. reflexivity.
Qed.

Lemma insert_desc_filter {A} (key : A -> float) (k : float) (x : A) (l : list A) :
  List.filter (fun y => SFeqb (key y) k) (insert_desc key x l)
  = List.filter (fun y => SFeqb (key y) k) (x :: l).
Proof.
  induction l as [|y l IH]; [reflexivity|].
  cbn [insert_desc]. destruct (F64.ltb (key x) (key y)) eqn:Hlt; [|reflexivity].
  cbn [List.filter] in IH |- *. rewrite IH.
  destruct (SFeqb (key x) k) eqn:Ex, (SFeqb (key y) k) eqn:Ey; try reflexivity.
  rewrite (eqb_not_ltb _ _ _ Ex Ey) in Hlt. discriminate.
Qed.

(** X4. The ranking [sorted(contours, key=cv2.contourArea, reverse=True)]
    is stable: the contours whose area equals a given number come out in
    the order in which they went in, so of two contours of equal area the
    one found first is the first to be tried as the surface outline. *)
Theorem sorted_reverse_stable {A} (key : A -> float) (k : float) (l : list A) :
  List.filter (fun y => SFeqb (key y) k) (sorted_reverse key l)
  = List.filter (fun y => SFeqb (key y) k) l.
Proof.
  induction l as [|x l IH]; [reflexivity|].
  change (sorted_reverse key (x :: l)) with (insert_desc key x (sorted_reverse key l)).
  rewrite insert_desc_filter. cbn [List.filter]. rewrite IH. reflexivity.
Qed.

(** ** The acquisition loop, iteration by iteration *)

Section IterationFacts.
Context {ty : ImageTypes} {cv : ImagePrimitives}.

Ltac norm_heap :=
  cbn [heap screen]; rewrite <- ?app_assoc; cbn [app];
  rewrite ?length_app; cbn [length].

Ltac find_heap :=
  cbn [heap];
  first [ eassumption
        | apply heap_old; eassumption
        | rewrite heap_new0; reflexivity
        | rewrite heap_new; reflexivity ].

Lemma bind_resize_none {B} (l : loc) (h : Z) (k : loc -> M B) (w : World) :
  heap w !! l = None -> bind (resize l h) k w = Raise AttributeError.
Proof. intros H. unfold resize, bind, read. rewrite H. reflexivity. Qed.

(** [present] on a grabbed frame, statement by statement. *)
Lemma present_unfold (t : Tick) (st : LoopState) (w : World) (l : loc) (f : Pixels)
    (r : option PlayingSurface) :
  heap w !! l = Some f ->
  present t st (Some l) r w =
    let small := imutils_resize f 300 in
    match countdown t st with
    | Raise e => Raise e
    | Ok (c', ct') =>
        let h1 := heap w ++ [small; small; timer_image small c'] in
        match r with
        | Some ps =>
            match h1 !! img_cnt ps with
            | None => Raise AttributeError
            | Some K =>
                let h2 := h1 ++ [imutils_resize K 300; imutils_resize K 300] in
                match h2 !! transform ps with
                | None => Raise AttributeError
                | Some T =>
                    Ok (mkLoopState c' ct' (Some ps),
                        mkWorld (h2 ++ [imutils_resize T 300; imutils_resize T 300])
                          (screen w
                           ++ DisplayCall (timer_image small c') (imutils_resize K 300)
                                (Some (imutils_resize T 300))
                              :: windows (timer_image small c') (imutils_resize K 300)
                                   (Some (imutils_resize T 300))))
                end
            end
        | None =>
            let h2 := h1 ++ [not_found_image small] in
            match valid_surface st with
            | Some held =>
                match h2 !! transform held with
                | None => Raise AttributeError
                | Some T =>
                    Ok (mkLoopState c' ct' (Some held),
                        mkWorld (h2 ++ [imutils_resize T 300])
                          (screen w
                           ++ DisplayCall (timer_image small c') (not_found_image small)
                                (Some (imutils_resize T 300))
                              :: windows (timer_image small c') (not_found_image small)
                                   (Some (imutils_resize T 300))))
                end
            | None =>
                Ok (mkLoopState c' ct' None,
                    mkWorld h2
                      (screen w
                       ++ DisplayCall (timer_image small c') (not_found_image small) None
                          :: windows (timer_image small c') (not_found_image small) None))
            end
        end
    end.
Proof.
  intros Hl. cbv zeta. destruct w as [h scr]. cbn [heap screen] in *.
  unfold present. cbn [deref]. rewrite bind_ret.
  rewrite (bind_resize l f) by find_heap. norm_heap.
  rewrite (bind_deepcopy _ (imutils_resize f 300)) by find_heap. norm_heap.
  rewrite (bind_deepcopy _ (imutils_resize f 300)) by find_heap. norm_heap.
  destruct (countdown t st) as [[c' ct']|e] eqn:Hc;
    [rewrite (bind_lift_ok _ _ _ _ eq_refl)
    | rewrite (bind_lift_raise _ e) by reflexivity; reflexivity].
  rewrite (bind_timer _ (imutils_resize f 300)) by find_heap. norm_heap.
  rewrite insert_app_r. cbn [insert list_insert].
  destruct r as [ps|].
  - match goal with
    | |- context [bind (resize (img_cnt ps) 300) _ (mkWorld ?hh _)] =>
        destruct (hh !! img_cnt ps) as [K|] eqn:HK
    end; [|rewrite bind_resize_none by exact HK; reflexivity].
    rewrite (bind_resize _ K) by exact HK. norm_heap.
    rewrite (bind_deepcopy _ (imutils_resize K 300)) by find_heap. norm_heap.
    match goal with
    | |- context [bind (resize (transform ps) 300) _ (mkWorld ?hh _)] =>
        destruct (hh !! transform ps) as [T|] eqn:HT
    end; [|rewrite bind_resize_none by exact HT; reflexivity].
    rewrite (bind_resize _ T) by exact HT. norm_heap.
    rewrite (bind_deepcopy _ (imutils_resize T 300)) by find_heap. norm_heap.
    rewrite (bind_display _ _ (Some _) (timer_image (imutils_resize f 300) c')
               (imutils_resize K 300) (Some (imutils_resize T 300)))
      by find_heap.
    reflexivity.
  - rewrite (bind_deepcopy _ (imutils_resize f 300)) by find_heap. norm_heap.
    rewrite (bind_not_found _ (imutils_resize f 300)) by find_heap. norm_heap.
    rewrite insert_app_r. cbn [insert list_insert].
    destruct (valid_surface st) as [held|].
    + match goal with
      | |- context [bind (resize (transform held) 300) _ (mkWorld ?hh _)] =>
          destruct (hh !! transform held) as [T|] eqn:HT
      end; [|rewrite bind_resize_none by exact HT; reflexivity].
      rewrite (bind_resize _ T) by exact HT. norm_heap.
      rewrite (bind_display _ _ (Some _) (timer_image (imutils_resize f 300) c')
                 (not_found_image (imutils_resize f 300)) (Some (imutils_resize T 300)))
        by find_heap.
      reflexivity.
    + rewrite (bind_display _ _ None (timer_image (imutils_resize f 300) c')
                 (not_found_image (imutils_resize f 300)) None)
        by (try find_heap; exact I).
      reflexivity.
Qed.


Lemma countdown_returns (t : Tick) (st : LoopState) (c' : Z) (ct' : float) :
  countdown t st = Ok (c', ct') ->
  exists test,
    clock_reading (stamp_test t) = Ok test
    /\ if negb (count st =? 0) && elapsed test (curr_time st)
       then c' = count st - 1 /\ clock_reading (stamp_reset t) = Ok ct'
       else c' = count st /\ ct' = curr_time st.
Proof.
  unfold countdown.
  destruct (clock_reading (stamp_test t)) as [test|]; [|discriminate].
  cbn [rbind]. intros H. exists test. split; [reflexivity|].
  destruct (negb (count st =? 0) && elapsed test (curr_time st)).
  - destruct (clock_reading (stamp_reset t)) as [now|]; [|discriminate].
    cbn [rbind] in H. injection H as <- <-. auto.
  - injection H as <- <-. auto.
Qed.

(** Every way in which one iteration completes. *)
Lemma iteration_returns (t : Tick) (st st' : LoopState) (w w' : World) :
  iteration t st w = Ok (st', w') ->
  exists f r ext k tr,
    frame t = Some f
    /\ (exists w1,
          detect (Some (length (heap w))) (mkWorld (heap w ++ [f]) (screen w))
          = Ok (r, w1))
    /\ countdown t st = Ok (count st', curr_time st')
    /\ valid_surface st'
       = match r with Some ps => Some ps | None => valid_surface st end
    /\ heap w' = heap w ++ ext
    /\ screen w'
       = screen w
         ++ DisplayCall (timer_image (imutils_resize f 300) (count st')) k tr
            :: windows (timer_image (imutils_resize f 300) (count st')) k tr
    /\ (r = None -> k = not_found_image (imutils_resize f 300))
    /\ match valid_surface st' with
       | None => tr = None
       | Some ps =>
           exists T, heap w' !! transform ps = Some T
                     /\ tr = Some (imutils_resize T 300)
       end.
Proof.
  unfold iteration, cap_read. destruct (frame t) as [f|] eqn:Hf.
  - rewrite bind_assoc, bind_alloc, bind_ret.
    assert (Hl : heap (mkWorld (heap w ++ [f]) (screen w)) !! length (heap w) = Some f)
      by find_heap.
    unfold bind at 1.
    match goal with
    | |- match ?d with Ok _ => _ | Raise _ => _ end = _ -> _ =>
        destruct d as [[r w1]|e] eqn:Hdet; [|discriminate]
    end.
    destruct (detect_extends _ w1 _ f r Hl Hdet) as (working & rest & Hheap & Hscr & _).
    assert (Hl1 : heap w1 !! length (heap w) = Some f)
      by (rewrite Hheap; apply heap_old; exact Hl).
    rewrite (present_unfold t st w1 _ f r Hl1). cbv zeta.
    destruct (countdown t st) as [[c' ct']|e]; [|discriminate].
    rewrite Hheap, Hscr. cbn [heap screen].
    destruct r as [ps|].
    + destruct (_ !! img_cnt ps) as [K|] eqn:HK; [|discriminate].
      destruct (_ !! transform ps) as [T|] eqn:HT; [|discriminate].
      intros [= <- <-]. cbn [count curr_time valid_surface heap screen].
      exists f, (Some ps). eexists _, _, _.
      split; [reflexivity|]. split; [exists w1; exact Hdet|].
      split; [reflexivity|]. split; [reflexivity|].
      split; [rewrite <- !app_assoc; reflexivity|].
      split; [reflexivity|]. split; [discriminate|].
      exists T. split; [apply heap_old; exact HT | reflexivity].
    + destruct (valid_surface st) as [held|] eqn:Hv.
      * destruct (_ !! transform held) as [T|] eqn:HT; [|discriminate].
        intros [= <- <-]. cbn [count curr_time valid_surface heap screen].
        exists f, None. eexists _, _, _.
        split; [reflexivity|]. split; [exists w1; exact Hdet|].
        split; [reflexivity|]. split; [reflexivity|].
        split; [rewrite <- !app_assoc; reflexivity|].
        split; [reflexivity|]. split; [reflexivity|].
        exists T. split; [apply heap_old; exact HT | reflexivity].
      * intros [= <- <-]. cbn [count curr_time valid_surface heap screen].
        exists f, None. eexists _, _, _.
        split; [reflexivity|]. split; [exists w1; exact Hdet|].
        split; [reflexivity|]. split; [reflexivity|].
        split; [rewrite <- !app_assoc; reflexivity|].
        split; [reflexivity|]. split; reflexivity.
  - rewrite bind_ret. discriminate.
Qed.

Lemma iteration_no_frame (t : Tick) (st : LoopState) (w : World) :
  frame t = None -> iteration t st w = Raise AttributeError.
Proof. intros Hf. unfold iteration, cap_read. rewrite Hf. reflexivity. Qed.

(** The loop only adds arrays and window calls. *)
Lemma while_loop_extends (ticks : list Tick) :
  forall (st : LoopState) (w : World) (e : LoopEnd) (w' : World),
  while_loop ticks st w = Ok (e, w') ->
  (exists ext, heap w' = heap w ++ ext) /\ exists evs, screen w' = screen w ++ evs.
Proof.
  induction ticks as [|t ticks IH]; intros st w e w'; cbn [while_loop].
  - destruct (count st =? 0); intros [= <- <-]; split; exists []; rewrite app_nil_r; reflexivity.
  - destruct (count st =? 0).
    + intros [= <- <-]; split; exists []; rewrite app_nil_r; reflexivity.
    + unfold bind at 1. destruct (iteration t st w) as [[st1 w1]|] eqn:Hit; [|discriminate].
      destruct (iteration_returns _ _ _ _ _ Hit)
        as (f & r & ext & k & tr & _ & _ & _ & _ & Hheap & Hscr & _).
      destruct (cancel_key (key t)).
      * intros [= <- <-]. cbn [heap screen]. rewrite Hheap, Hscr. split.
        -- exists ext. reflexivity.
        -- eexists. rewrite <- app_assoc. reflexivity.
      * intros Hrest. destruct (IH _ _ _ _ Hrest) as [[ext' Hh] [evs' Hs]].
        rewrite Hh, Hs, Hheap, Hscr. split.
        -- exists (ext ++ ext'). rewrite app_assoc. reflexivity.
        -- eexists. rewrite <- app_assoc. reflexivity.
Qed.

(** A countdown below zero stays below zero. *)
Lemma while_loop_negative (ticks : list Tick) :
  forall (st : LoopState) (w : World) (e : LoopEnd) (w' : World),
  Forall (fun t => cancel_key (key t) = false) ticks ->
  count st < 0 ->
  while_loop ticks st w = Ok (e, w') ->
  exists st', e = Starved st' /\ count st' < 0.
Proof.
  induction ticks as [|t ticks IH]; intros st w e w' Hkeys Hneg; cbn [while_loop];
    destruct (Z.eqb_spec (count st) 0) as [E | _]; try lia.
  - intros [= <- <-]. exists st. auto.
  - unfold bind at 1. destruct (iteration t st w) as [[st1 w1]|] eqn:Hit; [|discriminate].
    destruct (iteration_returns _ _ _ _ _ Hit)
      as (f & r & ext & k & tr & _ & _ & Hc & _).
    destruct (countdown_returns _ _ _ _ Hc) as (test & _ & Hstep).
    inversion Hkeys as [|? ? Hk Hkeys']; subst. rewrite Hk.
    apply IH; [exact Hkeys'|].
    destruct (negb _ && _); lia.
Qed.

(** Ticks at which the clock test does not hold leave the countdown
    where it is. *)
Lemma while_loop_stalled (curr0 : float) (ticks : list Tick) :
  forall (st : LoopState) (w : World) (e : LoopEnd) (w' : World),
  Forall (fun t => cancel_key (key t) = false
                   /\ exists test, clock_reading (stamp_test t) = Ok test
                                   /\ elapsed test curr0 = false) ticks ->
  curr_time st = curr0 ->
  count st <> 0 ->
  while_loop ticks st w = Ok (e, w') ->
  exists st', e = Starved st' /\ count st' = count st /\ curr_time st' = curr0.
Proof.
  induction ticks as [|t ticks IH]; intros st w e w' Hticks Hcurr Hne; cbn [while_loop];
    destruct (Z.eqb_spec (count st) 0) as [E | _]; try contradiction.
  - intros [= <- <-]. exists st. auto.
  - unfold bind at 1. destruct (iteration t st w) as [[st1 w1]|] eqn:Hit; [|discriminate].
    destruct (iteration_returns _ _ _ _ _ Hit)
      as (f & r & ext & k & tr & _ & _ & Hc & _).
    destruct (countdown_returns _ _ _ _ Hc) as (test & Htest & Hstep).
    inversion Hticks as [|? ? [Hk (test' & Htest' & Hel)] Hticks']; subst.
    rewrite Htest in Htest'. injection Htest' as <-.
    rewrite Hel, Bool.andb_false_r in Hstep. destruct Hstep as [Hc1 Ht1].
    rewrite Hk. intros Hrest.
    destruct (IH st1 w1 e w' Hticks' Ht1 ltac:(lia) Hrest) as (st' & -> & Hc' & Ht').
    exists st'. split; [reflexivity|]. split; [lia | exact Ht'].
Qed.

Lemma originals_app (a b : list Event) : originals (a ++ b) = originals a ++ originals b.
Proof. unfold originals. apply omap_app. Qed.

Lemma originals_display (scr : list Event) (c k : Pixels) (t : option Pixels) :
  originals (scr ++ DisplayCall c k t :: windows c k t) = originals scr ++ [c].
Proof.
  rewrite originals_app. f_equal. unfold windows, originals.
  destruct t as [p|]; [destruct (any_nonzero p)|]; reflexivity.
Qed.

Lemma originals_destroy (scr : list Event) :
  originals (scr ++ [DestroyAllWindows]) = originals scr.
Proof. rewrite originals_app. cbn. apply app_nil_r. Qed.

(** The countdown frames of a steady run. *)
Lemma while_loop_steady_originals (ticks : list Tick) (es : list (option Pixels))
    (h h' : option Pixels) (curr : float) :
  steady_run curr h ticks es h' ->
  forall (st : LoopState) (w : World),
  curr_time st = curr ->
  Z.of_nat (length ticks) <= count st ->
  holds (heap w) (valid_surface st) h ->
  exists st' w',
    (forall more, while_loop (ticks ++ more) st w = while_loop more st' w')
    /\ count st' = count st - Z.of_nat (length ticks)
    /\ holds (heap w') (valid_surface st') h'
    /\ originals (screen w')
       = originals (screen w) ++ countdown_frames (count st - 1) ticks.
Proof.
  induction 1 as [curr h | curr h t ts f now es h' Hf Hfail Hbeat Hrun IH
                        | curr h t ts f T now es h' Hf Hyield Hbeat Hrun IH];
    intros st w Hcurr Hcount Hh.
  - exists st, w. repeat split.
    + cbn [length]. lia.
    + exact Hh.
    + cbn [countdown_frames]. rewrite app_nil_r. reflexivity.
  - cbn [length] in Hcount. subst curr.
    assert (Hne : count st <> 0) by lia.
    pose proof (beats_countdown t st now Hbeat Hne) as Hcd.
    destruct (iteration_miss t st w f h _ _ Hf Hfail Hcd Hh) as [ext Hit].
    cbv zeta in Hit.
    match type of Hit with _ = Ok (?sx, ?wx) => set (st1 := sx) in *; set (w1 := wx) in * end.
    destruct (IH st1 w1 eq_refl) as (st' & w' & Hloop & Hc' & Hh' & Horig).
    { unfold st1. cbn [count]. lia. }
    { unfold st1, w1. cbn [valid_surface heap]. apply holds_extend. exact Hh. }
    exists st', w'. repeat split.
    + intros more. cbn [app while_loop].
      destruct (Z.eqb_spec (count st) 0) as [E | _]; [contradiction|].
      unfold bind at 1. rewrite Hit.
      destruct Hbeat as (_ & _ & _ & _ & ->). apply Hloop.
    + rewrite Hc'. unfold st1. cbn [count length]. lia.
    + exact Hh'.
    + rewrite Horig. unfold w1, st1. cbn [screen count]. rewrite originals_display.
      cbn [countdown_frames]. rewrite Hf, <- app_assoc. reflexivity.
  - cbn [length] in Hcount. subst curr.
    assert (Hne : count st <> 0) by lia.
    pose proof (beats_countdown t st now Hbeat Hne) as Hcd.
    destruct (iteration_hit t st w f T _ _ Hf Hyield Hcd) as (ext & ps & K & Hit & HT).
    cbv zeta in Hit.
    match type of Hit with _ = Ok (?sx, ?wx) => set (st1 := sx) in *; set (w1 := wx) in * end.
    destruct (IH st1 w1 eq_refl) as (st' & w' & Hloop & Hc' & Hh' & Horig).
    { unfold st1. cbn [count]. lia. }
    { unfold st1, w1. cbn [valid_surface heap holds]. exact HT. }
    exists st', w'. repeat split.
    + intros more. cbn [app while_loop].
      destruct (Z.eqb_spec (count st) 0) as [E | _]; [contradiction|].
      unfold bind at 1. rewrite Hit.
      destruct Hbeat as (_ & _ & _ & _ & ->). apply Hloop.
    + rewrite Hc'. unfold st1. cbn [count length]. lia.
    + exact Hh'.
    + rewrite Horig. unfold w1, st1. cbn [screen count]. rewrite originals_display.
      cbn [countdown_frames]. rewrite Hf, <- app_assoc. reflexivity.
Qed.

End IterationFacts.

(** ** The overlays, the windows and one iteration *)

(** *** The overlays and the windows *)

Lemma bind_ret_r {ty : ImageTypes} {A} (c : M A) (w : World) : bind c ret w = c w.
Proof. unfold bind, ret. destruct (c w) as [[a w']|e]; reflexivity. Qed.

(** X5. [timer(image, count)] draws into the array it is given and returns
    that same array: first the count in black, two pixels right of and
    below the text position, then the count at (380, 70), in red when the
    count is at most 3 or is even and at most 10, in white otherwise. No
    other array and no window is touched. *)
Theorem timer_draws_in_place {ty : ImageTypes} {cv : ImagePrimitives} (image : loc)
    (count : Z) (p : Pixels) (w : World) :
  heap w !! image = Some p ->
  exists colour,
    timer image count w
    = Ok (image,
          mkWorld
            (<[image :=
                 putText
                   (putText p (format_02d count) (382, 72) FONT_HERSHEY_SIMPLEX 2
                      (0, 0, 0) 3 LINE_AA)
                   (format_02d count) (380, 70) FONT_HERSHEY_SIMPLEX 2 colour 3 LINE_AA]>
               (heap w))
            (screen w))
    /\ (colour = (0, 0, 255) /\ (count <= 3 \/ count <= 10 /\ count mod 2 = 0)
        \/ colour = (255, 255, 255) /\ 3 < count /\ (10 < count \/ count mod 2 <> 0)).
Proof.
  intros Hl. rewrite <- bind_ret_r, (bind_timer image p) by exact Hl.
  unfold timer_image, ret. eexists. split; [reflexivity|].
  destruct (Z.leb_spec count 10), (Z.eqb_spec (count mod 2) 0), (Z.leb_spec count 3);
    cbn [andb]; first [left; split; [reflexivity | lia] | right; split; [reflexivity | lia]].
Qed.

Lemma timer_draws_in_place_witness :
  exists w', timer (ty := Sketch.types) 0%nat 7 (Sketch.holding Sketch.table_frame)
             = Ok (0%nat, w').
Proof.
  destruct (timer_draws_in_place (ty := Sketch.types) 0%nat 7 Sketch.table_frame
              (Sketch.holding Sketch.table_frame) eq_refl) as (colour & H & _).
  eexists. exact H.
Defined.

(** X6. [not_found(image)] draws into the array it is given and returns
    that same array: the text in black at (11, rows - 19), then in red at
    (10, rows - 20), twenty pixels above the lower edge of the image. No
    other array and no window is touched. *)
Theorem not_found_draws_in_place {ty : ImageTypes} {cv : ImagePrimitives} (image : loc)
    (p : Pixels) (w : World) :
  heap w !! image = Some p ->
  not_found image w
  = Ok (image,
        mkWorld
          (<[image :=
               putText
                 (putText p "Playing surface not found!" (11, fst (shape p) - 19)
                    FONT_HERSHEY_SIMPLEX 1 (0, 0, 0) 2 LINE_AA)
                 "Playing surface not found!" (10, fst (shape p) - 20)
                 FONT_HERSHEY_SIMPLEX 1 (0, 0, 255) 2 LINE_AA]>
             (heap w))
          (screen w)).
Proof.
  intros Hl. rewrite <- bind_ret_r, (bind_not_found image p) by exact Hl.
  unfold not_found_image, ret.
  replace (fst (shape p) - 20 + 1) with (fst (shape p) - 19) by lia. reflexivity.
Qed.

Lemma not_found_draws_in_place_witness :
  exists w', not_found (ty := Sketch.types) 0%nat (Sketch.holding Sketch.table_frame)
             = Ok (0%nat, w').
Proof.
  eexists.
  exact (not_found_draws_in_place (ty := Sketch.types) 0%nat Sketch.table_frame
           (Sketch.holding Sketch.table_frame) eq_refl).
Defined.

(** X7. [display] changes no array and closes no window. It shows the
    countdown image in the window Original at (50, 50) and the contoured
    image in Contoured, to the right of it by the width of the countdown
    image; the window Transformed, one more width to the right, is shown
    exactly when a transformed image is passed and has a nonzero element. *)
Theorem display_windows {ty : ImageTypes} {cv : ImagePrimitives}
    (countdown contoured : loc) (transformed : option loc) (c k : Pixels)
    (t : option Pixels) (w : World) :
  heap w !! countdown = Some c ->
  heap w !! contoured = Some k ->
  match transformed, t with
  | Some l, Some p => heap w !! l = Some p
  | None, None => True
  | _, _ => False
  end ->
  exists third,
    display countdown contoured transformed w
    = Ok (tt,
          mkWorld (heap w)
            (screen w
             ++ [DisplayCall c k t;
                 Imshow "Original" c; MoveWindow "Original" 50 50;
                 Imshow "Contoured" k; MoveWindow "Contoured" (snd (shape c) + 50) 50]
             ++ third))
    /\ (forall p, t = Some p -> any_nonzero p = true ->
          third = [Imshow "Transformed" p;
                   MoveWindow "Transformed" (snd (shape c) * 2 + 50) 50])
    /\ (forall p, t = Some p -> any_nonzero p = false -> third = [])
    /\ (t = None -> third = []).
Proof.
  intros Hc Hk Ht.
  rewrite <- bind_ret_r, (bind_display countdown contoured transformed c k t) by assumption.
  unfold ret, windows. eexists. split; [reflexivity|].
  split; [|split].
  - intros p -> Hp. rewrite Hp. reflexivity.
  - intros p -> Hp. rewrite Hp. reflexivity.
  - intros ->. reflexivity.
Qed.

Lemma display_windows_witness :
  exists w',
    display (ty := Sketch.types) 0%nat 0%nat None (Sketch.holding Sketch.table_frame)
    = Ok (tt, w')
    /\ screen w'
       = [DisplayCall Sketch.table_frame Sketch.table_frame None;
          Imshow "Original" Sketch.table_frame; MoveWindow "Original" 50 50;
          Imshow "Contoured" Sketch.table_frame; MoveWindow "Contoured" 850 50].
Proof.
  destruct (display_windows (ty := Sketch.types) 0%nat 0%nat None
              Sketch.table_frame Sketch.table_frame None
              (Sketch.holding Sketch.table_frame) eq_refl eq_refl I)
    as (third & H & _ & _ & Hnone).
  rewrite (Hnone eq_refl) in H. eexists. split; [exact H | reflexivity].
Defined.

(** *** One iteration of the loop *)

(** X8. An iteration that completes lowers the countdown by exactly one
    when the countdown is not 0 and the clock test holds for the reading
    of line 277, and then takes its new reference time from a further
    clock reading (line 279); otherwise it leaves the countdown and the
    reference time as they were. *)
Theorem iteration_countdown_step {ty : ImageTypes} {cv : ImagePrimitives} (t : Tick)
    (st st' : LoopState) (w w' : World) :
  iteration t st w = Ok (st', w') ->
  exists test,
    clock_reading (stamp_test t) = Ok test
    /\ if negb (count st =? 0) && elapsed test (curr_time st)
       then count st' = count st - 1
            /\ clock_reading (stamp_reset t) = Ok (curr_time st')
       else count st' = count st /\ curr_time st' = curr_time st.
Proof.
  intros Hit.
  destruct (iteration_returns _ _ _ _ _ Hit) as (f & r & ext & k & tr & _ & _ & Hc & _).
  exact (countdown_returns _ _ _ _ Hc).
Qed.

Lemma iteration_countdown_step_witness :
  exists st' w',
    iteration (ty := Sketch.types) Sketch.tick1 (mkLoopState 2 (F64.of_Z 0) None)
      Sketch.empty_world = Ok (st', w')
    /\ count st' = 1.
Proof.
  edestruct (iteration_countdown_step (ty := Sketch.types))
    with (t := Sketch.tick1) (st := mkLoopState 2 (F64.of_Z 0) None)
         (w := Sketch.empty_world)
    as (test & Htest & Hstep); [vm_compute; reflexivity|].
  eexists _, _. split; [vm_compute; reflexivity|].
  vm_compute in Htest. injection Htest as <-. exact (proj1 Hstep).
Defined.

(** X9. After an iteration that completes, the surface held is the one
    [detect] returned for the frame of this iteration, and the one held
    before when [detect] returned None: a held surface is replaced by a
    newer one only, never dropped. *)
Theorem iteration_keeps_surface {ty : ImageTypes} {cv : ImagePrimitives} (t : Tick)
    (st st' : LoopState) (w w' : World) :
  iteration t st w = Ok (st', w') ->
  exists f r w1,
    frame t = Some f
    /\ detect (Some (length (heap w))) (mkWorld (heap w ++ [f]) (screen w)) = Ok (r, w1)
    /\ valid_surface st'
       = match r with Some ps => Some ps | None => valid_surface st end.
Proof.
  intros Hit.
  destruct (iteration_returns _ _ _ _ _ Hit)
    as (f & r & ext & k & tr & Hf & [w1 Hdet] & _ & Hv & _).
  exists f, r, w1. auto.
Qed.

Lemma iteration_keeps_surface_witness :
  exists st' w',
    iteration (ty := Sketch.types) Sketch.tick3
      (mkLoopState 2 (F64.of_Z 3) (Some Sketch.held_table))
      (Sketch.holding (Sketch.rectified Sketch.table_frame)) = Ok (st', w')
    /\ valid_surface st' = Some Sketch.held_table.
Proof.
  edestruct (iteration_keeps_surface (ty := Sketch.types))
    with (t := Sketch.tick3) (st := mkLoopState 2 (F64.of_Z 3) (Some Sketch.held_table))
         (w := Sketch.holding (Sketch.rectified Sketch.table_frame))
    as (f & r & w1 & Hf & Hdet & Hv); [vm_compute; reflexivity|].
  eexists _, _. split; [vm_compute; reflexivity|].
  injection Hf as <-. vm_compute in Hdet. injection Hdet as <- _. exact Hv.
Defined.

(** X10. An iteration that completes calls [display] exactly once and
    closes no window. The countdown image is the frame at height 300 with
    the countdown as it stands after this iteration's clock test; the
    contoured image is the frame at height 300 under the "not found"
    overlay, without the countdown, when [detect] returned None; the
    transformed image is the rectified image of the surface held after
    the iteration, at height 300, and is absent while none is held. *)
Theorem iteration_displays_once {ty : ImageTypes} {cv : ImagePrimitives} (t : Tick)
    (st st' : LoopState) (w w' : World) :
  iteration t st w = Ok (st', w') ->
  exists f r k tr,
    frame t = Some f
    /\ (exists w1,
          detect (Some (length (heap w))) (mkWorld (heap w ++ [f]) (screen w))
          = Ok (r, w1))
    /\ screen w'
       = screen w
         ++ DisplayCall (timer_image (imutils_resize f 300) (count st')) k tr
            :: windows (timer_image (imutils_resize f 300) (count st')) k tr
    /\ (r = None -> k = not_found_image (imutils_resize f 300))
    /\ match valid_surface st' with
       | None => tr = None
       | Some ps =>
           exists T, heap w' !! transform ps = Some T
                     /\ tr = Some (imutils_resize T 300)
       end.
Proof.
  intros Hit.
  destruct (iteration_returns _ _ _ _ _ Hit)
    as (f & r & ext & k & tr & Hf & Hdet & _ & _ & _ & Hscr & Hk & Htr).
  exists f, r, k, tr. auto.
Qed.

Lemma iteration_displays_once_witness :
  exists st' w',
    iteration (ty := Sketch.types) Sketch.tick1 (mkLoopState 2 (F64.of_Z 0) None)
      Sketch.empty_world = Ok (st', w')
    /\ shown (screen w') = [None].
Proof.
  edestruct (iteration_displays_once (ty := Sketch.types))
    with (t := Sketch.tick1) (st := mkLoopState 2 (F64.of_Z 0) None)
         (w := Sketch.empty_world)
    as (f & r & k & tr & _ & _ & Hscr & _ & Htr); [vm_compute; reflexivity|].
  eexists _, _. split; [vm_compute; reflexivity|].
  cbn [valid_surface] in Htr. subst tr.
  etransitivity; [exact (f_equal shown Hscr)|].
  cbn [screen Sketch.empty_world]. rewrite (shown_display []). reflexivity.
Defined.

(** ** The whole loop and the detector, further *)

(** *** The whole loop *)

(** X11. [get_surface] writes into no array that exists when it is
    called, whatever the ticks bring: when it returns, or is still
    running after the ticks supplied, the heap is the one it started from
    followed by new arrays, and the screen log the one it started from
    followed by new window calls. The overlays are drawn on copies. *)
Theorem get_surface_keeps_arrays {ty : ImageTypes} {cv : ImagePrimitives}
    (stamp : string) (ticks : list Tick) (n : Z) (w w' : World) (out : Outcome) :
  get_surface stamp ticks n w = Ok (out, w') ->
  (exists ext, heap w' = heap w ++ ext)
  /\ (exists evs, screen w' = screen w ++ evs)
  /\ forall l p, heap w !! l = Some p -> heap w' !! l = Some p.
Proof.
  intros Hrun.
  assert (H : (exists ext, heap w' = heap w ++ ext)
              /\ exists evs, screen w' = screen w ++ evs).
  { unfold get_surface in Hrun. cbv zeta in Hrun.
    destruct (clock_reading stamp) as [curr|e] eqn:Hclock;
      [rewrite (bind_lift_ok _ _ _ _ eq_refl) in Hrun
      | rewrite (bind_lift_raise _ e) in Hrun by reflexivity; discriminate].
    unfold bind at 1 in Hrun.
    destruct (while_loop ticks _ w) as [[e w1]|] eqn:Hloop; [|discriminate].
    destruct (while_loop_extends _ _ _ _ _ Hloop) as [[ext Hh] [evs Hs]].
    destruct e as [st | st]; cbn [bind emit ret heap screen] in Hrun;
      injection Hrun as <- <-; cbn [heap screen]; rewrite Hh, Hs; split.
    - exists ext. reflexivity.
    - eexists. rewrite <- app_assoc. reflexivity.
    - exists ext. reflexivity.
    - exists evs. reflexivity. }
  destruct H as [[ext Hh] Hs]. split; [exists ext; exact Hh|]. split; [exact Hs|].
  intros l p Hp. rewrite Hh. apply heap_old. exact Hp.
Qed.

Lemma get_surface_keeps_arrays_witness :
  exists out w',
    get_surface (ty := Sketch.types) Sketch.stamp0 [Sketch.tick1; Sketch.tick2] 1
      (Sketch.holding Sketch.table_frame) = Ok (out, w')
    /\ heap w' !! 0%nat = Some Sketch.table_frame.
Proof.
  edestruct (get_surface_keeps_arrays (ty := Sketch.types))
    with (stamp := Sketch.stamp0) (ticks := [Sketch.tick1; Sketch.tick2]) (n := 1)
         (w := Sketch.holding Sketch.table_frame)
    as (_ & _ & Hold); [vm_compute; reflexivity|].
  eexists _, _. split; [vm_compute; reflexivity|].
  apply Hold. reflexivity.
Defined.

(** X12. A requested count of -1 makes the countdown start at 0:
    [get_surface] returns None at once, reading no frame and showing
    nothing. A requested count below -1 makes it start below 0, where it
    can only move further down: as long as no cancel key is pressed the
    loop is still running after any number of ticks. *)
Theorem get_surface_negative_request {ty : ImageTypes} {cv : ImagePrimitives} :
  (forall (stamp : string) (curr0 : float) (ticks : list Tick) (w : World),
     clock_reading stamp = Ok curr0 ->
     get_surface stamp ticks (-1) w
     = Ok (Returned None, mkWorld (heap w) (screen w ++ [DestroyAllWindows])))
  /\ (forall (stamp : string) (ticks : list Tick) (n : Z) (w w' : World) (out : Outcome),
        n < -1 ->
        Forall (fun t => cancel_key (key t) = false) ticks ->
        get_surface stamp ticks n w = Ok (out, w') ->
        exists st, out = Running st /\ count st < 0).
Proof.
  split.
  - intros stamp curr0 ticks w Hclock. unfold get_surface. cbv zeta.
    rewrite (bind_lift_ok _ _ _ _ Hclock).
    unfold bind at 1. rewrite while_loop_done by reflexivity. reflexivity.
  - intros stamp ticks n w w' out Hn Hkeys Hrun.
    unfold get_surface in Hrun. cbv zeta in Hrun.
    destruct (clock_reading stamp) as [curr|e] eqn:Hclock;
      [rewrite (bind_lift_ok _ _ _ _ eq_refl) in Hrun
      | rewrite (bind_lift_raise _ e) in Hrun by reflexivity; discriminate].
    unfold bind at 1 in Hrun.
    destruct (while_loop ticks _ w) as [[e w1]|] eqn:Hloop; [|discriminate].
    assert (Hneg0 : count (mkLoopState (n + 1) curr None) < 0) by (cbn [count]; lia).
    destruct (while_loop_negative _ _ _ _ _ Hkeys Hneg0 Hloop) as (st' & -> & Hneg).
    cbn [ret] in Hrun. injection Hrun as <- <-. exists st'. auto.
Qed.

Lemma get_surface_negative_request_witness :
  get_surface (ty := Sketch.types) Sketch.stamp0 [Sketch.tick1] (-1) Sketch.empty_world
  = Ok (Returned None, mkWorld [] [DestroyAllWindows])
  /\ exists out w',
       get_surface (ty := Sketch.types) Sketch.stamp0 [Sketch.tick1; Sketch.tick2] (-2)
         Sketch.empty_world = Ok (out, w')
       /\ exists st, out = Running st /\ count st < 0.
Proof.
  split.
  - exact (proj1 (get_surface_negative_request (ty := Sketch.types)) Sketch.stamp0 _
             [Sketch.tick1] Sketch.empty_world stamp0_reading).
  - eexists _, _. split; [vm_compute; reflexivity|].
    eapply (proj2 (get_surface_negative_request (ty := Sketch.types)) Sketch.stamp0
              [Sketch.tick1; Sketch.tick2] (-2) Sketch.empty_world).
    + lia.
    + repeat constructor.
    + vm_compute. reflexivity.
Defined.

(** X13. The countdown follows the clock, not the frames: as long as the
    clock test holds at no tick (every reading of line 277 is within the
    test of the first reference time) and no cancel key is pressed, the
    loop is still running after any number of ticks, with the countdown
    at [requestedCount + 1] and the reference time unchanged. *)
Theorem get_surface_waits_for_clock {ty : ImageTypes} {cv : ImagePrimitives}
    (stamp : string) (curr0 : float) (ticks : list Tick) (n : Z) (w w' : World)
    (out : Outcome) :
  clock_reading stamp = Ok curr0 ->
  n <> -1 ->
  Forall (fun t => cancel_key (key t) = false
                   /\ exists test, clock_reading (stamp_test t) = Ok test
                                   /\ elapsed test curr0 = false) ticks ->
  get_surface stamp ticks n w = Ok (out, w') ->
  exists st, out = Running st /\ count st = n + 1 /\ curr_time st = curr0.
Proof.
  intros Hclock Hn Hticks Hrun. unfold get_surface in Hrun. cbv zeta in Hrun.
  rewrite (bind_lift_ok _ _ _ _ Hclock) in Hrun.
  unfold bind at 1 in Hrun.
  destruct (while_loop ticks _ w) as [[e w1]|] eqn:Hloop; [|discriminate].
  assert (Hne : count (mkLoopState (n + 1) curr0 None) <> 0) by (cbn [count]; lia).
  destruct (while_loop_stalled curr0 ticks (mkLoopState (n + 1) curr0 None) _ _ _
              Hticks eq_refl Hne Hloop)
    as (st' & -> & Hc & Ht).
  cbn [ret] in Hrun. injection Hrun as <- <-. exists st'. auto.
Qed.

Lemma get_surface_waits_for_clock_witness :
  exists out w',
    get_surface (ty := Sketch.types) Sketch.stamp0 [Sketch.tick_soon; Sketch.tick_soon2] 1
      Sketch.empty_world = Ok (out, w')
    /\ exists st, out = Running st /\ count st = 2 /\ curr_time st = F64.of_Z 0.
Proof.
  eexists _, _. split; [vm_compute; reflexivity|].
  eapply (get_surface_waits_for_clock (ty := Sketch.types) Sketch.stamp0 (F64.of_Z 0)
            [Sketch.tick_soon; Sketch.tick_soon2] 1 Sketch.empty_world).
  - exact stamp0_reading.
  - lia.
  - repeat constructor; eexists; split; vm_compute; reflexivity.
  - vm_compute. reflexivity.
Defined.

(** X14. A tick at which the camera delivers no frame makes
    [get_surface] raise AttributeError, at the [image.shape] of [detect]:
    after a steady run shorter than the countdown the surface held so far
    is lost with the exception. *)
Theorem get_surface_failed_grab {ty : ImageTypes} {cv : ImagePrimitives}
    (stamp : string) (curr0 : float) (pre rest : list Tick) (t : Tick)
    (es : list (option Pixels)) (h : option Pixels) (n : Z) (w : World) :
  clock_reading stamp = Ok curr0 ->
  steady_run curr0 None pre es h ->
  Z.of_nat (length pre) < n + 1 ->
  frame t = None ->
  get_surface stamp (pre ++ t :: rest) n w = Raise AttributeError.
Proof.
  intros Hclock Hrun Hlen Hf. unfold get_surface. cbv zeta.
  rewrite (bind_lift_ok _ _ _ _ Hclock).
  destruct (while_loop_steady pre es None h curr0 Hrun
              (mkLoopState (n + 1) curr0 None) w eq_refl)
    as (st' & ext & scr' & Hloop & Hc & _).
  { cbn [count]. lia. }
  { exact I. }
  cbn [count] in Hc.
  unfold bind at 1. rewrite Hloop. cbn [while_loop].
  destruct (Z.eqb_spec (count st') 0) as [E | _]; [lia|].
  unfold bind at 1. rewrite (iteration_no_frame t st' _ Hf). reflexivity.
Qed.

Lemma sketch_steady_one :
  steady_run (ty := Sketch.types) (F64.of_Z 0) None [Sketch.tick1] [None] None.
Proof.
  apply (steady_miss _ None Sketch.tick1 _ Sketch.blank_frame (Sketch.reading 15) _ _
           eq_refl blank_frame_fails tick1_beats).
  constructor.
Defined.

Lemma get_surface_failed_grab_witness :
  get_surface (ty := Sketch.types) Sketch.stamp0
    [Sketch.tick1; Sketch.tick2; Sketch.tick_dark; Sketch.tick4] 5 Sketch.empty_world
  = Raise AttributeError.
Proof.
  apply (get_surface_failed_grab (ty := Sketch.types) Sketch.stamp0 (F64.of_Z 0)
           [Sketch.tick1; Sketch.tick2] [Sketch.tick4] Sketch.tick_dark _ _ 5
           Sketch.empty_world stamp0_reading sketch_steady_two).
  - cbn [length]. lia.
  - reflexivity.
Defined.

(** X15. The key 'a' or 'A' ends the loop at the end of the iteration in
    which it is read, whatever the countdown: after a steady run shorter
    than the countdown, [get_surface] returns the surface held after that
    iteration (the one detected in its frame, else the one held before),
    leaves the remaining ticks unread and calls [cv2.destroyAllWindows]
    twice, once at the break and once after the loop. *)
Theorem get_surface_cancelled {ty : ImageTypes} {cv : ImagePrimitives}
    (stamp : string) (curr0 test now : float) (pre rest : list Tick) (t : Tick)
    (es : list (option Pixels)) (h verdict : option Pixels) (f : Pixels) (n : Z)
    (w : World) :
  clock_reading stamp = Ok curr0 ->
  steady_run curr0 None pre es h ->
  Z.of_nat (length pre) < n + 1 ->
  cancel_key (key t) = true ->
  frame t = Some f ->
  match verdict with
  | Some T => detection_yields f T
  | None => detection_fails f
  end ->
  clock_reading (stamp_test t) = Ok test ->
  clock_reading (stamp_reset t) = Ok now ->
  exists v hp scr,
    get_surface stamp (pre ++ t :: rest) n w
    = Ok (Returned v, mkWorld hp (scr ++ [DestroyAllWindows; DestroyAllWindows]))
    /\ holds hp v (match verdict with Some T => Some T | None => h end)
    /\ shown scr
       = shown (screen w) ++ es
         ++ [match verdict with
             | Some T => Some (imutils_resize T 300)
             | None => option_map (fun T => imutils_resize T 300) h
             end].
Proof.
  intros Hclock Hrun Hlen Hkey Hf Hverdict Htest Hnow. unfold get_surface. cbv zeta.
  rewrite (bind_lift_ok _ _ _ _ Hclock).
  destruct (while_loop_steady pre es None h curr0 Hrun
              (mkLoopState (n + 1) curr0 None) w eq_refl)
    as (st' & ext & scr' & Hloop & Hc & Hh & Hshown).
  { cbn [count]. lia. }
  { exact I. }
  cbn [count] in Hc.
  assert (Hcd : exists c' ct', countdown t st' = Ok (c', ct')).
  { unfold countdown. rewrite Htest. cbn [rbind].
    destruct (negb _ && _); [rewrite Hnow|]; eexists _, _; reflexivity. }
  destruct Hcd as (c' & ct' & Hcd).
  unfold bind at 1. rewrite Hloop. cbn [while_loop].
  destruct (Z.eqb_spec (count st') 0) as [E | _]; [lia|].
  unfold bind at 1. destruct verdict as [T|].
  - destruct (iteration_hit t st' (mkWorld (heap w ++ ext) scr') f T c' ct' Hf Hverdict Hcd)
      as (ext' & ps & K & Hit & HT).
    cbv zeta in Hit. rewrite Hit, Hkey. cbn [bind emit ret heap screen].
    eexists (Some ps), _, _. split.
    + rewrite <- (app_assoc _ [DestroyAllWindows] [DestroyAllWindows]). reflexivity.
    + split; [exact HT|]. rewrite shown_display, Hshown, <- app_assoc. reflexivity.
  - destruct (iteration_miss t st' (mkWorld (heap w ++ ext) scr') f h c' ct' Hf Hverdict Hcd Hh)
      as (ext' & Hit).
    cbv zeta in Hit. rewrite Hit, Hkey. cbn [bind emit ret heap screen].
    eexists (valid_surface st'), _, _. split.
    + rewrite <- (app_assoc _ [DestroyAllWindows] [DestroyAllWindows]). reflexivity.
    + split; [apply holds_extend; exact Hh|].
      rewrite shown_display, Hshown, <- app_assoc. reflexivity.
Qed.

Lemma get_surface_cancelled_witness :
  exists v hp scr,
    get_surface (ty := Sketch.types) Sketch.stamp0
      [Sketch.tick1; Sketch.tick_cancel; Sketch.tick3; Sketch.tick4] 5 Sketch.empty_world
    = Ok (Returned v, mkWorld hp (scr ++ [DestroyAllWindows; DestroyAllWindows]))
    /\ holds hp v (Some (Sketch.rectified Sketch.table_frame))
    /\ shown scr
       = [None; Some (imutils_resize (Sketch.rectified Sketch.table_frame) 300)].
Proof.
  apply (get_surface_cancelled (ty := Sketch.types) Sketch.stamp0 (F64.of_Z 0)
           (F64.of_Z 3) (F64.of_Z 3) [Sketch.tick1] [Sketch.tick3; Sketch.tick4]
           Sketch.tick_cancel [None] None (Some (Sketch.rectified Sketch.table_frame))
           Sketch.table_frame 5 Sketch.empty_world stamp0_reading sketch_steady_one).
  - cbn [length]. lia.
  - reflexivity.
  - reflexivity.
  - exact table_frame_yields.
  - vm_compute. reflexivity.
  - vm_compute. reflexivity.
Defined.

(** X16. Over a steady run of [requestedCount + 1] ticks the countdown
    images handed to [display] are the frames at height 300 with the
    counts [requestedCount], [requestedCount - 1], ..., 0 drawn on them,
    in this order: the count is lowered before it is drawn, so the first
    image shows the requested count and the last one shows 0. *)
Theorem get_surface_shows_countdown {ty : ImageTypes} {cv : ImagePrimitives}
    (stamp : string) (curr0 : float) (ticks : list Tick) (es : list (option Pixels))
    (h : option Pixels) (n : Z) (w : World) :
  clock_reading stamp = Ok curr0 ->
  steady_run curr0 None ticks es h ->
  Z.of_nat (length ticks) = n + 1 ->
  exists v w',
    get_surface stamp ticks n w = Ok (Returned v, w')
    /\ originals (screen w') = originals (screen w) ++ countdown_frames n ticks.
Proof.
  intros Hclock Hrun Hlen. unfold get_surface. cbv zeta.
  rewrite (bind_lift_ok _ _ _ _ Hclock).
  destruct (while_loop_steady_originals ticks es None h curr0 Hrun
              (mkLoopState (n + 1) curr0 None) w eq_refl)
    as (st' & w1 & Hloop & Hc & _ & Horig).
  { cbn [count]. lia. }
  { exact I. }
  cbn [count] in Hc, Horig.
  pose proof (Hloop []) as Hloop0. rewrite app_nil_r in Hloop0.
  unfold bind at 1. rewrite Hloop0, while_loop_done by lia.
  cbn [bind emit ret heap screen].
  eexists _, _. split; [reflexivity|]. cbn [screen].
  rewrite originals_destroy, Horig. do 2 f_equal. lia.
Qed.

Lemma get_surface_shows_countdown_witness :
  exists v w',
    get_surface (ty := Sketch.types) Sketch.stamp0 [Sketch.tick1; Sketch.tick2] 1
      Sketch.empty_world = Ok (Returned v, w')
    /\ originals (screen w')
       = [timer_image (imutils_resize Sketch.blank_frame 300) 1;
          timer_image (imutils_resize Sketch.table_frame 300) 0].
Proof.
  exact (get_surface_shows_countdown (ty := Sketch.types) Sketch.stamp0 (F64.of_Z 0)
           [Sketch.tick1; Sketch.tick2] _ _ 1 Sketch.empty_world
           stamp0_reading sketch_steady_two eq_refl).
Defined.

(** *** The detector *)

(** X17. [detect] has no guard around the corner classification: when
    the four points of the accepted outline all have the coordinate sum of
    the first one and the first one does not occur again, the call raises
    ValueError instead of returning. *)
Theorem detect_degenerate_raises {ty : ImageTypes} {cv : ImagePrimitives} (w : World)
    (l : loc) (img : Pixels) (idx : Z) (c : Contour) :
  heap w !! l = Some img ->
  find_surface_cnt (ranked_contours (imutils_resize img 300)) 0 = Some (idx, c) ->
  Forall int32 c -> stuck c ->
  detect (Some l) w = Raise ValueError.
Proof.
  intros Hl Hfind H32 Hst. rewrite (detect_unfold w l img Hl). cbv zeta. rewrite Hfind.
  pose proof (find_surface_cnt_four _ _ _ _ Hfind) as H4.
  unfold rectification, reshape_4_2. rewrite H4. cbn [Nat.eqb rbind].
  rewrite (classify_corners_stuck c H4 H32 Hst). reflexivity.
Qed.

Lemma detect_degenerate_raises_witness :
  detect (ty := Sketch.types) (Some 0%nat) (Sketch.holding Sketch.streak_frame)
  = Raise ValueError.
Proof.
  apply (detect_degenerate_raises (ty := Sketch.types) (Sketch.holding Sketch.streak_frame)
           0%nat Sketch.streak_frame 0 Sketch.streak).
  - reflexivity.
  - vm_compute. reflexivity.
  - repeat constructor; simpl; lia.
  - split; [repeat constructor|]. compute_done.
Defined.

(** X18. A surface that [detect] returns carries the perspective
    transform that sends the four classified corners of its contour,
    scaled from the working copy to the frame by rows / 300 and rounded
    to float32, to the corners (0, 0), (1439, 0), (1439, 799), (0, 799),
    in the order top-left, top-right, bottom-right, bottom-left; its
    rectified image is the frame at full resolution warped by this
    transform to 1440 x 800, and its name is "primary". *)
Theorem detect_rectifies_frame {ty : ImageTypes} {cv : ImagePrimitives} (w w' : World)
    (l : loc) (img : Pixels) (ps : PlayingSurface) :
  heap w !! l = Some img ->
  detect (Some l) w = Ok (Some ps, w') ->
  let ratio := F64.div (F64.of_Z (fst (shape img))) image_resize_value in
  exists tl tr br bl,
    classify_corners (contour ps) = Ok (tl, tr, br, bl)
    /\ perspective_matrix ps
       = getPerspectiveTransform
           (float32_points [np_multiply tl ratio; np_multiply tr ratio;
                            np_multiply br ratio; np_multiply bl ratio])
           dst_1440_800
    /\ heap w' !! transform ps
       = Some (warpPerspective img (perspective_matrix ps) (1440, 800))
    /\ name ps = "primary".
Proof.
  intros Hl Hrun ratio.
  destruct (detect_returns w w' l img (Some ps) Hl Hrun)
    as [(_ & [=] & _) | (idx & c & m & wd & ht & Hfind & Hplan & -> & Hacc)].
  destruct Hacc as [[_ [=]] | (_ & rg & _ & [= ->])].
  cbn [contour perspective_matrix transform name heap].
  destruct (rectification_size _ _ _ _ _ Hplan) as [-> ->].
  pose proof (find_surface_cnt_four _ _ _ _ Hfind) as H4.
  unfold rectification, reshape_4_2 in Hplan. rewrite H4 in Hplan.
  cbn [Nat.eqb rbind] in Hplan.
  destruct (classify_corners c) as [[[[tl tr] br] bl]|]; [|discriminate].
  cbn [rbind] in Hplan.
  destruct (max_int _ _); [|discriminate]. cbn [rbind] in Hplan.
  destruct (max_int _ _); [|discriminate]. cbn [rbind] in Hplan.
  rewrite fixed_width in Hplan. cbn [rbind] in Hplan.
  change (1440 - 1) with 1439 in Hplan. change (800 - 1) with 799 in Hplan.
  fold dst_1440_800 in Hplan.
  injection Hplan as <-.
  exists tl, tr, br, bl. split; [reflexivity|]. split; [reflexivity|].
  split; [rewrite heap_new; reflexivity | reflexivity].
Qed.

Lemma detect_rectifies_frame_witness :
  exists ps w',
    detect (ty := Sketch.types) (Some 0%nat) (Sketch.holding Sketch.table_frame)
    = Ok (Some ps, w')
    /\ classify_corners (contour ps) = Ok ((10, 10), (200, 10), (200, 150), (10, 150))
    /\ snd (perspective_matrix ps) = dst_1440_800.
Proof.
  edestruct (detect_rectifies_frame (ty := Sketch.types))
    with (w := Sketch.holding Sketch.table_frame) (l := 0%nat) (img := Sketch.table_frame)
    as (tl & tr & br & bl & Hcl & Hm & _); [reflexivity | vm_compute; reflexivity |].
  eexists _, _. split; [vm_compute; reflexivity|].
  split; [vm_compute; reflexivity|].
  rewrite Hm. reflexivity.
Defined.
